(* ===== verification/_CoqProject ===== *)
-Q . S2P
Prelude.v
JsNumber.v
NumberFormat.v
Pattern.v
JsParse.v
NumberRoundtrip.v
Json.v
JsonFuel.v
JsonCodec.v
Form.v
Request.v
Screen.v
ScreenSpec.v
