(* ===== verification/Prelude.v ===== *)
(** * ABP_ML: a verification development of the diabetes-prediction screen

    The repository [vini-fritzen/ABP_ML] is one React Native screen,
    [src/src/app/index.tsx] (component [HomeScreen]).  It keeps nine form
    fields in a react-hook-form store ([useForm], lines 7-19) and
    validates them with per-field [rules] (lines 62-238).  A press of
    "Enviar" (line 240, [handleSubmit(onSubmit)]) builds a request object
    ([onSubmit], lines 22-37):
    - the body-mass index [weight / (height*height)], computed with
      [parseFloat];
    - the other numeric fields, converted with [parseFloat] and [parseInt].
    The object is serialised with [JSON.stringify] (line 44) and POSTed to
    [/predict].  A 2xx answer is parsed with [response.json()] (line 48),
    its [message] is stored with [setMessage] (line 49), and
    [{message && <Text>{message}</Text>}] renders it (lines 243-245).

    ** Files, in dependency order, and what they model

    - [Prelude] (this file) holds the pieces every component shares:
      - the scope [abp_scope] with the notation [⟦s⟧] for the characters
        of a string;
      - the tactics [inv] and [bool_to_prop], and the hint database [abp];
      - [span], the longest prefix of characters of a class, with its
        lemmas;
      - [decimal_value], the value of a digit string.
    - [JsNumber] ([Module Number]): JavaScript numbers as binary64 values.
      It uses the Standard Library's executable [SpecFloat] at [prec = 53]
      and [emax = 1024].  It has [*], [/], unary minus, the correctly
      rounded conversion of [m × 10^-k] ([of_decimal]) and of integers,
      truthiness and finiteness.  Every operation is proved to return a
      canonical double ([is_valid]).
    - [NumberFormat] ([Module NumberFormat]): [Number::toString] (ECMA-262
      6.1.6.1.20).  Step 5 takes the shortest candidate that rounds back:
      [search] tries [k = 1 .. 17] digits, [pick] takes the floor or the
      ceiling (closest, ties to even).  Steps 6-10 are the layout
      ([format]).  Two facts are proved here:
      - an exact value rounds to itself;
      - the digits chosen always denote the number ([shortest_spec]).
    - [Pattern] ([Modules Regex] and [JsRegExp]): the regular expression
      [/^[0-9]+([,.][0-9]+)?$/] of the numeric fields' [rules.pattern].
      It has an AST, an inductive matching relation, and a
      Brzozowski-derivative matcher proved sound and complete.  It also has
      [RegExp.prototype.test] with anchors, and a one-pass scanner
      ([numeric_shape]) for the pattern's language.
    - [JsParse] ([Module NumberParsing]): [parseFloat] and [parseInt]
      (radix omitted) as the ECMAScript algorithms, and what they read
      from strings of the pattern.
    - [NumberRoundtrip]: [parseFloat (Number::toString x) = x] for every
      double but [-0], one lemma per layout of steps 6-10.
    - [Json] ([Module Json]): JSON values, and [JSON.stringify] to text
      (QuoteJSONString, [Number::toString], [null] for non-finite
      numbers).  [JSON.parse] of text is a fuel-driven recursive-descent
      parser.  The round trip is proved by nested induction on values
      ([json_ind']).
    - [JsonFuel]: the parser never runs out of fuel.  The readers take
      [exhausted], what a reader answers when its fuel is spent.  With any
      fuel above twice the length of the text, and any [exhausted], the
      reading is [JSON_parse]'s ([parse_text]).
    - [JsonCodec]: the contract [JsonText] between the screen and the JSON
      layer: [decode (encode j) = Some j] for encodable [j].  Its instance
      [ecma_json] is [JSON.stringify]/[JSON.parse], discharged by the
      round trip of [Json].
    - [Form] ([Module Form]): the nine fields ([FieldName], with
      [Countable]), [defaultValues], the widgets (the [Picker] items and
      the [TextInput]s), the [rules] table and the error texts.  It also
      has react-hook-form's [required] and [pattern] validation and the
      [errors] map (a [gmap]).
    - [Request] ([Module Request]): [onSubmit]'s pure part, lines 24-44.
      It covers the request record, [compute_bmi], its JSON value
      [request_json], and the body text [request_body].
    - [Screen] ([Module Screen]): the screen as a state machine.
      - The state [ScreenState] holds the values, react-hook-form's
        [errors] and [isSubmitted], [message], the requests in flight,
        the requests sent and the [console.error] log.
      - The events are a field change ([on_change]), a press ([on_press])
        and the settlement of one request in flight ([on_settle]).  A
        settlement is a network error or a response with a status and a
        body text.  As in react-hook-form, an invalid press sets
        [isSubmitted] at once, a valid one only when its [onSubmit] has
        returned, that is at the settlement of its request.
      - [step] and [run] execute events, and [reachable] is defined by rule
        induction.
      - [render_message] models lines 243-245.
      The settlement and the theorems about it are proved against
      [JsonText], for any JSON layer that meets it.
    - [ScreenSpec] ([Module ScreenSpec]): the spec's controller (its
      sections 4.1 and 5) as a step relation [a_step] on [AState]: values,
      result message, outstanding requests as a [gmap] by token, count of
      logged failures; [submit] sends exactly when every field is valid by
      [Form.spec_valid].  [abs] maps a screen state to it.

    ** The theorems (claim ids C1-C29 in the doc comments)

    - What is sent (C1-C4, C23, [Screen]):
      - every POST body comes from a form that passed every rule;
      - the categorical fields take only the pickers' values;
      - a valid press sends one request with a fresh id;
      - an invalid press sends nothing and stores the errors;
      - every body sent reads back through [JSON.parse] as exactly the
        request (C23).
    - The errors shown (C5, C6, C28):
      - every error stored is the current verdict of the rules on its
        field, and none is stored before a submit failed or completed
        (C5, by rule induction with the record [inv]);
      - edits made while the first request is in flight are never
        validated: after its settlement a failing field can show no
        error (C6);
      - a text shown under a field is the right message for a field that
        now fails its rules (C28).
    - Settlement and message (C7-C11, C21, C22, C27):
      - the complete behaviour of a settlement ([settle_spec]);
      - a non-2xx status keeps the message;
      - the spec's example: [{"message":"Low risk"}] is displayed as
        [Low risk];
      - a missing [message] member clears the text;
      - the requests in flight can settle in any order with any outcomes;
      - a [message] of [0] or an object cannot be rendered (C21, C22);
      - the continuation of a request runs at most once (C27).
    - Refinement and ordering (C25, C26, [ScreenSpec]):
      - from every reachable state, the runs of the screen are exactly
        the runs of the spec's controller between abstractions;
      - after any interleaving, the message is that of the last arrival
        that delivered one (last write wins by arrival order).
    - The request's numbers (C12-C15, [Request]):
      - a zero height sends [null];
      - a comma separator drops the fraction;
      - the BMI of a valid form is never negative;
      - the fields read from validated numerals.
    - Validation (C16-C19, C29, [Form] and [Pattern]):
      - an empty field fails [required];
      - a letter fails [pattern];
      - the language of the pattern;
      - [test] against the matching relation;
      - the rules table refines the spec's [validate()]: a field has no
        error exactly when it is valid by the spec's section 4.1, and the
        form is submittable exactly when all nine are (C29).
    - JSON text (C20, C24, [Json], [JsonFuel]):
      - [JSON.parse (JSON.stringify j) = j] for every value whose numbers
        are finite and not [-0];
      - [JSON.parse] terminates: its readers never run out of fuel (C24).

    ** Bounds and fuel

    - Numbers are [SpecFloat] values, never [Z] or [Q]: overflow to
      infinity, underflow to zero and rounding are the kernel's
      computation.
    - [Z_digits] runs on fuel [log2 n + 1].  A number below [2^f] has at
      most [f] decimal digits, so the fuel is enough ([Z_digits_spec]).
    - [search] runs on fuel 17.  Its result is never trusted: it is
      checked by rounding back.  If no candidate is found, the exact
      expansion of the double is used, and it is proved exact.
    - [JSON_parse] gives [parse_value] fuel [2 × length + 1].  A reader of
      a value calls readers of elements or members on a shorter text, and
      those call value readers on a text no longer than theirs and
      themselves on a shorter one, so two units per character are enough:
      no reader is ever exhausted (C24).
    - Recursion elsewhere is structural.

    ** Not modelled, and why

    - The styles (lines 250-289) are presentation only.
    - The prediction server is outside the repository; its answers are
      the inputs of the settlement events.
    - Strings are Latin-1 code units, not UTF-16.  The fields and the
      pickers use ASCII, the error texts and labels Latin-1.  A JSON
      [\u] escape beyond [ÿ] is refused by the model's parser.
    - The static JSX (title and labels) renders nothing that depends on
      state.  The error texts are [Form.error_display].
    - ECMA-262 lets [parseFloat] approximate beyond 20 significant digits;
      the model rounds exactly.
    - [Number::toString] is proved to denote the number, but not to be the
      shortest such decimal.
    - The unmount of the screen (spec section 5): React drops the state
      and the pending [onSubmit] continuations run with [setMessage] a
      no-op.  The code has nothing of its own there beyond lines 47-55,
      which [Screen.on_settle] models.

    ** Plan of later work

    - Prove that [Number::toString] chooses the shortest digit string.
      This needs a lower bound on the spacing of the doubles and the
      monotonicity of the rounding of [of_decimal].
    - Prove that [JSON.stringify] writes no raw control character, so the
      body is valid JSON text and not only text that [JSON_parse] reads. *)

From Stdlib Require Import String Ascii List ZArith Lia Bool.
Import ListNotations.

Declare Scope abp_scope.
Delimit Scope abp_scope with abp.
Open Scope abp_scope.
Local Open Scope Z_scope.

(** [⟦ s ⟧] is the list of characters of a string literal: the scanners of
    the development work on [list ascii]. *)
Notation "⟦ s ⟧" := (list_ascii_of_string s%string) (at level 0, format "⟦ s ⟧") : abp_scope.

Create HintDb abp discriminated.
Create Rewrite HintDb abp.

Ltac inv H := inversion H; subst; clear H.

(** Turn boolean conjunctions, disjunctions and equality tests of the
    hypotheses and the goal into propositions. *)
Ltac bool_to_prop :=
  repeat match goal with
  | H : (_ && _)%bool = true |- _ => apply andb_true_iff in H as [? ?]
  | H : (_ || _)%bool = false |- _ => apply orb_false_iff in H as [? ?]
  | H : negb _ = true |- _ => apply negb_true_iff in H
  | H : negb _ = false |- _ => apply negb_false_iff in H
  | H : Ascii.eqb _ _ = true |- _ => apply Ascii.eqb_eq in H; subst
  | H : (_ <=? _)%N = true |- _ => apply N.leb_le in H
  | H : (_ <=? _)%N = false |- _ => apply N.leb_gt in H
  | |- (_ && _)%bool = true => apply andb_true_iff; split
  end.

(** ** Options *)

Definition is_some {A} (o : option A) : bool := match o with Some _ => true | None => false end.

(** ** Characters *)

Definition code (c : ascii) : N := N_of_ascii c.

(** [0-9]: the ASCII decimal digits. *)
Definition is_digit (c : ascii) : bool := (48 <=? code c)%N && (code c <=? 57)%N.

(** The value of a digit. *)
Definition digit_value (c : ascii) : Z := Z.of_N (code c) - 48.

(** The longest prefix of [l] in the class [p], and the rest. *)
Fixpoint span (p : ascii -> bool) (l : list ascii) : list ascii * list ascii :=
  match l with
  | [] => ([], [])
  | c :: l' => if p c then let '(a, b) := span p l' in (c :: a, b) else ([], l)
  end.

(** [stops p l]: [l] is empty or starts with a character outside [p]. *)
Definition stops (p : ascii -> bool) (l : list ascii) : bool :=
  match l with [] => true | c :: _ => negb (p c) end.

(** The value of a digit string. *)
Definition decimal_value (ds : list ascii) : Z :=
  fold_left (fun acc c => acc * 10 + digit_value c) ds 0.

(** ** Lemmas on characters *)

Lemma digit_eqb_nondigit c d :
  is_digit c = true -> is_digit d = false -> Ascii.eqb c d = false.
Proof. intros Hc Hd. destruct (Ascii.eqb_spec c d); congruence. Qed.

Lemma digit_value_range c : is_digit c = true -> 0 <= digit_value c <= 9.
Proof. unfold is_digit, digit_value. intros H. bool_to_prop. lia. Qed.

(** ** Longest prefix of a character class *)

Lemma span_app p l : fst (span p l) ++ snd (span p l) = l.
Proof.
  induction l as [|c l IH]; simpl; [reflexivity|].
  destruct (p c); [destruct (span p l) as [a b]; simpl in *; now rewrite IH | reflexivity].
Qed.

Lemma span_fst_all p l : forallb p (fst (span p l)) = true.
Proof.
  induction l as [|c l IH]; simpl; [reflexivity|].
  destruct (p c) eqn:E; [destruct (span p l) as [a b]; simpl in *; now rewrite E, IH | reflexivity].
Qed.

Lemma span_snd_stops p l : stops p (snd (span p l)) = true.
Proof.
  induction l as [|c l IH]; simpl; [reflexivity|].
  destruct (p c) eqn:E; [destruct (span p l); exact IH | simpl; now rewrite E].
Qed.

(** The split is determined by the two facts above. *)
Lemma span_of_app p a b :
  forallb p a = true -> stops p b = true -> span p (a ++ b) = (a, b).
Proof.
  induction a as [|c a IH]; simpl; intros Ha Hb.
  - destruct b as [|c b]; simpl in *; [reflexivity|].
    apply negb_true_iff in Hb. now rewrite Hb.
  - apply andb_true_iff in Ha as [Hc Ha]. rewrite Hc, (IH Ha Hb). reflexivity.
Qed.

#[export] Hint Rewrite span_of_app using (reflexivity || assumption) : abp.

(** ** Value of a digit string *)

Lemma decimal_value_acc ds acc :
  fold_left (fun acc c => acc * 10 + digit_value c) ds acc
  = acc * 10 ^ Z.of_nat (length ds) + decimal_value ds.
Proof.
  unfold decimal_value. revert acc.
  induction ds as [|c ds IH]; intros acc; cbn [fold_left length]; [lia|].
  rewrite (IH (acc * 10 + digit_value c)), (IH (0 * 10 + digit_value c)).
  rewrite Nat2Z.inj_succ, Z.pow_succ_r by lia. lia.
Qed.

Lemma decimal_value_app a b :
  decimal_value (a ++ b) = decimal_value a * 10 ^ Z.of_nat (length b) + decimal_value b.
Proof. unfold decimal_value at 1. now rewrite fold_left_app, decimal_value_acc. Qed.

Lemma decimal_value_nonneg ds : forallb is_digit ds = true -> 0 <= decimal_value ds.
Proof.
  induction ds as [|c ds IH] using rev_ind; simpl; [unfold decimal_value; simpl; lia|].
  rewrite forallb_app. simpl. intros H. bool_to_prop.
  rewrite decimal_value_app. simpl.
  pose proof (digit_value_range c H0). specialize (IH H). unfold decimal_value at 2. simpl. lia.
Qed.

#[export] Hint Rewrite decimal_value_app : abp.
#[export] Hint Resolve decimal_value_nonneg digit_value_range : abp.
