(* ===== verification/JsNumber.v ===== *)
(** * JavaScript numbers

    The values of [weight], [height], [bmi] and the other request fields of
    [onSubmit] ([src/src/app/index.tsx], lines 24-36) are JavaScript
    numbers: IEEE-754 binary64 values.  They are modelled by the Standard
    Library's executable specification [SpecFloat.spec_float] at
    [prec = 53], [emax = 1024] (no NaN payload, signed zeros and
    infinities), so that every number the screen computes can be evaluated
    by [vm_compute].  The operations are the ones the source uses: [*] and
    [/] (line 26), unary minus (a sign in [parseFloat]/[parseInt]), the
    rounding of an exact decimal value to the nearest double (the
    "RoundMVResult" step of the ECMAScript number grammar), and
    [ToBoolean].

    The lemmas show that rounding keeps the sign.  They also show that
    every operation returns a canonical double ([is_valid]): the exponent
    is [fexp] of the magnitude.  This is the type invariant of numbers. *)

From Stdlib Require Import ZArith Lia Bool SpecFloat.
From S2P Require Import Prelude.

Local Open Scope Z_scope.

Module Number.

Definition prec : Z := 53.
Definition emax : Z := 1024.

Definition number := spec_float.

Definition NaN : number := S754_nan.
Definition PosInfinity : number := S754_infinity false.
Definition PosZero : number := S754_zero false.

(** [x * y], [x / y] and [-x] on numbers (ECMAScript Number::multiply,
    Number::divide, Number::unaryMinus): IEEE round-to-nearest-even. *)
Definition mul (x y : number) : number := SFmul prec emax x y.
Definition div (x y : number) : number := SFdiv prec emax x y.
Definition neg (x : number) : number := SFopp x.

(** 𝔽(m × 10^-k) for [m >= 0]: the double nearest to the exact decimal value,
    ties to even.  For [k <= 0] the value is an integer; otherwise it is the
    correctly rounded quotient [m / 10^k]. *)
Definition of_decimal (m k : Z) : number :=
  match m with
  | Z0 => PosZero
  | _ =>
    if k <=? 0 then binary_normalize prec emax (m * 10 ^ (- k)) 0 false
    else let '(mz, ez, lz) := SFdiv_core_binary prec emax m 0 (10 ^ k) 0 in
         binary_round_aux prec emax false mz ez lz
  end.

(** 𝔽(n) for an integer [n] (either sign); 𝔽(0) is [+0]. *)
Definition of_integer (n : Z) : number := binary_normalize prec emax n 0 false.

Definition is_nan (x : number) : bool :=
  match x with S754_nan => true | _ => false end.

(** [Number.isFinite]. *)
Definition is_finite (x : number) : bool :=
  match x with S754_zero _ | S754_finite _ _ _ => true | _ => false end.

(** [ToBoolean] on numbers: [+0], [-0] and [NaN] are falsy. *)
Definition to_boolean (x : number) : bool :=
  match x with S754_zero _ | S754_nan => false | _ => true end.

(** [x] is not NaN and its sign bit is [s]. *)
Definition has_sign (s : bool) (x : number) : bool :=
  match x with
  | S754_zero s' | S754_infinity s' | S754_finite s' _ _ => Bool.eqb s s'
  | S754_nan => false
  end.

(** The type invariant of numbers: a NaN, an infinity, a zero, or a
    finite [m × 2^e] in canonical form (the exponent is [fexp] of the
    magnitude, [m] has at most 53 bits) below the overflow threshold. *)
Definition is_valid (x : number) : bool := valid_binary prec emax x.

(** The real value of a finite number. *)
Definition finite_value (x : number) : option (Z * Z) :=
  match x with
  | S754_zero _ => Some (0, 0)
  | S754_finite s m e => Some (if s then Z.neg m else Z.pos m, e)
  | _ => None
  end.

End Number.

Import Number.

(** ** Rounding never produces NaN and keeps the sign *)

Lemma shr_1_nonneg r : 0 <= shr_m r -> 0 <= shr_m (shr_1 r).
Proof.
  destruct r as [m rb sb]; simpl.
  destruct m as [|[p|p|]|p]; simpl; lia.
Qed.

Lemma iter_shr_1_nonneg p r : 0 <= shr_m r -> 0 <= shr_m (iter_pos shr_1 p r).
Proof.
  revert r. induction p as [p IH|p IH|]; intros r H; simpl;
    auto using shr_1_nonneg.
Qed.

Lemma shr_fexp_nonneg m e l : 0 <= m -> 0 <= shr_m (fst (shr_fexp prec emax m e l)).
Proof.
  intros Hm. unfold shr_fexp, shr.
  destruct (_ - e) as [|p|p]; simpl;
    try (apply iter_shr_1_nonneg); destruct l as [|[]]; simpl; lia.
Qed.

Lemma round_nearest_even_nonneg m l : 0 <= m -> 0 <= round_nearest_even m l.
Proof.
  intros Hm. unfold round_nearest_even.
  destruct l as [|[]]; try destruct (Z.even m); lia.
Qed.

(** The rounding step of every operation returns a value of the requested
    sign, never NaN, when the mantissa it rounds is non-negative. *)
Lemma round_aux_has_sign s m e l :
  0 <= m -> has_sign s (binary_round_aux prec emax s m e l) = true.
Proof.
  intros Hm. unfold binary_round_aux.
  pose proof (shr_fexp_nonneg m e l Hm) as H1.
  destruct (shr_fexp prec emax m e l) as [r1 e1] eqn:E1; simpl in H1.
  pose proof (shr_fexp_nonneg (round_nearest_even (shr_m r1) (loc_of_shr_record r1)) e1 loc_Exact
                (round_nearest_even_nonneg _ _ H1)) as H2.
  destruct (shr_fexp prec emax _ e1 loc_Exact) as [r2 e2]; simpl in H2.
  destruct (shr_m r2) as [|p|p]; [| destruct (e2 <=? emax - prec) |]; simpl;
    try apply eqb_reflx; lia.
Qed.

Lemma binary_normalize_has_sign n :
  0 < n -> has_sign false (binary_normalize prec emax n 0 false) = true.
Proof.
  intros Hn. destruct n as [|p|p]; try lia. simpl.
  unfold binary_round. destruct (shl_align _ _ _) as [mz ez].
  apply round_aux_has_sign. lia.
Qed.

Lemma div_core_nonneg m1 e1 m2 e2 :
  0 <= m1 -> 0 < m2 -> 0 <= fst (fst (SFdiv_core_binary prec emax m1 e1 m2 e2)).
Proof.
  intros H1 H2. unfold SFdiv_core_binary.
  set (m' := match _ with Z.pos _ => _ | _ => _ end).
  assert (0 <= m') by (subst m'; destruct (_ - _ - _); try apply Z.shiftl_nonneg; lia).
  pose proof (Z.div_pos m' m2 H ltac:(lia)) as Hq.
  unfold Z.div in Hq. destruct (Z.div_eucl m' m2). exact Hq.
Qed.

(** A parsed decimal is a number of sign [+], never NaN. *)
Lemma of_decimal_has_sign m k : 0 <= m -> has_sign false (of_decimal m k) = true.
Proof.
  intros Hm. unfold of_decimal.
  destruct m as [|p|p]; [reflexivity| |lia].
  destruct (k <=? 0) eqn:Hk.
  - apply binary_normalize_has_sign. pose proof (Z.pow_pos_nonneg 10 (- k)). lia.
  - pose proof (div_core_nonneg (Z.pos p) 0 (10 ^ k) 0 ltac:(lia)
                  ltac:(apply Z.pow_pos_nonneg; lia)) as Hq.
    destruct (SFdiv_core_binary _ _ _ _ _ _) as [[mz ez] lz]. simpl in Hq.
    now apply round_aux_has_sign.
Qed.

#[export] Hint Resolve round_aux_has_sign of_decimal_has_sign : abp.

(** ** Products and quotients of non-negative numbers *)

Lemma mul_has_sign_false x y :
  has_sign false x = true -> has_sign false y = true ->
  has_sign false (mul x y) = true \/ mul x y = NaN.
Proof.
  destruct x as [[]|[]| |[] mx ex], y as [[]|[]| |[] my ey]; simpl; try discriminate;
    intros _ _; auto.
  left. apply round_aux_has_sign. lia.
Qed.

Lemma div_has_sign_false x y :
  has_sign false x = true -> has_sign false y = true ->
  has_sign false (div x y) = true \/ div x y = NaN.
Proof.
  destruct x as [[]|[]| |[] mx ex], y as [[]|[]| |[] my ey]; simpl; try discriminate;
    intros _ _; auto.
  left. pose proof (div_core_nonneg (Z.pos mx) ex (Z.pos my) ey ltac:(lia) ltac:(lia)) as Hq.
  destruct (SFdiv_core_binary _ _ _ _ _ _) as [[mz ez] lz]. simpl in Hq.
  now apply round_aux_has_sign.
Qed.

(** ** Every operation returns a canonical double *)

Lemma digits2_pos_size p : digits2_pos p = Pos.size p.
Proof. induction p as [p IH|p IH|]; simpl; congruence. Qed.

Lemma Zdigits2_log2 z : 0 < z -> Zdigits2 z = Z.log2 z + 1.
Proof.
  intros Hz. destruct z as [|p|p]; try lia. simpl. rewrite digits2_pos_size.
  destruct p; simpl; try rewrite Pos2Z.inj_succ; lia.
Qed.

Lemma fexp_mono a b : a <= b -> fexp prec emax a <= fexp prec emax b.
Proof. unfold fexp, emin. lia. Qed.

Lemma Zdigits2_nonneg z : 0 <= z -> 0 <= Zdigits2 z.
Proof. intros Hz. destruct (Z.eq_dec z 0) as [->|Hne]; [reflexivity|]. rewrite Zdigits2_log2 by lia.
  pose proof (Z.log2_nonneg z). lia. Qed.

Lemma Zdigits2_mono a b : 0 < a <= b -> Zdigits2 a <= Zdigits2 b.
Proof. intros H. rewrite !Zdigits2_log2 by lia. pose proof (Z.log2_le_mono a b). lia. Qed.

(** [fexp] never goes below [emin], and is above its argument only there. *)
Lemma fexp_ge_emin x : emin prec emax <= fexp prec emax x.
Proof. unfold fexp. lia. Qed.

Lemma fexp_above x : x <= fexp prec emax x -> fexp prec emax x = emin prec emax.
Proof. unfold fexp, emin, prec, emax. lia. Qed.

Lemma shr_1_m r : 0 <= shr_m r -> shr_m (shr_1 r) = Z.shiftr (shr_m r) 1.
Proof. destruct r as [m rb sb]. simpl. intros Hm. destruct m as [|[p|p|]|p]; try lia; reflexivity. Qed.

Lemma iter_shr_1_m p r : 0 <= shr_m r -> shr_m (iter_pos shr_1 p r) = Z.shiftr (shr_m r) (Z.pos p).
Proof.
  revert r. induction p as [p IH|p IH|]; intros r Hr; cbn [iter_pos].
  - rewrite IH, IH, shr_1_m by auto using shr_1_nonneg, iter_shr_1_nonneg.
    rewrite !Z.shiftr_shiftr by lia. f_equal. lia.
  - rewrite IH, IH by auto using iter_shr_1_nonneg. rewrite Z.shiftr_shiftr by lia. f_equal. lia.
  - now apply shr_1_m.
Qed.

(** The first rounding step: when [e] is at most the canonical exponent of
    [m × 2^e], [shr_fexp] moves to that exponent; the mantissa left is zero
    (every digit shifted out) or keeps the magnitude [digits + exponent]. *)
Lemma shr_fexp_canon m e l : 0 <= m -> e <= fexp prec emax (Zdigits2 m + e) ->
  snd (shr_fexp prec emax m e l) = fexp prec emax (Zdigits2 m + e) /\
  (shr_m (fst (shr_fexp prec emax m e l)) = 0 /\ Zdigits2 m + e <= snd (shr_fexp prec emax m e l) \/
   0 < shr_m (fst (shr_fexp prec emax m e l)) /\
   Zdigits2 (shr_m (fst (shr_fexp prec emax m e l))) + snd (shr_fexp prec emax m e l) = Zdigits2 m + e).
Proof.
  intros Hm He. unfold shr_fexp, shr.
  set (f := fexp prec emax (Zdigits2 m + e)) in *.
  assert (Hrec : shr_m (shr_record_of_loc m l) = m) by (destruct l as [|[]]; reflexivity).
  destruct (f - e) as [|p|p] eqn:Hn; cbn [fst snd]; [| |lia]; rewrite ?iter_shr_1_m, Hrec by (rewrite Hrec; exact Hm).
  - split; [lia|]. destruct (Z.eq_dec m 0) as [->|Hne]; [left; cbn; lia | right; split; lia].
  - split; [lia|]. pose proof (proj2 (Z.shiftr_nonneg m (Z.pos p)) Hm) as Hnn.
    destruct (Z.eq_dec m 0) as [->|Hm0]; [left; rewrite Z.shiftr_0_l; cbn; lia|].
    destruct (Z.le_gt_cases (Z.pos p) (Z.log2 m)) as [Hle|Hgt].
    + right. assert (Hpos : 0 < Z.shiftr m (Z.pos p)).
      { destruct (Z.eq_dec (Z.shiftr m (Z.pos p)) 0) as [E|E]; [|lia].
        apply Z.shiftr_eq_0_iff in E as [E|[_ E]]; lia. }
      split; [exact Hpos|]. rewrite !Zdigits2_log2, Z.log2_shiftr by lia. lia.
    + left. rewrite Z.shiftr_eq_0 by lia. split; [reflexivity|]. rewrite Zdigits2_log2 by lia. lia.
Qed.

Lemma round_nearest_even_bounds m l : m <= round_nearest_even m l <= m + 1.
Proof. destruct l as [|[]]; cbn; try destruct (Z.even m); lia. Qed.

(** Rounding a non-negative [m × 2^e] whose exponent is at most the
    canonical one returns a canonical double (or a zero, or an infinity). *)
Lemma round_aux_valid s m e l : 0 <= m -> e <= fexp prec emax (Zdigits2 m + e) ->
  is_valid (binary_round_aux prec emax s m e l) = true.
Proof.
  intros Hm He. unfold binary_round_aux.
  destruct (shr_fexp_canon m e l Hm He) as [He1 Hm1].
  destruct (shr_fexp prec emax m e l) as [r1 e1]. cbn [fst snd] in He1, Hm1.
  pose proof (round_nearest_even_bounds (shr_m r1) (loc_of_shr_record r1)) as Hb.
  set (m1 := round_nearest_even (shr_m r1) (loc_of_shr_record r1)) in *.
  assert (He2 : e1 <= fexp prec emax (Zdigits2 m1 + e1)).
  { destruct Hm1 as [[H0 Hle] | [Hp Hd]].
    - rewrite He1 in Hle |- *. rewrite (fexp_above _ Hle). apply fexp_ge_emin.
    - rewrite He1 at 1. apply fexp_mono. pose proof (Zdigits2_mono (shr_m r1) m1 ltac:(lia)). lia. }
  assert (Hm1pos : 0 <= m1) by (destruct Hm1 as [[H0 _] | [Hp _]]; lia).
  destruct (shr_fexp_canon m1 e1 loc_Exact Hm1pos He2) as [He3 Hm3].
  destruct (shr_fexp prec emax m1 e1 loc_Exact) as [r2 e2]. cbn [fst snd] in He3, Hm3.
  destruct Hm3 as [[H0 _] | [Hp Hd]]; [rewrite H0; reflexivity|].
  destruct (shr_m r2) as [|p|p] eqn:E; try lia.
  destruct (e2 <=? emax - prec) eqn:Hle; [|reflexivity].
  unfold is_valid, valid_binary, bounded, canonical_mantissa. rewrite Hle, andb_true_r.
  apply Z.eqb_eq. change (Z.pos (digits2_pos p)) with (Zdigits2 (Z.pos p)). rewrite Hd. symmetry. exact He3.
Qed.

Lemma iter_xO_mul p d : Z.pos (Pos.iter xO p d) = Z.pos p * 2 ^ Z.pos d.
Proof.
  induction d as [|d IH] using Pos.peano_ind; [cbn; lia|].
  rewrite Pos.iter_succ, Pos2Z.inj_succ, Z.pow_succ_r by lia.
  change (Z.pos (Pos.iter xO p d)~0) with (2 * Z.pos (Pos.iter xO p d)). rewrite IH. ring.
Qed.

Lemma binary_round_valid s p e : is_valid (binary_round prec emax s p e) = true.
Proof.
  unfold binary_round, shl_align. change (Z.pos (digits2_pos p)) with (Zdigits2 (Z.pos p)).
  rewrite Zdigits2_log2 by lia. set (f := fexp prec emax (Z.log2 (Z.pos p) + 1 + e)).
  destruct (f - e) as [|d|d] eqn:Hd; cbn beta iota; apply round_aux_valid; try lia.
  - rewrite Zdigits2_log2 by lia. unfold f in *. lia.
  - rewrite Zdigits2_log2 by lia. unfold f in *. lia.
  - rewrite iter_xO_mul, Zdigits2_log2, Z.log2_mul_pow2 by lia.
    replace (Z.pos d + Z.log2 (Z.pos p) + 1 + f) with (Z.log2 (Z.pos p) + 1 + e) by lia.
    unfold f in *. lia.
Qed.

(** [binary_normalize] (conversion of an integer [n × 2^e]) returns a
    canonical double. *)
Lemma binary_normalize_valid n e s : is_valid (binary_normalize prec emax n e s) = true.
Proof. destruct n as [|p|p]; [reflexivity | apply binary_round_valid | apply binary_round_valid]. Qed.

Lemma pow2_digits_lower q k : 0 <= k -> 2 ^ k <= q -> k + 1 <= Zdigits2 q.
Proof.
  intros Hk Hq. pose proof (Z.pow_pos_nonneg 2 k ltac:(lia) Hk).
  rewrite Zdigits2_log2 by lia. pose proof (Z.log2_le_mono _ _ Hq). rewrite Z.log2_pow2 in * by lia. lia.
Qed.

(** The quotient step of division: the quotient [q] of [m1 × 2^s / m2] has
    at least [log2 m1 + s - log2 m2] bits. *)
Lemma quotient_digits m1 m2 s : 0 < m1 -> 0 < m2 -> 0 <= s ->
  Z.log2 m1 + s - Z.log2 m2 <= Zdigits2 ((m1 * 2 ^ s) / m2).
Proof.
  intros H1 H2 Hs. set (q := (m1 * 2 ^ s) / m2).
  assert (Hq : 0 <= q) by (apply Z.div_pos; [pose proof (Z.pow_pos_nonneg 2 s); nia | lia]).
  pose proof (Zdigits2_nonneg q Hq).
  destruct (Z.lt_ge_cases (Z.log2 m1 + s - Z.log2 m2 - 1) 0) as [Hneg|Hnn]; [lia|].
  enough (2 ^ (Z.log2 m1 + s - Z.log2 m2 - 1) <= q) by (pose proof (pow2_digits_lower q _ Hnn H0); lia).
  destruct (Z.le_gt_cases (2 ^ (Z.log2 m1 + s - Z.log2 m2 - 1)) q) as [|Hlt]; [assumption|exfalso].
  pose proof (Z.log2_spec m1 H1) as [Hl1 _]. pose proof (Z.log2_spec m2 H2) as [_ Hl2].
  pose proof (Z.log2_nonneg m1). pose proof (Z.log2_nonneg m2).
  assert (Hpow : 2 ^ (Z.log2 m1 + s - Z.log2 m2 - 1) * 2 ^ Z.succ (Z.log2 m2) = 2 ^ Z.log2 m1 * 2 ^ s)
    by (rewrite <- !Z.pow_add_r by lia; f_equal; lia).
  pose proof (Z.mul_succ_div_gt (m1 * 2 ^ s) m2 H2) as Hgt. fold q in Hgt.
  pose proof (Z.pow_pos_nonneg 2 s ltac:(lia) Hs).
  assert (2 ^ Z.log2 m1 * 2 ^ s <= m1 * 2 ^ s) by nia.
  assert (m2 * (q + 1) <= m2 * 2 ^ (Z.log2 m1 + s - Z.log2 m2 - 1)) by nia.
  assert (m2 * 2 ^ (Z.log2 m1 + s - Z.log2 m2 - 1) < 2 ^ Z.succ (Z.log2 m2) * 2 ^ (Z.log2 m1 + s - Z.log2 m2 - 1))
    by (pose proof (Z.pow_pos_nonneg 2 (Z.log2 m1 + s - Z.log2 m2 - 1) ltac:(lia) Hnn); nia).
  lia.
Qed.

(** The division step [SFdiv_core_binary] returns a quotient whose
    exponent is at most the canonical one, so its rounding is canonical. *)
Lemma div_core_canon m1 e1 m2 e2 : 0 < m1 -> 0 < m2 ->
  0 <= fst (fst (SFdiv_core_binary prec emax m1 e1 m2 e2)) /\
  snd (fst (SFdiv_core_binary prec emax m1 e1 m2 e2))
  <= fexp prec emax (Zdigits2 (fst (fst (SFdiv_core_binary prec emax m1 e1 m2 e2)))
                     + snd (fst (SFdiv_core_binary prec emax m1 e1 m2 e2))).
Proof.
  intros H1 H2. unfold SFdiv_core_binary. cbv zeta.
  remember (Z.min (fexp prec emax (Zdigits2 m1 + e1 - (Zdigits2 m2 + e2))) (e1 - e2)) as e' eqn:He'.
  assert (Hmin : e' <= fexp prec emax (Zdigits2 m1 + e1 - (Zdigits2 m2 + e2)) /\ e' <= e1 - e2) by lia.
  assert (Hm' : match e1 - e2 - e' with Z.pos _ => Z.shiftl m1 (e1 - e2 - e') | Z0 => m1 | Z.neg _ => 0 end
                = m1 * 2 ^ (e1 - e2 - e')).
  { destruct (e1 - e2 - e') eqn:E; [cbn; lia | apply Z.shiftl_mul_pow2; lia | lia]. }
  rewrite Hm'. assert (E : forall a b, Z.div_eucl a b = (a / b, a mod b))
    by (intros a b; unfold Z.div, Z.modulo; now destruct (Z.div_eucl a b)).
  rewrite E. cbn [fst snd].
  pose proof (quotient_digits m1 m2 (e1 - e2 - e') H1 H2 ltac:(lia)) as Hq.
  split; [apply Z.div_pos; [pose proof (Z.pow_pos_nonneg 2 (e1 - e2 - e')); nia | lia]|].
  etransitivity; [exact (proj1 Hmin)|]. apply fexp_mono.
  rewrite !Zdigits2_log2 by lia. lia.
Qed.

Lemma neg_valid x : is_valid (neg x) = is_valid x.
Proof. destruct x; reflexivity. Qed.

Lemma bounded_canon m e : bounded prec emax m e = true ->
  fexp prec emax (Z.log2 (Z.pos m) + 1 + e) = e /\ e <= emax - prec.
Proof.
  unfold bounded, canonical_mantissa. intros H. apply andb_prop in H as [H1 H2].
  apply Z.eqb_eq in H1. apply Z.leb_le in H2. change (Z.pos (digits2_pos m)) with (Zdigits2 (Z.pos m)) in H1.
  rewrite Zdigits2_log2 in H1 by lia. auto.
Qed.

(** [x * y] of canonical doubles is canonical. *)
Lemma mul_valid x y : is_valid x = true -> is_valid y = true -> is_valid (mul x y) = true.
Proof.
  destruct x as [sx|sx| |sx mx ex], y as [sy|sy| |sy my ey]; try reflexivity.
  intros Hx Hy. apply bounded_canon in Hx as [Hx _]. apply bounded_canon in Hy as [Hy _].
  unfold mul, SFmul. apply round_aux_valid; [lia|].
  rewrite Zdigits2_log2 by lia. rewrite Pos2Z.inj_mul.
  pose proof (Z.log2_mul_below (Z.pos mx) (Z.pos my) ltac:(lia) ltac:(lia)).
  pose proof (Z.log2_nonneg (Z.pos mx)). pose proof (Z.log2_nonneg (Z.pos my)).
  revert Hx Hy. unfold fexp, emin, prec, emax. lia.
Qed.

(** [x / y] of canonical doubles is canonical. *)
Lemma div_valid x y : is_valid x = true -> is_valid y = true -> is_valid (div x y) = true.
Proof.
  destruct x as [sx|sx| |sx mx ex], y as [sy|sy| |sy my ey]; try reflexivity.
  intros _ _. unfold div, SFdiv.
  destruct (div_core_canon (Z.pos mx) ex (Z.pos my) ey ltac:(lia) ltac:(lia)) as [Hq He].
  destruct (SFdiv_core_binary _ _ _ _ _ _) as [[q e'] l]. cbn [fst snd] in Hq, He.
  now apply round_aux_valid.
Qed.

(** The conversion of a decimal [m × 10^-k] is canonical. *)
Lemma of_decimal_valid m k : 0 <= m -> is_valid (of_decimal m k) = true.
Proof.
  intros Hm. unfold of_decimal. destruct m as [|p|p]; [reflexivity| |lia].
  destruct (k <=? 0) eqn:Hk; [apply binary_normalize_valid|].
  apply Z.leb_gt in Hk.
  destruct (div_core_canon (Z.pos p) 0 (10 ^ k) 0 ltac:(lia) ltac:(apply Z.pow_pos_nonneg; lia)) as [Hq He].
  destruct (SFdiv_core_binary _ _ _ _ _ _) as [[q e'] l]. cbn [fst snd] in Hq, He.
  now apply round_aux_valid.
Qed.

Lemma of_integer_valid n : is_valid (of_integer n) = true.
Proof. apply binary_normalize_valid. Qed.
