(* ===== verification/NumberFormat.v ===== *)
(** * [Number::toString]

    [JSON.stringify] (line 44 of [src/src/app/index.tsx]) writes every
    finite number of the request with [Number::toString] (ECMA-262
    6.1.6.1.20), and React renders a numeric [message] with it too.
    [Module NumberFormat] models the algorithm: the shortest decimal
    [s × 10^q] (fewest digits [k]) that rounds back to the number, the one
    closest to it when two have [k] digits (ties to even), then the layout
    of steps 6-10 (plain integer, [d.ddd], [0.000ddd], or exponent form
    [d.ddde±n]).

    The candidates are the floor and ceiling of [x / 10^q] for
    [k = 1 .. 17] (17 significant digits always suffice for binary64);
    each is checked by rounding it back with [of_decimal].  If none
    matches, the exact decimal expansion of [x] is written.  17 digits
    always suffice for binary64, so this branch should not be taken, but
    the model does not depend on it: the expansion is proved to round
    back to [x] too ([of_decimal_exact_int], [of_decimal_exact_frac]).
    [shortest_spec] states that the chosen digits denote the number. *)

From Stdlib Require Import String Ascii List ZArith Lia Bool SpecFloat.
From S2P Require Import Prelude JsNumber.
Import ListNotations Number.

Local Open Scope Z_scope.

Module NumberFormat.

Definition digit_char (d : Z) : ascii := ascii_of_nat (48 + Z.to_nat d).
Fixpoint digits_fuel (fuel : nat) (n : Z) (acc : list ascii) : list ascii :=
  match fuel with
  | O => acc
  | S f => let acc' := digit_char (n mod 10) :: acc in
           if n <? 10 then acc' else digits_fuel f (n / 10) acc'
  end.
(** The decimal digits of a positive integer. *)
Definition Z_digits (n : Z) : list ascii := digits_fuel (S (Z.to_nat (Z.log2 n))) n [].

(** Compare [m × 2^e] with [s × 10^q], exactly. *)
Definition cmp_bd (m e s q : Z) : comparison :=
  Z.compare (m * 2 ^ Z.max e 0 * 10 ^ Z.max (- q) 0) (s * 10 ^ Z.max q 0 * 2 ^ Z.max (- e) 0).

(** The [p] with [10^p <= m × 2^e < 10^(p+1)]: an estimate from the binary
    exponent, corrected by one exact comparison on each side. *)
Definition decimal_exponent (m e : Z) : Z :=
  let b := Z.log2 m + e in
  let p0 := b * 30103 / 100000 in
  match cmp_bd m e 1 p0 with
  | Lt => p0 - 1
  | _ => match cmp_bd m e 1 (p0 + 1) with Lt => p0 | _ => p0 + 1 end
  end.

(** Equality of finite numbers. *)
Definition sf_eqb (x y : spec_float) : bool :=
  match x, y with
  | S754_finite sx mx ex, S754_finite sy my ey => Bool.eqb sx sy && Pos.eqb mx my && Z.eqb ex ey
  | _, _ => false
  end.

(** [floor (m × 2^e / 10^q)] and whether the division is exact. *)
Definition div_bd (m e q : Z) : Z * bool :=
  let num := m * 2 ^ Z.max e 0 * 10 ^ Z.max (- q) 0 in
  let den := 10 ^ Z.max q 0 * 2 ^ Z.max (- e) 0 in
  (num / den, num mod den =? 0).

Definition roundtrips (x : spec_float) (s q : Z) : bool := sf_eqb (of_decimal s (- q)) x.

(** A [k]-digit candidate [v × 10^q]; [10^k] is renormalised to
    [10^(k-1) × 10^(q+1)]. *)
Definition cand (k : nat) (q v : Z) : Z * Z :=
  if v =? 10 ^ Z.of_nat k then (10 ^ (Z.of_nat k - 1), q + 1) else (v, q).

(** [v] has [k] digits and [v × 10^q] rounds back to [x]. *)
Definition cand_ok (x : spec_float) (k : nat) (q v : Z) : bool :=
  (10 ^ (Z.of_nat k - 1) <=? v) && (v <=? 10 ^ Z.of_nat k) && (0 <? fst (cand k q v))
  && roundtrips x (fst (cand k q v)) (snd (cand k q v)).

(** Is the floor [fl] at least as close to [m × 2^e / 10^q] as the ceiling
    (ties to the even one)? *)
Definition floor_closer (m e q fl : Z) (exact : bool) : bool :=
  if exact then true
  else match cmp_bd (2 * m) e (2 * fl + 1) q with Lt => true | Gt => false | Eq => Z.even fl end.

(** The [k]-digit candidate for exponent [q]: the floor or the ceiling of
    [x / 10^q] that rounds back to [x], the closer one if both do. *)
Definition pick (m e q : Z) (k : nat) (x : spec_float) : option (Z * Z) :=
  let '(fl, exact) := div_bd m e q in
  let ce := if exact then fl else fl + 1 in
  if cand_ok x k q fl && (negb (cand_ok x k q ce) || floor_closer m e q fl exact) then Some (cand k q fl)
  else if cand_ok x k q ce then Some (cand k q ce) else None.

(** Candidates with k, k+1, ... digits. *)
Fixpoint search (m e p : Z) (x : spec_float) (k : nat) (fuel : nat) : option (Z * Z) :=
  match fuel with
  | O => None
  | S f => match pick m e (p + 1 - Z.of_nat k) k x with
           | Some r => Some r
           | None => search m e p x (S k) f
           end
  end.

(** The digits and exponent written: the shortest candidate, or the exact
    expansion [m × 2^e] ([e >= 0]) or [m × 5^-e × 10^e] ([e < 0]). *)
Definition shortest (m e : Z) (x : spec_float) : Z * Z :=
  match search m e (decimal_exponent m e) x 1 17 with
  | Some r => r
  | None => if 0 <=? e then (m * 2 ^ e, 0) else (m * 5 ^ (- e), e)
  end.

Definition zeros (n : Z) : list ascii := repeat "0"%char (Z.to_nat n).
(** Steps 6-10: the layout of digits [ds] ([k] of them) with point position
    [n] (the value is [0.ds × 10^n]). *)
Definition format (ds : list ascii) (k n : Z) : list ascii :=
  if (k <=? n) && (n <=? 21) then ds ++ zeros (n - k)
  else if (0 <? n) && (n <=? 21) then firstn (Z.to_nat n) ds ++ "."%char :: skipn (Z.to_nat n) ds
  else if (-6 <? n) && (n <=? 0) then "0"%char :: "."%char :: zeros (- n) ++ ds
  else match ds with
       | [d] => [d; "e"%char] ++ (if n - 1 <? 0 then "-"%char else "+"%char) :: Z_digits (Z.abs (n - 1))
       | d :: rest => d :: "."%char :: rest ++ "e"%char :: (if n - 1 <? 0 then "-"%char else "+"%char) :: Z_digits (Z.abs (n - 1))
       | [] => []
       end.
Definition to_string_pos (m : positive) (e : Z) (x : spec_float) : list ascii :=
  let '(s, q) := shortest (Z.pos m) e x in
  let ds := Z_digits s in
  let k := Z.of_nat (length ds) in
  format ds k (q + k).
Definition Number_toString (x : spec_float) : string :=
  match x with
  | S754_nan => "NaN"%string
  | S754_zero _ => "0"%string
  | S754_infinity false => "Infinity"%string
  | S754_infinity true => "-Infinity"%string
  | S754_finite false m e => string_of_list_ascii (to_string_pos m e x)
  | S754_finite true m e => String "-" (string_of_list_ascii (to_string_pos m e (S754_finite false m e)))
  end.

End NumberFormat.

Import NumberFormat.

(** [m × 2^e] in canonical form: the exponent is [fexp] of the magnitude. *)
Definition canonical (m : positive) (e : Z) : Prop :=
  fexp prec emax (Z.pos (digits2_pos m) + e) = e.

(** ** Digits *)

Lemma digit_char_spec d : 0 <= d <= 9 -> is_digit (digit_char d) = true /\ digit_value (digit_char d) = d.
Proof.
  intros H. assert (d = 0 \/ d = 1 \/ d = 2 \/ d = 3 \/ d = 4 \/ d = 5 \/ d = 6 \/ d = 7 \/ d = 8 \/ d = 9)
    as Hd by lia.
  repeat destruct Hd as [-> | Hd]; try (subst; split; reflexivity).
Qed.

Lemma digits_fuel_suffix fuel n acc : exists l, digits_fuel fuel n acc = l ++ acc.
Proof.
  revert n acc. induction fuel as [|f IH]; intros n acc; simpl; [exists []; reflexivity|].
  destruct (n <? 10); [exists [digit_char (n mod 10)]; reflexivity|].
  destruct (IH (n / 10) (digit_char (n mod 10) :: acc)) as [l ->].
  exists (l ++ [digit_char (n mod 10)]). now rewrite <- app_assoc.
Qed.

Lemma digits_fuel_spec fuel n acc :
  0 <= n < 2 ^ Z.of_nat fuel ->
  forallb is_digit (digits_fuel fuel n acc) = forallb is_digit acc /\
  decimal_value (digits_fuel fuel n acc) = n * 10 ^ Z.of_nat (length acc) + decimal_value acc.
Proof.
  revert n acc. induction fuel as [|f IH]; intros n acc Hn; simpl.
  - simpl in Hn. assert (n = 0) as -> by lia. auto.
  - rewrite Nat2Z.inj_succ, Z.pow_succ_r in Hn by lia.
    destruct (digit_char_spec (n mod 10) ltac:(pose proof (Z.mod_pos_bound n 10); lia)) as [Hd Hv].
    assert (Hcons : forall l, decimal_value (digit_char (n mod 10) :: l) =
                              (n mod 10) * 10 ^ Z.of_nat (length l) + decimal_value l).
    { intros l. change (digit_char (n mod 10) :: l) with ([digit_char (n mod 10)] ++ l).
      rewrite decimal_value_app. unfold decimal_value at 1. cbn [fold_left length]. rewrite Hv. lia. }
    destruct (n <? 10) eqn:E.
    + apply Z.ltb_lt in E. cbn [forallb]. rewrite Hd, Hcons, Z.mod_small by lia. auto.
    + apply Z.ltb_ge in E. destruct (IH (n / 10) (digit_char (n mod 10) :: acc)) as [H1 H2].
      { split; [apply Z.div_pos; lia | apply Z.div_lt_upper_bound; lia]. }
      rewrite H1, H2, Hcons. cbn [forallb length]. rewrite Hd. split; [reflexivity|].
      rewrite Nat2Z.inj_succ, Z.pow_succ_r by lia.
      transitivity ((10 * (n / 10) + n mod 10) * 10 ^ Z.of_nat (length acc) + decimal_value acc);
        [ring | rewrite <- Z.div_mod by lia; reflexivity].
Qed.

Lemma Z_digits_spec s :
  0 < s -> Z_digits s <> [] /\ forallb is_digit (Z_digits s) = true /\ decimal_value (Z_digits s) = s.
Proof.
  intros Hs. unfold Z_digits.
  assert (Hb : 0 <= s < 2 ^ Z.of_nat (S (Z.to_nat (Z.log2 s)))).
  { rewrite Nat2Z.inj_succ, Z2Nat.id by (apply Z.log2_nonneg).
    pose proof (Z.log2_spec s Hs) as [_ Hl].
    rewrite Z.pow_succ_r in Hl |- * by (apply Z.log2_nonneg). lia. }
  destruct (digits_fuel_spec _ s [] Hb) as [H1 H2]. cbn [length forallb] in H1, H2.
  split; [|split; [exact H1 | rewrite H2; unfold decimal_value; cbn [fold_left]; lia]].
  cbn [digits_fuel]. destruct (s <? 10); [discriminate|].
  destruct (digits_fuel_suffix (Z.to_nat (Z.log2 s)) (s / 10) [digit_char (s mod 10)]) as [l ->].
  destruct l; discriminate.
Qed.

(** ** The candidates round back to the number *)

Lemma sf_eqb_true x y : sf_eqb x y = true -> x = y.
Proof.
  destruct x as [| | |sx mx ex], y as [| | |sy my ey]; simpl; try discriminate.
  intros H. bool_to_prop. apply eqb_prop in H. apply Pos.eqb_eq in H1. apply Z.eqb_eq in H0. now subst.
Qed.

Lemma cand_ok_spec x k q v s q' :
  cand_ok x k q v = true -> cand k q v = (s, q') -> 0 < s /\ of_decimal s (- q') = x.
Proof.
  unfold cand_ok, roundtrips. intros Hv Hc. rewrite Hc in Hv. simpl in Hv. bool_to_prop.
  split; [now apply Z.ltb_lt | now apply sf_eqb_true].
Qed.

Lemma pick_spec m e q k x s q' :
  pick m e q k x = Some (s, q') -> 0 < s /\ of_decimal s (- q') = x.
Proof.
  unfold pick. destruct (div_bd m e q) as [fl exact].
  set (ce := if exact then fl else fl + 1).
  destruct (cand_ok x k q fl && _) eqn:E1.
  - apply andb_true_iff in E1 as [E1 _]. intros H. injection H as H. exact (cand_ok_spec _ _ _ _ _ _ E1 H).
  - destruct (cand_ok x k q ce) eqn:E2; intros H; [|discriminate].
    injection H as H. exact (cand_ok_spec _ _ _ _ _ _ E2 H).
Qed.

Lemma search_spec m e p x k fuel s q :
  search m e p x k fuel = Some (s, q) -> 0 < s /\ of_decimal s (- q) = x.
Proof.
  revert k. induction fuel as [|f IH]; intros k; simpl; [discriminate|].
  destruct (pick m e (p + 1 - Z.of_nat k) k x) as [[s' q']|] eqn:E.
  - intros H. inversion H; subst. eapply pick_spec; eauto.
  - apply IH.
Qed.

(** ** Rounding an exactly representable value returns it *)

Lemma shr_1_double m : 0 < m ->
  shr_1 {| shr_m := m * 2; shr_r := false; shr_s := false |} = {| shr_m := m; shr_r := false; shr_s := false |}.
Proof. intros Hm. destruct m as [|p|p]; try lia. rewrite Z.mul_comm. reflexivity. Qed.

Lemma iter_shr_exact p : forall m, 0 < m ->
  iter_pos shr_1 p {| shr_m := m * 2 ^ Z.pos p; shr_r := false; shr_s := false |}
  = {| shr_m := m; shr_r := false; shr_s := false |}.
Proof.
  induction p as [p IH|p IH|]; intros m Hm; cbn [iter_pos].
  - assert (Hp : 0 < 2 ^ Z.pos p) by (apply Z.pow_pos_nonneg; lia).
    replace (m * 2 ^ Z.pos p~1) with (m * 2 ^ Z.pos p * 2 ^ Z.pos p * 2)
      by (replace (Z.pos p~1) with (Z.pos p + Z.pos p + 1) by lia;
          rewrite !Z.pow_add_r by lia; ring).
    rewrite shr_1_double by nia. rewrite IH by nia. apply IH; lia.
  - assert (Hp : 0 < 2 ^ Z.pos p) by (apply Z.pow_pos_nonneg; lia).
    replace (m * 2 ^ Z.pos p~0) with (m * 2 ^ Z.pos p * 2 ^ Z.pos p)
      by (replace (Z.pos p~0) with (Z.pos p + Z.pos p) by lia;
          rewrite !Z.pow_add_r by lia; ring).
    rewrite IH by nia. apply IH; lia.
  - now rewrite shr_1_double by lia.
Qed.

Lemma shr_fexp_exact m e j mx ex :
  canonical m e -> 0 <= j -> mx = Z.pos m * 2 ^ j -> ex = e - j ->
  shr_fexp prec emax mx ex loc_Exact = ({| shr_m := Z.pos m; shr_r := false; shr_s := false |}, e).
Proof.
  intros Hc Hj -> ->. unfold shr_fexp. cbn [shr_record_of_loc].
  rewrite Zdigits2_log2 by (apply Z.mul_pos_pos; [lia | apply Z.pow_pos_nonneg; lia]).
  rewrite Z.log2_mul_pow2 by lia.
  replace (j + Z.log2 (Z.pos m) + 1 + (e - j)) with (Z.pos (digits2_pos m) + e)
    by (pose proof (Zdigits2_log2 (Z.pos m) ltac:(lia)) as Hd; cbn [Zdigits2] in Hd; lia).
  rewrite Hc. replace (e - (e - j)) with j by lia.
  unfold shr. destruct j as [|p|p]; [| |lia].
  - now rewrite Z.mul_1_r, Z.sub_0_r.
  - rewrite iter_shr_exact by lia. f_equal. lia.
Qed.

Lemma round_aux_exact m e j :
  canonical m e -> e <= emax - prec -> 0 <= j ->
  binary_round_aux prec emax false (Z.pos m * 2 ^ j) (e - j) loc_Exact = S754_finite false m e.
Proof.
  intros Hc He Hj. unfold binary_round_aux.
  rewrite (shr_fexp_exact m e j _ _ Hc Hj eq_refl eq_refl). simpl.
  rewrite (shr_fexp_exact m e 0 (Z.pos m) e Hc ltac:(lia) ltac:(lia) ltac:(lia)). simpl.
  apply Z.leb_le in He. cbv [prec emax] in He. simpl in He. now rewrite He.
Qed.

Lemma bounded_canonical m e :
  bounded prec emax m e = true -> canonical m e /\ e <= emax - prec.
Proof.
  unfold bounded, canonical_mantissa, canonical. intros H.
  apply andb_prop in H as [H1 H2]. split; [apply Z.eqb_eq | apply Z.leb_le]; assumption.
Qed.

Lemma pow_pos b j : 0 < b -> 0 <= j -> 0 < b ^ j.
Proof. intros; apply Z.pow_pos_nonneg; lia. Qed.

Lemma ten_pow j : 0 <= j -> 10 ^ j = 5 ^ j * 2 ^ j.
Proof. intros Hj. change 10 with (5 * 2). now rewrite Z.pow_mul_l. Qed.

(** The quotient exponent of [m × 5^j / 10^j] is at most the canonical
    exponent [-j] of the result, so the division is exact. *)
Lemma div_core_exact m j p :
  canonical m (- j) -> 0 < j -> Z.pos p = Z.pos m * 5 ^ j ->
  exists t, 0 <= t /\
    SFdiv_core_binary prec emax (Z.pos p) 0 (10 ^ j) 0 = (Z.pos m * 2 ^ t, - j - t, loc_Exact).
Proof.
  intros Hc Hj Hp. pose proof (pow_pos 5 j ltac:(lia) ltac:(lia)) as H5.
  pose proof (pow_pos 2 j ltac:(lia) ltac:(lia)) as H2.
  unfold SFdiv_core_binary. cbv zeta.
  remember (Z.min (fexp prec emax (Zdigits2 (Z.pos p) + 0 - (Zdigits2 (10 ^ j) + 0))) (0 - 0)) as e' eqn:He'.
  assert (Hle : e' <= - j).
  { pose proof (Z.le_min_l (fexp prec emax (Zdigits2 (Z.pos p) + 0 - (Zdigits2 (10 ^ j) + 0))) (0 - 0)).
    enough (fexp prec emax (Zdigits2 (Z.pos p) + 0 - (Zdigits2 (10 ^ j) + 0)) <= - j) by lia.
    rewrite <- Hc. apply fexp_mono.
    rewrite Zdigits2_log2, (Zdigits2_log2 (10 ^ j)), ten_pow, Z.log2_mul_pow2, Hp by lia.
    pose proof (Z.log2_mul_above (Z.pos m) (5 ^ j) ltac:(lia) ltac:(lia)).
    pose proof (Zdigits2_log2 (Z.pos m) ltac:(lia)) as Hd. cbn [Zdigits2] in Hd. lia. }
  exists (- j - e'). split; [lia|].
  replace (0 - 0 - e') with (j + (- j - e')) by lia.
  assert (Ht : 0 <= - j - e') by lia.
  remember (- j - e') as t eqn:Et.
  assert (Hdiv : Z.div_eucl (Z.shiftl (Z.pos p) (j + t)) (10 ^ j) = (Z.pos m * 2 ^ t, 0)).
  { replace (Z.shiftl (Z.pos p) (j + t)) with (Z.pos m * 2 ^ t * 10 ^ j)
      by (rewrite Z.shiftl_mul_pow2, Z.pow_add_r, ten_pow, Hp by lia; ring).
    assert (E : forall a b, Z.div_eucl a b = (a / b, a mod b))
      by (intros a b; unfold Z.div, Z.modulo; now destruct (Z.div_eucl a b)).
    rewrite E, Z.div_mul, Z.mod_mul by lia. reflexivity. }
  destruct (j + t) as [|s|s] eqn:Es; try lia. rewrite Hdiv.
  replace (- j - t) with e' by lia.
  unfold new_location, new_location_even, new_location_odd. now destruct (Z.even (10 ^ j)).
Qed.

(** [of_decimal] returns every double [m × 2^e] from its exact decimal
    expansion: the integer [m × 2^e] when [e >= 0], and
    [m × 5^j / 10^j] when [e = -j < 0]. *)
Lemma of_decimal_exact_int m e :
  bounded prec emax m e = true -> 0 <= e -> of_decimal (Z.pos m * 2 ^ e) 0 = S754_finite false m e.
Proof.
  intros Hb He. destruct (bounded_canonical _ _ Hb) as [Hc Hmax].
  pose proof (pow_pos 2 e ltac:(lia) He) as H2.
  unfold of_decimal. destruct (Z.pos m * 2 ^ e) as [|p|p] eqn:Hp; try nia.
  rewrite Z.leb_refl. cbv beta iota. rewrite Z.mul_1_r.
  unfold binary_normalize, binary_round.
  assert (Hf : fexp prec emax (Z.pos (digits2_pos p) + 0) = e).
  { rewrite <- Hc. f_equal. pose proof (Zdigits2_log2 (Z.pos p) ltac:(lia)) as Hd.
    pose proof (Zdigits2_log2 (Z.pos m) ltac:(lia)) as Hm. cbn [Zdigits2] in Hd, Hm.
    rewrite <- Hp, Z.log2_mul_pow2 in Hd by lia. lia. }
  rewrite Hf. unfold shl_align. rewrite Z.sub_0_r.
  pose proof (round_aux_exact m e e Hc Hmax He) as R. rewrite Z.sub_diag in R.
  destruct e as [|pe|pe]; [| |lia]; cbv beta iota; rewrite <- Hp; exact R.
Qed.

Lemma of_decimal_exact_frac m j :
  bounded prec emax m (- j) = true -> 0 < j -> of_decimal (Z.pos m * 5 ^ j) j = S754_finite false m (- j).
Proof.
  intros Hb Hj. destruct (bounded_canonical _ _ Hb) as [Hc Hmax].
  pose proof (pow_pos 5 j ltac:(lia) ltac:(lia)) as H5.
  unfold of_decimal. destruct (Z.pos m * 5 ^ j) as [|p|p] eqn:Hp; try nia.
  replace (j <=? 0) with false by (symmetry; apply Z.leb_gt; lia). cbv beta iota.
  destruct (div_core_exact m j p Hc Hj (eq_sym Hp)) as (t & Ht & ->).
  exact (round_aux_exact m (- j) t Hc Hmax Ht).
Qed.

(** The digits and exponent [shortest] chooses denote the number. *)
Lemma shortest_spec m e :
  bounded prec emax m e = true ->
  0 < fst (shortest (Z.pos m) e (S754_finite false m e))
  /\ of_decimal (fst (shortest (Z.pos m) e (S754_finite false m e)))
                (- snd (shortest (Z.pos m) e (S754_finite false m e))) = S754_finite false m e.
Proof.
  intros Hb. unfold shortest.
  destruct (search _ _ _ _ _ _) as [[s q]|] eqn:E; [exact (search_spec _ _ _ _ _ _ _ _ E)|].
  destruct (Z.leb_spec 0 e) as [He|He]; cbn [fst snd].
  - split; [apply Z.mul_pos_pos; [lia | apply pow_pos; lia]|]. exact (of_decimal_exact_int m e Hb He).
  - split; [apply Z.mul_pos_pos; [lia | apply pow_pos; lia]|].
    pose proof (of_decimal_exact_frac m (- e)) as R. rewrite !Z.opp_involutive in R.
    apply R; [exact Hb | lia].
Qed.

(** ** The leading digit *)

Lemma digit_char_nonzero d : 1 <= d <= 9 -> digit_char d <> "0"%char.
Proof.
  intros Hd E. destruct (digit_char_spec d ltac:(lia)) as [_ Hv]. rewrite E in Hv.
  cbv in Hv. lia.
Qed.

Lemma digits_fuel_head fuel n acc :
  0 < n < 2 ^ Z.of_nat fuel -> exists d l, digits_fuel fuel n acc = d :: l /\ d <> "0"%char.
Proof.
  revert n acc. induction fuel as [|f IH]; intros n acc Hn; [simpl in Hn; lia|]. cbn [digits_fuel].
  rewrite Nat2Z.inj_succ, Z.pow_succ_r in Hn by lia.
  destruct (Z.ltb_spec n 10).
  - exists (digit_char (n mod 10)), acc. split; [reflexivity|].
    apply digit_char_nonzero. rewrite Z.mod_small; lia.
  - apply IH. split; [apply Z.div_str_pos; lia | apply Z.div_lt_upper_bound; lia].
Qed.

(** A positive integer is written without a leading zero. *)
Lemma Z_digits_head s : 0 < s -> exists d l, Z_digits s = d :: l /\ d <> "0"%char.
Proof.
  intros Hs. apply digits_fuel_head. split; [exact Hs|].
  rewrite Nat2Z.inj_succ, Z2Nat.id by (apply Z.log2_nonneg).
  pose proof (Z.log2_spec s Hs) as [_ Hl]. rewrite Z.pow_succ_r in Hl |- * by (apply Z.log2_nonneg). lia.
Qed.
