(* ===== verification/Pattern.v ===== *)
(** * The numeric-field pattern [/^[0-9]+([,.][0-9]+)?$/]

    The five text fields of [HomeScreen] ([age], [weight], [height],
    [HbA1c_level], [blood_glucose_level]; [src/src/app/index.tsx] lines 97,
    179, 198, 217, 236) are validated by react-hook-form with
    [rules.pattern = /^[0-9]+([,.][0-9]+)?$/], i.e. by
    [RegExp.prototype.test].  [Module Regex] gives the syntax of the
    regular-expression constructs the pattern uses, their inductive
    matching relation ([matches]), and an executable matcher by Brzozowski
    derivatives ([accepts]) proved equal to it.  [Module JsRegExp] adds the
    [^]/[$] anchors and the search over start positions of
    [RegExp.prototype.test] (no [g], [y] or [m] flag), the literal
    [numeric_pattern], and a one-pass scanner [numeric_shape] proved to
    accept exactly the strings the pattern accepts. *)

From Stdlib Require Import String Ascii List ZArith Lia Bool.
From S2P Require Import Prelude.
Import ListNotations.

Module Regex.

(** The constructs of the pattern language used by the source, plus the
    empty language [RVoid] and [RStar], which derivatives produce. *)
Inductive regex : Type :=
| RVoid
| REps
| RClass (ranges : list (ascii * ascii))   (* [lo-hi...] *)
| RSeq (r1 r2 : regex)
| RAlt (r1 r2 : regex)
| RStar (r : regex)                         (* r* *)
| RPlus (r : regex)                         (* r+ *)
| ROpt (r : regex)                          (* r? *)
| RGroup (r : regex).                       (* (r), capturing *)

Definition in_range (c : ascii) (rg : ascii * ascii) : bool :=
  (code (fst rg) <=? code c)%N && (code c <=? code (snd rg))%N.

Definition in_class (rs : list (ascii * ascii)) (c : ascii) : bool :=
  existsb (in_range c) rs.

Inductive matches : regex -> list ascii -> Prop :=
| m_eps : matches REps []
| m_class rs c : in_class rs c = true -> matches (RClass rs) [c]
| m_seq r1 r2 w1 w2 : matches r1 w1 -> matches r2 w2 -> matches (RSeq r1 r2) (w1 ++ w2)
| m_alt_l r1 r2 w : matches r1 w -> matches (RAlt r1 r2) w
| m_alt_r r1 r2 w : matches r2 w -> matches (RAlt r1 r2) w
| m_star_nil r : matches (RStar r) []
| m_star_cons r w1 w2 : matches r w1 -> matches (RStar r) w2 -> matches (RStar r) (w1 ++ w2)
| m_plus r w1 w2 : matches r w1 -> matches (RStar r) w2 -> matches (RPlus r) (w1 ++ w2)
| m_opt_none r : matches (ROpt r) []
| m_opt_some r w : matches r w -> matches (ROpt r) w
| m_group r w : matches r w -> matches (RGroup r) w.

#[export] Hint Constructors matches : abp.

Fixpoint nullable (r : regex) : bool :=
  match r with
  | RVoid | RClass _ => false
  | REps | RStar _ | ROpt _ => true
  | RSeq r1 r2 => nullable r1 && nullable r2
  | RAlt r1 r2 => nullable r1 || nullable r2
  | RPlus r | RGroup r => nullable r
  end.

Fixpoint deriv (c : ascii) (r : regex) : regex :=
  match r with
  | RVoid | REps => RVoid
  | RClass rs => if in_class rs c then REps else RVoid
  | RSeq r1 r2 =>
      if nullable r1 then RAlt (RSeq (deriv c r1) r2) (deriv c r2)
      else RSeq (deriv c r1) r2
  | RAlt r1 r2 => RAlt (deriv c r1) (deriv c r2)
  | RStar r1 | RPlus r1 => RSeq (deriv c r1) (RStar r1)
  | ROpt r1 | RGroup r1 => deriv c r1
  end.

(** Whole-word matcher. *)
Fixpoint accepts (r : regex) (w : list ascii) : bool :=
  match w with
  | [] => nullable r
  | c :: w' => accepts (deriv c r) w'
  end.

(** Is some prefix of [w] matched? *)
Fixpoint accepts_prefix (r : regex) (w : list ascii) : bool :=
  nullable r || match w with [] => false | c :: w' => accepts_prefix (deriv c r) w' end.

End Regex.

Module JsRegExp.
Import Regex.

(** A regular-expression literal [/^body$/] without flags: [re_start] and
    [re_end] record the [^] and [$] assertions around the body. *)
Record regexp := mk_regexp { re_start : bool; re_body : regex; re_end : bool }.

(** A match attempt at the current position ([$] holds only at the end of
    the input, no [m] flag). *)
Definition match_here (p : regexp) (w : list ascii) : bool :=
  if re_end p then accepts (re_body p) w else accepts_prefix (re_body p) w.

(** [RegExpBuiltinExec] with [lastIndex = 0]: attempts at positions
    0, 1, ..., length; [^] holds only at position 0. *)
Fixpoint search (p : regexp) (w : list ascii) (at_start : bool) : bool :=
  ((negb (re_start p) || at_start) && match_here p w)
  || match w with [] => false | _ :: w' => search p w' false end.

(** [RegExp.prototype.test]. *)
Definition test (p : regexp) (s : string) : bool := search p ⟦s⟧ true.

(** The literal of [rules.pattern] (lines 97, 179, 198, 217, 236). *)
Definition digit_class : regex := RClass [("0", "9")%char].
Definition separator_class : regex := RClass [(",", ",")%char; (".", ".")%char].

Definition numeric_pattern : regexp :=
  {| re_start := true;
     re_body := RSeq (RPlus digit_class)
                     (ROpt (RGroup (RSeq separator_class (RPlus digit_class))));
     re_end := true |}.

(** ** A one-pass scanner for the same language *)

Definition is_sep (c : ascii) : bool := (c =? ",")%char || (c =? ".")%char.

(** The text of a numeral: integer digits, then optionally a separator and
    fraction digits. *)
Definition numeral_text (d1 : list ascii) (o : option (ascii * list ascii)) : list ascii :=
  d1 ++ match o with None => [] | Some (sep, d2) => sep :: d2 end.

Definition valid_numeral (d1 : list ascii) (o : option (ascii * list ascii)) : Prop :=
  d1 <> [] /\ forallb is_digit d1 = true /\
  match o with
  | None => True
  | Some (sep, d2) => is_sep sep = true /\ d2 <> [] /\ forallb is_digit d2 = true
  end.

Definition numeric_shape (w : list ascii) : option (list ascii * option (ascii * list ascii)) :=
  let '(d1, rest) := span is_digit w in
  match d1, rest with
  | [], _ => None
  | _, [] => Some (d1, None)
  | _, sep :: rest' =>
      if is_sep sep then
        let '(d2, rest'') := span is_digit rest' in
        match d2, rest'' with
        | _ :: _, [] => Some (d1, Some (sep, d2))
        | _, _ => None
        end
      else None
  end.

End JsRegExp.

Import Regex JsRegExp.

(** ** Correctness of the derivative matcher *)

Lemma nullable_sound r : nullable r = true -> matches r [].
Proof.
  induction r; simpl; intros H; bool_to_prop; try discriminate; eauto with abp.
  - change (@nil ascii) with (@nil ascii ++ []). auto with abp.
  - apply orb_true_iff in H as [H|H]; auto with abp.
  - change (@nil ascii) with (@nil ascii ++ []). auto with abp.
Qed.

Lemma nullable_complete r w : matches r w -> w = [] -> nullable r = true.
Proof.
  induction 1; simpl; intros Hw; try discriminate; auto.
  - apply app_eq_nil in Hw as [-> ->]. now rewrite IHmatches1, IHmatches2.
  - now rewrite IHmatches.
  - now rewrite IHmatches, orb_true_r.
  - apply app_eq_nil in Hw as [-> ->]. auto.
Qed.

Lemma deriv_sound c r w : matches (deriv c r) w -> matches r (c :: w).
Proof.
  revert w. induction r; simpl; intros w H.
  - inv H.
  - inv H.
  - destruct (in_class ranges c) eqn:E; inv H. auto with abp.
  - destruct (nullable r1) eqn:N.
    + inv H.
      * inv H3. change (c :: w1 ++ w2) with ((c :: w1) ++ w2). auto with abp.
      * change (c :: w) with ([] ++ c :: w). auto using nullable_sound with abp.
    + inv H. change (c :: w1 ++ w2) with ((c :: w1) ++ w2). auto with abp.
  - inv H; auto with abp.
  - inv H. change (c :: w1 ++ w2) with ((c :: w1) ++ w2). auto with abp.
  - inv H. change (c :: w1 ++ w2) with ((c :: w1) ++ w2). auto with abp.
  - auto with abp.
  - auto with abp.
Qed.

Lemma deriv_complete r u : matches r u -> forall c w, u = c :: w -> matches (deriv c r) w.
Proof.
  induction 1; simpl; intros c' w' Hu; try discriminate.
  - inv Hu. rewrite H. constructor.
  - destruct w1 as [|c1 w1]; simpl in Hu.
    + subst. rewrite (nullable_complete _ _ H eq_refl). auto with abp.
    + inv Hu. destruct (nullable r1); auto with abp.
  - auto with abp.
  - auto with abp.
  - destruct w1 as [|c1 w1]; simpl in Hu; [subst; exact (IHmatches2 c' w' eq_refl)|].
    inv Hu. auto with abp.
  - destruct w1 as [|c1 w1]; simpl in Hu.
    + subst. exact (IHmatches2 c' w' eq_refl).
    + inv Hu. auto with abp.
  - auto.
  - auto.
Qed.

Lemma deriv_correct c r w : matches (deriv c r) w <-> matches r (c :: w).
Proof. split; [apply deriv_sound | intros H; eapply deriv_complete; eauto]. Qed.

Theorem accepts_correct r w : accepts r w = true <-> matches r w.
Proof.
  revert r. induction w as [|c w IH]; intros r; simpl.
  - split; [apply nullable_sound | intros H; eapply nullable_complete; eauto].
  - rewrite IH. apply deriv_correct.
Qed.

Lemma accepts_prefix_correct r w :
  accepts_prefix r w = true <-> exists mid post, w = mid ++ post /\ matches r mid.
Proof.
  revert r. induction w as [|c w IH]; intros r; simpl.
  - rewrite orb_false_r. split.
    + intros H. exists [], []. auto using nullable_sound.
    + intros (mid & post & Hw & Hm). symmetry in Hw. apply app_eq_nil in Hw as [-> ->].
      eapply nullable_complete; eauto.
  - rewrite orb_true_iff, IH. split.
    + intros [H | (mid & post & -> & Hm)].
      * exists [], (c :: w). auto using nullable_sound.
      * exists (c :: mid), post. split; [reflexivity | now apply deriv_correct].
    + intros ([|c' mid] & post & Hw & Hm).
      * left. eapply nullable_complete; eauto.
      * right. inv Hw. exists mid, post. split; [reflexivity | now apply deriv_correct].
Qed.

(** ** Correctness of [test] *)

Lemma match_here_spec p w :
  match_here p w = true <->
  exists mid post, w = mid ++ post /\ (re_end p = true -> post = []) /\ matches (re_body p) mid.
Proof.
  unfold match_here. destruct (re_end p).
  - rewrite accepts_correct. split.
    + intros H. exists w, []. rewrite app_nil_r. auto.
    + intros (mid & post & -> & Hp & Hm). now rewrite (Hp eq_refl), app_nil_r.
  - rewrite accepts_prefix_correct. split.
    + intros (mid & post & ? & ?). exists mid, post. intuition discriminate.
    + intros (mid & post & ? & _ & ?). eauto.
Qed.

Lemma regexp_search_spec p w b :
  search p w b = true <->
  exists pre mid post, w = pre ++ mid ++ post /\
    (re_start p = true -> pre = [] /\ b = true) /\
    (re_end p = true -> post = []) /\ matches (re_body p) mid.
Proof.
  revert b. induction w as [|c w IH]; intros b; simpl search;
    rewrite orb_true_iff, andb_true_iff, orb_true_iff, negb_true_iff, match_here_spec.
  - split.
    + intros [[Hs (mid & post & Hw & He & Hm)] | Hf]; [|discriminate].
      exists [], mid, post. simpl. destruct (re_start p); intuition congruence.
    + intros ([|c pre] & mid & post & Hw & Hs & He & Hm); [|discriminate].
      left. split; [destruct (re_start p), b; intuition congruence | exists mid, post; auto].
  - rewrite IH. split.
    + intros [[Hs (mid & post & Hw & He & Hm)] | (pre & mid & post & Hw & Hs & He & Hm)].
      * exists [], mid, post. destruct (re_start p); intuition congruence.
      * exists (c :: pre), mid, post. subst w. split; [reflexivity|].
        destruct (re_start p); intuition congruence.
    + intros ([|c' pre] & mid & post & Hw & Hs & He & Hm).
      * left. split; [destruct (re_start p), b; intuition congruence | exists mid, post; auto].
      * right. inv Hw. exists pre, mid, post. destruct (re_start p); intuition congruence.
Qed.

(** C19: [test] finds a match of the body between the anchors. *)
Theorem test_spec p s :
  test p s = true <->
  exists pre mid post, ⟦s⟧ = pre ++ mid ++ post /\
    (re_start p = true -> pre = []) /\ (re_end p = true -> post = []) /\
    matches (re_body p) mid.
Proof.
  unfold test. rewrite regexp_search_spec.
  split; intros (pre & mid & post & ? & Hs & ?); exists pre, mid, post; intuition.
Qed.

Lemma test_anchored p s :
  re_start p = true -> re_end p = true -> test p s = accepts (re_body p) ⟦s⟧.
Proof.
  intros Hs He. apply eq_true_iff_eq. unfold test. rewrite regexp_search_spec, accepts_correct. split.
  - intros (pre & mid & post & Hw & Hp & Hq & Hm).
    rewrite Hw, (proj1 (Hp Hs)), (Hq He), app_nil_r. exact Hm.
  - intros Hm. exists [], ⟦s⟧, []. rewrite app_nil_r. auto.
Qed.

(** ** The language of [numeric_pattern] *)

Lemma in_class_digit c : in_class [("0", "9")%char] c = is_digit c.
Proof. unfold in_class, in_range, is_digit. simpl. now rewrite orb_false_r. Qed.

Lemma in_class_sep c : in_class [(",", ",")%char; (".", ".")%char] c = is_sep c.
Proof.
  destruct c as [[] [] [] [] [] [] [] []]; reflexivity.
Qed.

Lemma sep_not_digit c : is_sep c = true -> is_digit c = false.
Proof. unfold is_sep. intros H. bool_to_prop. apply orb_true_iff in H as [H|H]; bool_to_prop; reflexivity. Qed.

Lemma class_single rs w : matches (RClass rs) w -> exists c, w = [c] /\ in_class rs c = true.
Proof. intros H. inv H. eauto. Qed.

Lemma seq_inv r1 r2 w :
  matches (RSeq r1 r2) w -> exists w1 w2, w = w1 ++ w2 /\ matches r1 w1 /\ matches r2 w2.
Proof. intros H. inv H. eauto. Qed.

Lemma opt_group_inv r w : matches (ROpt (RGroup r)) w -> w = [] \/ matches r w.
Proof. intros H. inversion H; subst; [auto|]. match goal with Hg : matches (RGroup _) _ |- _ => inv Hg end. auto. Qed.

Ltac class_char :=
  match goal with
  | H : matches (RClass _) _ |- _ => apply class_single in H as (?c & -> & ?Hc)
  | H : matches digit_class _ |- _ => apply class_single in H as (?c & -> & ?Hc)
  | H : matches separator_class _ |- _ => apply class_single in H as (?c & -> & ?Hc)
  end.

Lemma star_digits_sound r w : matches r w -> r = RStar digit_class -> forallb is_digit w = true.
Proof.
  induction 1; intros Hr; try discriminate; [reflexivity|].
  inv Hr. class_char. simpl. rewrite <- in_class_digit, Hc. auto.
Qed.

Lemma star_digits_complete w : forallb is_digit w = true -> matches (RStar digit_class) w.
Proof.
  induction w as [|c w IH]; simpl; intros H; bool_to_prop; [constructor|].
  change (c :: w) with ([c] ++ w). constructor; auto.
  constructor. now rewrite in_class_digit.
Qed.

Lemma plus_digits w : matches (RPlus digit_class) w <-> w <> [] /\ forallb is_digit w = true.
Proof.
  split.
  - intros H. inv H. class_char. simpl. rewrite <- in_class_digit, Hc.
    split; [discriminate | eauto using star_digits_sound].
  - intros [Hne H]. destruct w as [|c w]; [congruence|]. simpl in H. bool_to_prop.
    change (c :: w) with ([c] ++ w). constructor; auto using star_digits_complete.
    constructor. now rewrite in_class_digit.
Qed.

Lemma numeral_stops d1 o :
  valid_numeral d1 o -> stops is_digit (match o with None => [] | Some (sep, d2) => sep :: d2 end) = true.
Proof.
  destruct o as [[sep d2]|]; simpl; [|reflexivity].
  intros (_ & _ & Hs & _). now rewrite (sep_not_digit _ Hs).
Qed.

(** The scanner recognises exactly the numerals, and returns their parts. *)
Theorem numeric_shape_spec w d1 o :
  numeric_shape w = Some (d1, o) <-> w = numeral_text d1 o /\ valid_numeral d1 o.
Proof.
  split.
  - unfold numeric_shape.
    pose proof (span_app is_digit w) as Hw. pose proof (span_fst_all is_digit w) as Hd.
    destruct (span is_digit w) as [e1 rest]; simpl in *.
    destruct e1 as [|c1 e1]; [discriminate|]. destruct rest as [|sep rest].
    + intros H. inv H. unfold numeral_text, valid_numeral. rewrite app_nil_r.
      repeat split; auto; discriminate.
    + destruct (is_sep sep) eqn:Hs; [|discriminate].
      pose proof (span_app is_digit rest) as Hr. pose proof (span_fst_all is_digit rest) as Hd2.
      destruct (span is_digit rest) as [[|c2 e2] [|x r]]; simpl in *; try discriminate.
      intros H. inv H. unfold numeral_text, valid_numeral. rewrite app_nil_r.
      repeat split; auto; discriminate.
  - intros [-> Hv]. pose proof (numeral_stops _ _ Hv) as Hst.
    destruct Hv as (Hne & Hd & Ho). unfold numeric_shape, numeral_text.
    rewrite (span_of_app _ _ _ Hd Hst).
    destruct d1 as [|c1 d1]; [congruence|].
    destruct o as [[sep d2]|]; [|reflexivity].
    destruct Ho as (Hs & Hne2 & Hd2). rewrite Hs.
    rewrite <- (app_nil_r d2), (span_of_app is_digit d2 [] Hd2 eq_refl).
    destruct d2; [congruence | now rewrite app_nil_r].
Qed.

Lemma numeric_body_spec w :
  matches (re_body numeric_pattern) w <-> exists d1 o, w = numeral_text d1 o /\ valid_numeral d1 o.
Proof.
  simpl. split.
  - intros H. apply seq_inv in H as (w1 & w2 & -> & H1 & H2). apply plus_digits in H1 as [Hne Hd]. exists w1.
    apply opt_group_inv in H2 as [-> | H2].
    + exists None. unfold numeral_text, valid_numeral. rewrite app_nil_r. auto.
    + apply seq_inv in H2 as (w3 & w4 & -> & H3 & H4). class_char.
      apply plus_digits in H4 as [Hne2 Hd2].
      exists (Some (c, w4)). unfold numeral_text, valid_numeral.
      rewrite <- in_class_sep. repeat split; auto.
  - intros (d1 & o & -> & Hne & Hd & Ho). unfold numeral_text.
    constructor; [now apply plus_digits|].
    destruct o as [[sep d2]|]; [|constructor].
    destruct Ho as (Hs & Hne2 & Hd2). do 2 constructor.
    change (sep :: d2) with ([sep] ++ d2). constructor; [|now apply plus_digits].
    constructor. now rewrite in_class_sep.
Qed.

(** The pattern's [test] and the scanner agree on every string: the
    validation of a numeric field is the one-pass check [numeric_shape]. *)
Theorem numeric_pattern_test s :
  test numeric_pattern s = is_some (numeric_shape ⟦s⟧).
Proof.
  rewrite test_anchored by reflexivity. apply eq_true_iff_eq.
  rewrite accepts_correct, numeric_body_spec.
  destruct (numeric_shape ⟦s⟧) as [[d1 o]|] eqn:E; simpl.
  - split; [reflexivity|]. intros _. exists d1, o. now apply numeric_shape_spec.
  - split; [|discriminate]. intros (d1 & o & Hv). apply numeric_shape_spec in Hv. congruence.
Qed.

(** C18: The strings the numeric rule accepts are exactly the numerals: one or
    more ASCII digits, optionally followed by [,] or [.] and one or more
    digits. *)
Theorem numeric_pattern_language s :
  test numeric_pattern s = true <->
  exists d1 o, ⟦s⟧ = numeral_text d1 o /\ valid_numeral d1 o.
Proof. rewrite test_anchored, accepts_correct by reflexivity. apply numeric_body_spec. Qed.

Lemma numeral_chars d1 o :
  valid_numeral d1 o -> forallb (fun c => is_digit c || is_sep c) (numeral_text d1 o) = true.
Proof.
  intros (_ & Hd & Ho). unfold numeral_text. rewrite forallb_app.
  assert (Hsub : forall l, forallb is_digit l = true -> forallb (fun c => is_digit c || is_sep c) l = true).
  { induction l as [|x l IH]; simpl; [reflexivity|]. intros H.
    apply andb_true_iff in H as [H1 H2]. now rewrite H1, IH. }
  rewrite Hsub by exact Hd. destruct o as [[sep d2]|]; [|reflexivity].
  destruct Ho as (Hs & _ & Hd2). simpl. rewrite Hs, orb_true_r, Hsub; auto.
Qed.


