(* ===== verification/JsParse.v ===== *)
(** * [parseFloat] and [parseInt]

    [onSubmit] ([src/src/app/index.tsx], lines 24-36) converts the form's
    strings with the global functions [parseFloat] (weight, height, age,
    HbA1c_level) and [parseInt] with no radix (hypertension, heart_disease,
    blood_glucose_level).  This file models both after the ECMAScript
    algorithms (ECMA-262 §19.2.4 and §19.2.5):

    - leading white space and line terminators are skipped (characters are
      Latin-1 code units; TAB, LF, VT, FF, CR, SPACE and NO-BREAK SPACE);
    - [parseFloat] reads the longest prefix that is a [StrDecimalLiteral]
      (sign, [Infinity], digits, [.] and digits, exponent) and rounds its
      exact value to the nearest double; no prefix gives [NaN];
    - [parseInt] reads a sign, an optional [0x]/[0X] prefix (radix 16,
      otherwise 10) and the longest run of digits of the radix; no digit
      gives [NaN]; a zero value keeps the sign ([-0]).

    The exact value is rounded correctly in every case; ECMA-262 lets an
    engine approximate literals of more than 20 significant digits, which
    the fields of the screen never need. *)

From Stdlib Require Import String Ascii List ZArith Lia Bool SpecFloat.
From S2P Require Import Prelude JsNumber Pattern.
Import JsRegExp.
Import ListNotations.
Import Number.

Local Open Scope Z_scope.

Module NumberParsing.

(** White space and line terminators of [TrimString], in Latin-1. *)
Definition is_str_whitespace (c : ascii) : bool :=
  match N_of_ascii c with
  | 9 | 10 | 11 | 12 | 13 | 32 | 160 => true
  | _ => false
  end%N.

Definition trim_start (w : list ascii) : list ascii := snd (span is_str_whitespace w).

Fixpoint starts_with (p w : list ascii) : bool :=
  match p, w with
  | [], _ => true
  | c :: p', d :: w' => Ascii.eqb c d && starts_with p' w'
  | _ :: _, [] => false
  end.

(** The value of an optional [ExponentPart] at the head of [w]: [0] when
    [w] does not start with [e]/[E] followed by a [SignedInteger]. *)
Definition exponent_value (w : list ascii) : Z :=
  match w with
  | e :: r =>
      if (e =? "e")%char || (e =? "E")%char then
        let '(negative, r') :=
          match r with
          | "-"%char :: r' => (true, r')
          | "+"%char :: r' => (false, r')
          | _ => (false, r)
          end in
        match fst (span is_digit r') with
        | [] => 0
        | ds => if negative then - decimal_value ds else decimal_value ds
        end
      else 0
  | [] => 0
  end.

(** The longest prefix of [w] that is a [StrUnsignedDecimalLiteral], as a
    number; [None] when no prefix is one. *)
Definition parse_unsigned_decimal (w : list ascii) : option number :=
  if starts_with ⟦"Infinity"⟧ w then Some PosInfinity
  else
    let '(d1, r1) := span is_digit w in
    let '(d2, r2) :=
      match r1 with
      | c :: r => if (c =? ".")%char then span is_digit r else ([], r1)
      | [] => ([], [])
      end in
    match d1, d2 with
    | [], [] => None
    | _, _ => Some (of_decimal (decimal_value (d1 ++ d2))
                               (Z.of_nat (length d2) - exponent_value r2))
    end.

(** [parseFloat(string)]. *)
Definition parseFloat (s : string) : number :=
  let w := trim_start ⟦s⟧ in
  let '(negative, body) :=
    match w with
    | c :: r =>
        if (c =? "-")%char then (true, r) else if (c =? "+")%char then (false, r) else (false, w)
    | [] => (false, [])
    end in
  match parse_unsigned_decimal body with
  | Some n => if negative then neg n else n
  | None => NaN
  end.

Definition is_hex_digit (c : ascii) : bool :=
  is_digit c || (("a" <=? c)%char && (c <=? "f")%char) || (("A" <=? c)%char && (c <=? "F")%char).

Definition hex_digit_value (c : ascii) : Z :=
  if is_digit c then digit_value c
  else if (("a" <=? c)%char && (c <=? "f")%char) then Z.of_N (code c) - 87
  else Z.of_N (code c) - 55.

Definition hex_value (ds : list ascii) : Z :=
  fold_left (fun acc c => acc * 16 + hex_digit_value c) ds 0.

(** [parseInt(string)] with the radix argument omitted. *)
Definition parseInt (s : string) : number :=
  let w := trim_start ⟦s⟧ in
  let '(negative, w1) :=
    match w with
    | c :: r =>
        if (c =? "-")%char then (true, r) else if (c =? "+")%char then (false, r) else (false, w)
    | [] => (false, [])
    end in
  let '(hex, w2) :=
    match w1 with
    | c :: x :: r =>
        if (c =? "0")%char && ((x =? "x")%char || (x =? "X")%char) then (true, r) else (false, w1)
    | _ => (false, w1)
    end in
  let ds := fst (span (if hex then is_hex_digit else is_digit) w2) in
  match ds with
  | [] => NaN
  | _ =>
      let v := if hex then hex_value ds else decimal_value ds in
      if v =? 0 then S754_zero negative
      else of_integer (if negative then - v else v)
  end.

(** The number [parseFloat] reads from a numeral that passed the pattern:
    with a [.] separator the fraction digits count; with a [,] the longest
    [StrDecimalLiteral] prefix stops before the comma. *)
Definition numeral_float (d1 : list ascii) (o : option (ascii * list ascii)) : number :=
  match o with
  | Some (sep, d2) =>
      if (sep =? ".")%char then of_decimal (decimal_value (d1 ++ d2)) (Z.of_nat (length d2))
      else of_decimal (decimal_value d1) 0
  | None => of_decimal (decimal_value d1) 0
  end.

(** ** Lemmas on the scanners *)

Lemma whitespace_not_digit c : is_digit c = true -> is_str_whitespace c = false.
Proof. intros H. destruct c as [[] [] [] [] [] [] [] []]; try reflexivity; discriminate H. Qed.

Lemma trim_start_digit c w : is_digit c = true -> trim_start (c :: w) = c :: w.
Proof. intros H. unfold trim_start. simpl. now rewrite (whitespace_not_digit c H). Qed.

Lemma starts_with_infinity_digit c w : is_digit c = true -> starts_with ⟦"Infinity"⟧ (c :: w) = false.
Proof. intros H. cbn [starts_with list_ascii_of_string]. now rewrite Ascii.eqb_sym, (digit_eqb_nondigit c "I" H eq_refl). Qed.

Lemma is_sep_cases c : is_sep c = true -> c = ","%char \/ c = "."%char.
Proof. unfold is_sep. intros H. apply orb_true_iff in H as [H|H]; bool_to_prop; auto. Qed.

Lemma numeral_head d1 o :
  valid_numeral d1 o -> exists c w, numeral_text d1 o = c :: w /\ is_digit c = true.
Proof.
  intros (Hne & Hd & _). destruct d1 as [|c d1]; [congruence|].
  simpl in Hd. bool_to_prop. eexists c, _. split; [reflexivity | assumption].
Qed.

Lemma parse_unsigned_numeral d1 o :
  valid_numeral d1 o -> parse_unsigned_decimal (numeral_text d1 o) = Some (numeral_float d1 o).
Proof.
  intros Hv. pose proof (numeral_stops _ _ Hv) as Hst.
  destruct (numeral_head _ _ Hv) as (c & w & Hw & Hc).
  destruct Hv as (Hne & Hd & Ho). unfold parse_unsigned_decimal.
  rewrite Hw, starts_with_infinity_digit by exact Hc. rewrite <- Hw.
  unfold numeral_text. rewrite (span_of_app _ _ _ Hd Hst).
  destruct d1 as [|c1 d1]; [congruence|].
  destruct o as [[sep d2]|]; simpl numeral_float.
  - destruct Ho as (Hs & Hne2 & Hd2). apply is_sep_cases in Hs as [-> | ->]; simpl.
    + rewrite app_nil_r. reflexivity.
    + rewrite <- (app_nil_r d2), (span_of_app is_digit d2 [] Hd2 eq_refl), !app_nil_r.
      simpl. now rewrite Z.sub_0_r.
  - rewrite app_nil_r. reflexivity.
Qed.

(** ** [parseFloat] and [parseInt] on validated strings *)

(** A string accepted by the numeric pattern is read by [parseFloat] as
    [numeral_float]: the exact decimal, rounded, when the separator is a
    dot; its integer part when the separator is a comma. *)
Theorem parseFloat_numeral s d1 o :
  numeric_shape ⟦s⟧ = Some (d1, o) -> parseFloat s = numeral_float d1 o.
Proof.
  intros H. apply numeric_shape_spec in H as [Hs Hv].
  destruct (numeral_head _ _ Hv) as (c & w & Hw & Hc).
  unfold parseFloat. rewrite Hs, Hw, trim_start_digit by exact Hc.
  rewrite (digit_eqb_nondigit c "-" Hc eq_refl), (digit_eqb_nondigit c "+" Hc eq_refl).
  rewrite <- Hw, parse_unsigned_numeral by exact Hv. reflexivity.
Qed.

Lemma numeral_char_not_x x : (is_digit x || is_sep x) = true -> (x =? "x")%char || (x =? "X")%char = false.
Proof. intros H. destruct x as [[] [] [] [] [] [] [] []]; try reflexivity; discriminate H. Qed.

(** [parseInt] reads the integer digits of a validated string, whichever
    separator follows them. *)
Theorem parseInt_numeral s d1 o :
  numeric_shape ⟦s⟧ = Some (d1, o) -> parseInt s = of_decimal (decimal_value d1) 0.
Proof.
  intros H. apply numeric_shape_spec in H as [Hs Hv].
  pose proof (numeral_chars _ _ Hv) as Hch. pose proof (numeral_stops _ _ Hv) as Hst.
  destruct (numeral_head _ _ Hv) as (c & w & Hw & Hc).
  unfold parseInt. rewrite Hs, Hw, trim_start_digit by exact Hc.
  rewrite (digit_eqb_nondigit c "-" Hc eq_refl), (digit_eqb_nondigit c "+" Hc eq_refl).
  assert (Hw2 : match c :: w with
                | c0 :: x :: r => if (c0 =? "0")%char && ((x =? "x")%char || (x =? "X")%char)
                                  then (true, r) else (false, c :: w)
                | _ => (false, c :: w) end = (false, c :: w)).
  { destruct w as [|x r]; [reflexivity|]. rewrite Hw in Hch. simpl in Hch. bool_to_prop.
    now rewrite (numeral_char_not_x x H0), andb_false_r. }
  rewrite Hw2, <- Hw. destruct Hv as (Hne & Hd & Ho). unfold numeral_text.
  rewrite (span_of_app _ _ _ Hd Hst). simpl fst.
  destruct d1 as [|c1 d1]; [congruence|].
  pose proof (decimal_value_nonneg _ Hd) as Hpos.
  destruct (decimal_value (c1 :: d1)) as [|p|p] eqn:E; [reflexivity| |lia].
  unfold of_decimal, of_integer. simpl. now rewrite Pos.mul_1_r.
Qed.

(** Every numeric field that passed validation is read as a number of
    sign [+] (never NaN, never negative). *)
Corollary parseFloat_numeral_nonneg s d1 o :
  numeric_shape ⟦s⟧ = Some (d1, o) -> has_sign false (parseFloat s) = true.
Proof.
  intros H. pose proof H as H'. apply numeric_shape_spec in H' as [_ (_ & Hd & Ho)].
  rewrite (parseFloat_numeral s d1 o H). unfold numeral_float.
  destruct o as [[sep d2]|]; [destruct (sep =? ".")%char|]; apply of_decimal_has_sign;
    apply decimal_value_nonneg; try rewrite forallb_app; try destruct Ho as (_ & _ & ->);
    rewrite ?Hd; reflexivity.
Qed.

(** ** Every number read is a canonical double *)

Lemma parse_unsigned_valid w n : parse_unsigned_decimal w = Some n -> is_valid n = true.
Proof.
  unfold parse_unsigned_decimal. destruct (starts_with _ w); [intros [= <-]; reflexivity|].
  pose proof (span_fst_all is_digit w) as Hd1.
  destruct (span is_digit w) as [d1 r1]. cbn [fst] in Hd1.
  assert (Hv : forall d2, forallb is_digit d2 = true ->
             is_valid (of_decimal (decimal_value (d1 ++ d2)) (Z.of_nat (length d2) - exponent_value [])) = true
             /\ forall e, is_valid (of_decimal (decimal_value (d1 ++ d2)) e) = true).
  { intros d2 Hd2. split; [|intros e]; apply of_decimal_valid, decimal_value_nonneg;
      rewrite forallb_app, Hd1; exact Hd2. }
  destruct r1 as [|c r].
  - intros H. destruct d1; cbv beta iota in H; [discriminate|]. injection H as <-. apply (Hv [] eq_refl).
  - destruct (c =? ".")%char.
    + pose proof (span_fst_all is_digit r) as Hd2. destruct (span is_digit r) as [d2 r2]. cbn [fst] in Hd2.
      intros H. destruct d1, d2; cbv beta iota in H; try discriminate; injection H as <-; apply (Hv _ Hd2).
    + intros H. destruct d1; cbv beta iota in H; [discriminate|]. injection H as <-. apply (Hv [] eq_refl).
Qed.

(** [parseFloat] returns a canonical double (or NaN), whatever its input. *)
Lemma parseFloat_valid s : is_valid (parseFloat s) = true.
Proof.
  unfold parseFloat.
  match goal with |- is_valid (match ?M with pair _ _ => _ end) = true => destruct M as [negative body] end.
  destruct (parse_unsigned_decimal body) as [n|] eqn:E; [|reflexivity].
  destruct negative; [rewrite neg_valid|]; exact (parse_unsigned_valid _ _ E).
Qed.

(** [parseInt] returns a canonical double (or NaN), whatever its input. *)
Lemma parseInt_valid s : is_valid (parseInt s) = true.
Proof.
  unfold parseInt.
  match goal with |- is_valid (match ?M with pair _ _ => _ end) = true => destruct M as [negative w1] end.
  match goal with |- is_valid (match ?M with pair _ _ => _ end) = true => destruct M as [hex w2] end.
  destruct (fst (span _ w2)); [reflexivity|]. cbv zeta.
  destruct (_ =? 0); [reflexivity | apply of_integer_valid].
Qed.

End NumberParsing.
