(* ===== verification/NumberRoundtrip.v ===== *)
(** * Printing a number and reading it back

    [Number::toString] ([NumberFormat.v]) writes the numbers that
    [JSON.stringify] sends at line 44 of [src/src/app/index.tsx].
    [parseFloat] ([JsParse.v]) reads a number back from text.  This file
    proves that [parseFloat] reads back exactly the double that
    [Number::toString] wrote.  The one exception is [-0], which is written
    as ["0"].

    The proof has two halves:
    - [NumberFormat.shortest_spec]: the digits and exponent that the printer
      chooses denote the number;
    - one lemma per layout of ECMA-262 steps 6-10: [parseFloat] reads the
      laid-out text as those digits and that exponent. *)

From Stdlib Require Import String Ascii List ZArith Lia Bool SpecFloat.
From S2P Require Import Prelude JsNumber NumberFormat JsParse.
Import ListNotations Number NumberFormat NumberParsing.

Local Open Scope Z_scope.

(** ** Digits and zeros *)

Lemma decimal_value_zero_cons l : decimal_value ("0"%char :: l) = decimal_value l.
Proof. reflexivity. Qed.

Lemma zeros_digits z : forallb is_digit (zeros z) = true.
Proof. unfold zeros. induction (Z.to_nat z) as [|n IH]; [reflexivity | exact IH]. Qed.

Lemma zeros_value z : decimal_value (zeros z) = 0.
Proof. unfold zeros. induction (Z.to_nat z) as [|n IH]; [reflexivity | exact IH]. Qed.

Lemma zeros_length z : 0 <= z -> Z.of_nat (length (zeros z)) = z.
Proof. intros Hz. unfold zeros. rewrite repeat_length. lia. Qed.

Lemma forallb_firstn_skipn {A} (p : A -> bool) n l :
  forallb p l = true -> forallb p (firstn n l) = true /\ forallb p (skipn n l) = true.
Proof. rewrite <- (firstn_skipn n l) at 1. rewrite forallb_app. apply andb_prop. Qed.

Lemma of_decimal_shift s q :
  0 < s -> 0 <= q -> of_decimal (s * 10 ^ q) 0 = of_decimal s (- q).
Proof.
  intros Hs Hq. pose proof (pow_pos 10 q ltac:(lia) Hq). unfold of_decimal.
  destruct s as [|p|p]; try lia. destruct (Z.pos p * 10 ^ q) as [|p'|p'] eqn:E; try nia.
  rewrite Z.leb_refl. replace (- q <=? 0) with true by (symmetry; apply Z.leb_le; lia).
  cbv beta iota. change (10 ^ (- 0)) with 1. now rewrite Z.opp_involutive, Z.mul_1_r, <- E.
Qed.

(** ** The scanner of [parseFloat] on the printed layouts *)

Lemma parse_unsigned_int d1 r :
  d1 <> [] -> forallb is_digit d1 = true -> stops is_digit r = true ->
  (forall r', r <> "."%char :: r') ->
  parse_unsigned_decimal (d1 ++ r) = Some (of_decimal (decimal_value d1) (- exponent_value r)).
Proof.
  intros Hne Hd Hst Hdot. unfold parse_unsigned_decimal.
  destruct d1 as [|c d1]; [congruence|]. pose proof Hd as Hd'. simpl in Hd'.
  apply andb_prop in Hd' as [Hc _].
  cbn [app]. rewrite starts_with_infinity_digit by exact Hc.
  rewrite app_comm_cons, span_of_app by (exact Hd || exact Hst).
  destruct r as [|c' r]; [now rewrite app_nil_r|].
  destruct (c' =? ".")%char eqn:E.
  - apply Ascii.eqb_eq in E. subst c'. now destruct (Hdot r).
  - now rewrite app_nil_r.
Qed.

Lemma parse_unsigned_frac d1 d2 r :
  d1 <> [] -> forallb is_digit d1 = true -> forallb is_digit d2 = true -> stops is_digit r = true ->
  parse_unsigned_decimal (d1 ++ "."%char :: d2 ++ r)
  = Some (of_decimal (decimal_value (d1 ++ d2)) (Z.of_nat (length d2) - exponent_value r)).
Proof.
  intros Hne Hd Hd2 Hst. unfold parse_unsigned_decimal.
  destruct d1 as [|c d1]; [congruence|]. pose proof Hd as Hd'. simpl in Hd'.
  apply andb_prop in Hd' as [Hc _].
  cbn [app]. rewrite starts_with_infinity_digit by exact Hc.
  rewrite app_comm_cons, span_of_app by (exact Hd || reflexivity).
  cbn [Ascii.eqb Bool.eqb]. rewrite span_of_app by assumption. reflexivity.
Qed.

(** The exponent suffix [e±n] of step 10 reads back as [n]. *)
Lemma exponent_value_printed z : z <> 0 ->
  exponent_value ("e"%char :: (if z <? 0 then "-"%char else "+"%char) :: Z_digits (Z.abs z)) = z.
Proof.
  intros Hz. destruct (Z_digits_spec (Z.abs z) ltac:(lia)) as (Hne & Hd & Hv).
  unfold exponent_value. rewrite Ascii.eqb_refl. cbn [orb].
  rewrite <- (app_nil_r (Z_digits (Z.abs z))).
  destruct (Z.ltb_spec z 0); cbv iota; rewrite span_of_app by (exact Hd || reflexivity);
    cbn [fst]; destruct (Z_digits (Z.abs z)) as [|c l]; try congruence; lia.
Qed.

(** ** The four layouts of steps 6-10 read back *)

Section Layouts.

(** The digit string [ds] of the printed significand [s]. *)
Variables (ds : list ascii) (s : Z).
Hypotheses (Hne : ds <> []) (Hd : forallb is_digit ds = true) (Hv : decimal_value ds = s) (Hs : 0 < s).

(** Step 6: [ds] followed by [z] zeros. *)
Lemma layout_integer z : 0 <= z ->
  parse_unsigned_decimal (ds ++ zeros z) = Some (of_decimal s (- z)).
Proof.
  intros Hz. rewrite <- (app_nil_r (ds ++ zeros z)).
  rewrite parse_unsigned_int; [| destruct ds; simpl; congruence
    | rewrite forallb_app, Hd, zeros_digits; reflexivity | reflexivity | discriminate].
  cbn [exponent_value]. rewrite decimal_value_app, zeros_value, zeros_length, Z.add_0_r, Hv by exact Hz.
  now rewrite of_decimal_shift.
Qed.

(** Step 7: the first [n] digits, a point, the others. *)
Lemma layout_point n : 0 < n < Z.of_nat (length ds) ->
  parse_unsigned_decimal (firstn (Z.to_nat n) ds ++ "."%char :: skipn (Z.to_nat n) ds)
  = Some (of_decimal s (Z.of_nat (length ds) - n)).
Proof.
  intros Hn. destruct (forallb_firstn_skipn _ (Z.to_nat n) _ Hd) as [Hf Hk].
  rewrite <- (app_nil_r (skipn _ ds)), parse_unsigned_frac; try assumption; try reflexivity.
  - rewrite firstn_skipn, Hv, length_skipn. cbn [exponent_value]. f_equal. f_equal. lia.
  - intros E. apply (f_equal (@length ascii)) in E. rewrite length_firstn in E. simpl in E. lia.
Qed.

(** Step 8: [0.], [-n] zeros, the digits. *)
Lemma layout_small n : n <= 0 ->
  parse_unsigned_decimal ("0"%char :: "."%char :: zeros (- n) ++ ds)
  = Some (of_decimal s (Z.of_nat (length ds) - n)).
Proof.
  intros Hn. rewrite <- (app_nil_r (zeros (- n) ++ ds)).
  change ("0"%char :: "."%char :: ?l) with (["0"%char] ++ "."%char :: l).
  rewrite parse_unsigned_frac by (try rewrite forallb_app, zeros_digits; try discriminate; easy).
  cbn [exponent_value app]. rewrite decimal_value_zero_cons, decimal_value_app, zeros_value, Hv.
  rewrite length_app, Nat2Z.inj_add, zeros_length by lia. f_equal. f_equal; lia.
Qed.

(** Steps 9-10: the first digit, a point and the others if any, [e], the
    sign and the digits of [n - 1]. *)
Lemma layout_exponent n : n - 1 <> 0 ->
  parse_unsigned_decimal
    (match ds with
     | [d] => [d; "e"%char] ++ (if n - 1 <? 0 then "-"%char else "+"%char) :: Z_digits (Z.abs (n - 1))
     | d :: rest => d :: "."%char :: rest ++ "e"%char
                      :: (if n - 1 <? 0 then "-"%char else "+"%char) :: Z_digits (Z.abs (n - 1))
     | [] => []
     end)
  = Some (of_decimal s (Z.of_nat (length ds) - n)).
Proof.
  intros Hn. destruct ds as [|d [|d' rest]]; [congruence| |].
  - change ([d; "e"%char] ++ ?r) with ([d] ++ "e"%char :: r).
    rewrite parse_unsigned_int by (easy || discriminate). rewrite exponent_value_printed, Hv by exact Hn.
    f_equal. f_equal. cbn [length]. lia.
  - change (d :: "."%char :: (d' :: rest) ++ ?r) with ([d] ++ "."%char :: (d' :: rest) ++ r).
    simpl in Hd. apply andb_prop in Hd as [Hd1 Hd2].
    rewrite parse_unsigned_frac by (simpl; try rewrite Hd1; easy).
    cbn [app]. rewrite exponent_value_printed, Hv by exact Hn. f_equal. f_equal. cbn [length]. lia.
Qed.

End Layouts.

(** ** The whole printer *)

(** Whatever branch of steps 6-10 applies, the text reads back as
    [s × 10^q]. *)
Lemma format_parse s q : 0 < s ->
  parse_unsigned_decimal
    (format (Z_digits s) (Z.of_nat (length (Z_digits s))) (q + Z.of_nat (length (Z_digits s))))
  = Some (of_decimal s (- q)).
Proof.
  intros Hs. destruct (Z_digits_spec s Hs) as (Hne & Hd & Hv).
  set (ds := Z_digits s) in *. set (k := Z.of_nat (length ds)). set (n := q + k).
  assert (Hk : 1 <= k) by (subst k; destruct ds; [congruence | simpl length; lia]).
  unfold format.
  destruct (Z.leb_spec k n), (Z.leb_spec n 21), (Z.ltb_spec 0 n), (Z.ltb_spec (-6) n), (Z.leb_spec n 0);
    cbn [andb];
    first [ rewrite (layout_integer ds s Hne Hd Hv Hs) by lia
          | rewrite (layout_point ds s Hd Hv) by lia
          | rewrite (layout_small ds s Hd Hv) by lia
          | rewrite (layout_exponent ds s Hne Hd Hv) by lia
          | lia ];
    f_equal; f_equal; lia.
Qed.

Ltac head_digit := eexists _, _; split; [reflexivity | assumption || reflexivity].

Lemma format_head ds k n : ds <> [] -> forallb is_digit ds = true ->
  exists c w, format ds k n = c :: w /\ is_digit c = true.
Proof.
  intros Hne Hd. destruct ds as [|d rest]; [congruence|]. simpl in Hd. apply andb_prop in Hd as [Hd _].
  unfold format.
  destruct ((k <=? n) && (n <=? 21)); [head_digit|].
  destruct ((0 <? n) && (n <=? 21)) eqn:B.
  - apply andb_prop in B as [B _]. apply Z.ltb_lt in B.
    destruct (Z.to_nat n) eqn:E; [lia | head_digit].
  - destruct ((-6 <? n) && (n <=? 0)); [head_digit|]. destruct rest; head_digit.
Qed.

Lemma to_string_pos_parse m e : bounded prec emax m e = true ->
  exists c w, to_string_pos m e (S754_finite false m e) = c :: w /\ is_digit c = true /\
    parse_unsigned_decimal (c :: w) = Some (S754_finite false m e).
Proof.
  intros Hb. destruct (shortest_spec m e Hb) as [Hs Hx]. unfold to_string_pos.
  destruct (shortest (Z.pos m) e (S754_finite false m e)) as [s q]. cbn [fst snd] in Hs, Hx.
  destruct (Z_digits_spec s Hs) as (Hne & Hd & _).
  destruct (format_head (Z_digits s) (Z.of_nat (length (Z_digits s)))
              (q + Z.of_nat (length (Z_digits s))) Hne Hd) as (c & w & Hw & Hc).
  exists c, w. split; [exact Hw | split; [exact Hc|]].
  rewrite <- Hw, format_parse, Hx by exact Hs. reflexivity.
Qed.

Lemma parseFloat_digit_text c w : is_digit c = true ->
  parseFloat (string_of_list_ascii (c :: w))
  = match parse_unsigned_decimal (c :: w) with Some n => n | None => NaN end.
Proof.
  intros Hc. unfold parseFloat. rewrite list_ascii_of_string_of_list_ascii, trim_start_digit by exact Hc.
  now rewrite (digit_eqb_nondigit c "-" Hc eq_refl), (digit_eqb_nondigit c "+" Hc eq_refl).
Qed.

Lemma parseFloat_minus_text w :
  parseFloat (String "-" (string_of_list_ascii w))
  = match parse_unsigned_decimal w with Some n => neg n | None => NaN end.
Proof.
  unfold parseFloat. change (list_ascii_of_string (String "-" ?t)) with ("-"%char :: list_ascii_of_string t).
  rewrite list_ascii_of_string_of_list_ascii. reflexivity.
Qed.

(** [parseFloat] reads back exactly the double that [Number::toString]
    wrote, for every double except [-0], which is written as ["0"]. *)
Theorem parseFloat_toString x :
  valid_binary prec emax x = true -> x <> S754_zero true -> parseFloat (Number_toString x) = x.
Proof.
  intros Hv Hz. destruct x as [[]|[]| |[] m e]; [congruence|reflexivity|reflexivity|reflexivity|reflexivity| |].
  - destruct (to_string_pos_parse m e Hv) as (c & w & Hw & Hc & Hp).
    cbn [Number_toString]. rewrite Hw, parseFloat_minus_text, Hp. reflexivity.
  - destruct (to_string_pos_parse m e Hv) as (c & w & Hw & Hc & Hp).
    cbn [Number_toString]. rewrite Hw, parseFloat_digit_text, Hp by exact Hc. reflexivity.
Qed.
