(* ===== verification/Json.v ===== *)
(** * JSON text: [JSON.stringify] and [JSON.parse]

    [onSubmit] sends [JSON.stringify(requestData)] (line 44 of
    [src/src/app/index.tsx]) and reads the answer with [response.json()]
    (line 48), which is [JSON.parse] of the response body.  This file
    models both on Latin-1 code units ([list ascii]), after ECMA-262 §25.5:

    - [stringify] is SerializeJSONProperty without indentation.  A finite
      number is written with [Number::toString] ([NumberFormat.v]) and any
      other number as [null].  Strings are written by [quote_json_string]
      (QuoteJSONString: a backslash and [b], [t], [n], [f] or [r] for
      those control characters, a backslash before a double quote or a
      backslash, and [\u00xx] for the other control characters).  Object members are
      written in their order.
    - [parse] is [JSON.parse] without a reviver.  It skips white space,
      reads the literals, strings with their escapes (a [\u] escape beyond
      [ÿ] has no Latin-1 code unit and is refused), numbers by the
      JSON grammar, arrays and objects.  It fails ([None], a
      [SyntaxError]) on anything else.  The value of a number lexeme is
      the one [parseFloat] reads from it: both round the exact decimal
      value.  Object members are kept in their order, duplicates included.
      A property read takes the last one, as [JSON.parse] overwrites a
      duplicated key.

    The parser runs on fuel: one unit per call.  [JSON_parse] gives twice
    the length of the text plus one, which [JsonFuel.v] proves is never
    exhausted. *)

From Stdlib Require Import String Ascii List ZArith Lia Bool SpecFloat.
From S2P Require Import Prelude JsNumber NumberFormat JsParse NumberRoundtrip.
Import ListNotations Number NumberFormat NumberParsing.

Local Open Scope Z_scope.

Module Json.

#[warnings="-register-all"]
Inductive json : Type :=
| JNull
| JBool (b : bool)
| JNumber (n : number)
| JString (s : string)
| JArray (items : list json)
| JObject (members : list (string * json)).

(** SerializeJSONProperty on a number: finite numbers are written, the
    others become [null]. *)
Definition serialize_number (n : number) : json :=
  if is_finite n then JNumber n else JNull.

(** ** [JSON.stringify] *)

Definition dquote : ascii := "034".
Definition backslash : ascii := "\".

Definition hex_digit (n : N) : ascii :=
  if (n <? 10)%N then ascii_of_N (48 + n) else ascii_of_N (87 + n).

(** One code unit of QuoteJSONString. *)
Definition quote_char (c : ascii) : list ascii :=
  match N_of_ascii c with
  | 8%N => [backslash; "b"%char]
  | 9%N => [backslash; "t"%char]
  | 10%N => [backslash; "n"%char]
  | 12%N => [backslash; "f"%char]
  | 13%N => [backslash; "r"%char]
  | 34%N => [backslash; dquote]
  | 92%N => [backslash; backslash]
  | n => if (n <? 32)%N
         then [backslash; "u"%char; "0"%char; "0"%char; hex_digit (n / 16); hex_digit (n mod 16)]
         else [c]
  end.

Definition quote_json_string (s : list ascii) : list ascii :=
  dquote :: flat_map quote_char s ++ [dquote].

Fixpoint join_comma (l : list (list ascii)) : list ascii :=
  match l with
  | [] => []
  | [x] => x
  | x :: r => x ++ ","%char :: join_comma r
  end.

Fixpoint stringify (j : json) : list ascii :=
  match j with
  | JNull => ⟦"null"⟧
  | JBool true => ⟦"true"⟧
  | JBool false => ⟦"false"⟧
  | JNumber n => if is_finite n then ⟦Number_toString n⟧ else ⟦"null"⟧
  | JString s => quote_json_string ⟦s⟧
  | JArray items => "["%char :: join_comma (map stringify items) ++ ["]"%char]
  | JObject ms =>
      "{"%char :: join_comma (map (fun kv => quote_json_string ⟦fst kv⟧ ++ ":"%char :: stringify (snd kv)) ms)
      ++ ["}"%char]
  end.

(** [JSON.stringify(v)] as a string. *)
Definition JSON_stringify (j : json) : string := string_of_list_ascii (stringify j).

(** ** [JSON.parse] *)

Definition is_json_ws (c : ascii) : bool :=
  match N_of_ascii c with 9%N | 10%N | 13%N | 32%N => true | _ => false end.

Definition skip_ws (w : list ascii) : list ascii := snd (span is_json_ws w).

Definition hex_value_of (c : ascii) : option N :=
  if is_digit c then Some (N_of_ascii c - 48)%N
  else if (("a" <=? c)%char && (c <=? "f")%char) then Some (N_of_ascii c - 87)%N
  else if (("A" <=? c)%char && (c <=? "F")%char) then Some (N_of_ascii c - 55)%N
  else None.

(** The code unit of [\uXXXX], when it is a Latin-1 one. *)
Definition unicode_escape (h1 h2 h3 h4 : ascii) : option ascii :=
  match hex_value_of h1, hex_value_of h2, hex_value_of h3, hex_value_of h4 with
  | Some a, Some b, Some c, Some d =>
      let n := (((a * 16 + b) * 16 + c) * 16 + d)%N in
      if (n <? 256)%N then Some (ascii_of_N n) else None
  | _, _, _, _ => None
  end.

Definition short_escape (e : ascii) : option ascii :=
  if (e =? dquote)%char then Some dquote
  else if (e =? backslash)%char then Some backslash
  else if (e =? "/")%char then Some "/"%char
  else if (e =? "b")%char then Some (ascii_of_N 8)
  else if (e =? "f")%char then Some (ascii_of_N 12)
  else if (e =? "n")%char then Some (ascii_of_N 10)
  else if (e =? "r")%char then Some (ascii_of_N 13)
  else if (e =? "t")%char then Some (ascii_of_N 9)
  else None.

(** The characters of a string literal up to its closing quote, and what
    follows it. *)
Fixpoint parse_chars (w : list ascii) : option (list ascii * list ascii) :=
  match w with
  | [] => None
  | c :: r =>
      if (c =? dquote)%char then Some ([], r)
      else if (c =? backslash)%char then
        match r with
        | e :: r' =>
            match short_escape e with
            | Some c' => option_map (fun '(s, rest) => (c' :: s, rest)) (parse_chars r')
            | None =>
                if (e =? "u")%char then
                  match r' with
                  | h1 :: h2 :: h3 :: h4 :: r'' =>
                      match unicode_escape h1 h2 h3 h4 with
                      | Some c' => option_map (fun '(s, rest) => (c' :: s, rest)) (parse_chars r'')
                      | None => None
                      end
                  | _ => None
                  end
                else None
            end
        | [] => None
        end
      else if (N_of_ascii c <? 32)%N then None
      else option_map (fun '(s, rest) => (c :: s, rest)) (parse_chars r)
  end.

Definition is_number_char (c : ascii) : bool :=
  is_digit c || (c =? "-")%char || (c =? "+")%char || (c =? ".")%char || (c =? "e")%char || (c =? "E")%char.

Definition int_ok (int : list ascii) : bool :=
  match int with
  | [] => false
  | [_] => true
  | c :: _ => negb (c =? "0")%char
  end.

Definition digits_ok (w : list ascii) : bool :=
  match w with [] => false | _ => forallb is_digit w end.

Definition exp_ok (w : list ascii) : bool :=
  match w with
  | [] => true
  | c :: r =>
      ((c =? "e")%char || (c =? "E")%char) &&
      digits_ok (match r with
                 | s :: r' => if (s =? "+")%char || (s =? "-")%char then r' else r
                 | [] => []
                 end)
  end.

(** After the integer part: an optional fraction [. [0-9]+] and exponent. *)
Definition frac_exp_ok (w : list ascii) : bool :=
  match w with
  | c :: r => if (c =? ".")%char then let '(fr, w3) := span is_digit r in digits_ok fr && exp_ok w3
              else exp_ok w
  | [] => true
  end.

(** The JSON number grammar [-? (0 | [1-9][0-9]* ) (. [0-9]+)? ([eE] [+-]? [0-9]+)?]. *)
Definition json_number_ok (lex : list ascii) : bool :=
  let w1 := match lex with c :: r => if (c =? "-")%char then r else lex | [] => [] end in
  let '(int, w2) := span is_digit w1 in
  int_ok int && frac_exp_ok w2.

(** A number: the longest run of characters that can occur in one, which
    must be a JSON number (a valid JSON text never has such a character
    right after a number). *)
Definition parse_number (w : list ascii) : option (json * list ascii) :=
  let '(lex, r) := span is_number_char w in
  if json_number_ok lex then Some (JNumber (parseFloat (string_of_list_ascii lex)), r) else None.

(** The three readers run on fuel.  [exhausted] is what a reader answers
    when its fuel has run out; [JSON_parse] takes [None], and [JsonFuel.v]
    shows that with its fuel no reader ever gets there. *)
Section Readers.
Variable exhausted : option (json * list ascii).

Fixpoint parse_value (fuel : nat) (w : list ascii) : option (json * list ascii) :=
  match fuel with
  | O => exhausted
  | S f =>
      match skip_ws w with
      | [] => None
      | c :: r =>
          if (c =? "n")%char then (if starts_with ⟦"ull"⟧ r then Some (JNull, skipn 3 r) else None)
          else if (c =? "t")%char then (if starts_with ⟦"rue"⟧ r then Some (JBool true, skipn 3 r) else None)
          else if (c =? "f")%char then (if starts_with ⟦"alse"⟧ r then Some (JBool false, skipn 4 r) else None)
          else if (c =? dquote)%char then
            option_map (fun '(s, rest) => (JString (string_of_list_ascii s), rest)) (parse_chars r)
          else if (c =? "[")%char then
            match skip_ws r with
            | c' :: r' => if (c' =? "]")%char then Some (JArray [], r') else parse_elements f (skip_ws r) []
            | [] => None
            end
          else if (c =? "{")%char then
            match skip_ws r with
            | c' :: r' => if (c' =? "}")%char then Some (JObject [], r') else parse_members f (skip_ws r) []
            | [] => None
            end
          else if (c =? "-")%char || is_digit c then parse_number (c :: r)
          else None
      end
  end
(** The elements of an array after [[]: values separated by [,] up to [ ]]. *)
with parse_elements (fuel : nat) (w : list ascii) (acc : list json) : option (json * list ascii) :=
  match fuel with
  | O => exhausted
  | S f =>
      match parse_value f w with
      | None => None
      | Some (v, r) =>
          match skip_ws r with
          | c :: r' =>
              if (c =? ",")%char then parse_elements f r' (acc ++ [v])
              else if (c =? "]")%char then Some (JArray (acc ++ [v]), r')
              else None
          | [] => None
          end
      end
  end
(** The members of an object after [{]: [key : value] separated by [,] up
    to [}]. *)
with parse_members (fuel : nat) (w : list ascii) (acc : list (string * json)) : option (json * list ascii) :=
  match fuel with
  | O => exhausted
  | S f =>
      match w with
      | c :: r =>
          if (c =? dquote)%char then
            match parse_chars r with
            | Some (k, r1) =>
                match skip_ws r1 with
                | c1 :: r2 =>
                    if (c1 =? ":")%char then
                      match parse_value f r2 with
                      | Some (v, r3) =>
                          match skip_ws r3 with
                          | c3 :: r4 =>
                              if (c3 =? ",")%char then
                                parse_members f (skip_ws r4) (acc ++ [(string_of_list_ascii k, v)])
                              else if (c3 =? "}")%char then
                                Some (JObject (acc ++ [(string_of_list_ascii k, v)]), r4)
                              else None
                          | [] => None
                          end
                      | None => None
                      end
                    else None
                | [] => None
                end
            | None => None
            end
          else None
      | [] => None
      end
  end.

End Readers.

(** [JSON.parse(text)]: one value, surrounded by white space only. *)
Definition JSON_parse (text : string) : option json :=
  let w := ⟦text⟧ in
  match parse_value None (S (2 * length w)) w with
  | Some (j, r) => if forallb is_json_ws r then Some j else None
  | None => None
  end.

(** ** What the round trip needs *)

(** A run of number characters that is a JSON number. *)
Definition number_text (w : list ascii) : bool := forallb is_number_char w && json_number_ok w.

Definition neg_zero (n : number) : bool :=
  match n with S754_zero true => true | _ => false end.

(** The values [JSON.parse] gives back from [JSON.stringify]: every number
    a double in canonical form, finite and not [-0]. *)
Fixpoint json_wf (j : json) : bool :=
  match j with
  | JNumber n => valid_binary prec emax n && is_finite n && negb (neg_zero n)
  | JArray items => forallb json_wf items
  | JObject ms => forallb (fun kv => json_wf (snd kv)) ms
  | _ => true
  end.

(** An upper bound of the fuel [parse_value] uses on a value. *)
Fixpoint json_size (j : json) : nat :=
  match j with
  | JArray items => S (list_sum (map (fun i => S (json_size i)) items))
  | JObject ms => S (list_sum (map (fun kv => S (json_size (snd kv))) ms))
  | _ => 1
  end.

End Json.

Import Json.

(** [parse_value] reads [j] back from its text followed by [rest]. *)
Definition parses_back (j : json) : Prop :=
  forall fuel rest, json_wf j = true -> (json_size j <= fuel)%nat -> stops is_number_char rest = true ->
  parse_value None fuel (stringify j ++ rest) = Some (j, rest).

(** The text of one object member. *)
Definition member_text (kv : string * json) : list ascii :=
  quote_json_string ⟦fst kv⟧ ++ ":"%char :: stringify (snd kv).

(** Induction on JSON values, through the lists of elements and members. *)
Section JsonInduction.
Variable P : json -> Prop.
Hypotheses (HNull : P JNull) (HBool : forall b, P (JBool b)) (HNum : forall n, P (JNumber n))
  (HStr : forall s, P (JString s)) (HArr : forall items, Forall P items -> P (JArray items))
  (HObj : forall ms, Forall (fun kv => P (snd kv)) ms -> P (JObject ms)).

Fixpoint json_ind' (j : json) : P j :=
  match j with
  | JNull => HNull
  | JBool b => HBool b
  | JNumber n => HNum n
  | JString s => HStr s
  | JArray items =>
      HArr items ((fix go (l : list json) : Forall P l :=
                     match l with [] => Forall_nil P | x :: r => Forall_cons x (json_ind' x) (go r) end) items)
  | JObject ms =>
      HObj ms ((fix go (l : list (string * json)) : Forall (fun kv => P (snd kv)) l :=
                  match l with [] => Forall_nil _ | x :: r => Forall_cons x (json_ind' (snd x)) (go r) end) ms)
  end.
End JsonInduction.

(** ** The number grammar on the printed numbers *)

Lemma digit_number_char c : is_digit c = true -> is_number_char c = true.
Proof. unfold is_number_char. intros ->. reflexivity. Qed.

Lemma digits_number_chars l : forallb is_digit l = true -> forallb is_number_char l = true.
Proof. induction l as [|c l IH]; simpl; [reflexivity|]. rewrite !andb_true_iff. intuition auto using digit_number_char. Qed.

Lemma int_ok_head d l : d <> "0"%char -> int_ok (d :: l) = true.
Proof.
  intros Hd. destruct l; [reflexivity|]. cbn [int_ok].
  destruct (Ascii.eqb_spec d "0"); [contradiction | reflexivity].
Qed.

Lemma json_number_ok_app int r :
  int <> [] -> forallb is_digit int = true -> stops is_digit r = true ->
  json_number_ok (int ++ r) = int_ok int && frac_exp_ok r.
Proof.
  intros Hne Hd Hst. destruct int as [|c int]; [congruence|]. pose proof Hd as Hd'.
  simpl in Hd'. apply andb_prop in Hd' as [Hc _]. unfold json_number_ok. cbn [app].
  rewrite (digit_eqb_nondigit c "-" Hc eq_refl), app_comm_cons, span_of_app by assumption.
  reflexivity.
Qed.

Lemma frac_exp_ok_frac fr r :
  fr <> [] -> forallb is_digit fr = true -> stops is_digit r = true ->
  frac_exp_ok ("."%char :: fr ++ r) = exp_ok r.
Proof.
  intros Hne Hd Hst. cbn [frac_exp_ok Ascii.eqb Bool.eqb]. rewrite span_of_app by assumption.
  destruct fr; [congruence|]. cbn [digits_ok]. now rewrite Hd.
Qed.

Lemma exp_ok_printed z : z <> 0 ->
  exp_ok ("e"%char :: (if z <? 0 then "-"%char else "+"%char) :: Z_digits (Z.abs z)) = true.
Proof.
  intros Hz. destruct (Z_digits_spec (Z.abs z) ltac:(lia)) as (Hne & Hd & _).
  destruct (z <? 0); cbn [exp_ok Ascii.eqb Bool.eqb orb andb];
    (destruct (Z_digits (Z.abs z)); [congruence | exact Hd]).
Qed.

Section NumberLayouts.

(** The digits [d :: l] of the printed significand. *)
Variables (d : ascii) (l : list ascii).
Hypotheses (Hd0 : d <> "0"%char) (Hdig : forallb is_digit (d :: l) = true).

Lemma text_integer z : number_text ((d :: l) ++ zeros z) = true.
Proof.
  unfold number_text. rewrite forallb_app, (digits_number_chars _ Hdig), (digits_number_chars _ (zeros_digits z)).
  rewrite <- (app_nil_r ((d :: l) ++ zeros z)), json_number_ok_app; try easy.
  - cbn [app]. now rewrite int_ok_head.
  - rewrite forallb_app, Hdig. apply zeros_digits.
Qed.

Lemma text_point n : 0 < n < Z.of_nat (length (d :: l)) ->
  number_text (firstn (Z.to_nat n) (d :: l) ++ "."%char :: skipn (Z.to_nat n) (d :: l)) = true.
Proof.
  intros Hn. destruct (forallb_firstn_skipn _ (Z.to_nat n) _ Hdig) as [Hf Hk].
  assert (Hsk : skipn (Z.to_nat n) (d :: l) <> []).
  { intros E. apply (f_equal (@length ascii)) in E. rewrite length_skipn in E. cbn [length] in E, Hn. lia. }
  assert (Hm : exists m, Z.to_nat n = S m) by (exists (Nat.pred (Z.to_nat n)); lia).
  destruct Hm as [m Hm]. rewrite Hm in *. cbn [firstn] in *.
  unfold number_text. rewrite forallb_app, (digits_number_chars _ Hf). cbn [forallb]. rewrite (digits_number_chars _ Hk).
  rewrite json_number_ok_app by easy.
  rewrite <- (app_nil_r (skipn _ _)), frac_exp_ok_frac by (easy || reflexivity).
  now rewrite int_ok_head.
Qed.

Lemma text_small n : number_text ("0"%char :: "."%char :: zeros (- n) ++ d :: l) = true.
Proof.
  unfold number_text. cbn [forallb]. rewrite forallb_app, (digits_number_chars _ Hdig), (digits_number_chars _ (zeros_digits _)).
  change ("0"%char :: "."%char :: ?w) with (["0"%char] ++ "."%char :: w).
  rewrite json_number_ok_app by easy. rewrite <- (app_nil_r (zeros (- n) ++ d :: l)), frac_exp_ok_frac.
  - reflexivity.
  - destruct (zeros (- n)); discriminate.
  - rewrite forallb_app, zeros_digits. exact Hdig.
  - reflexivity.
Qed.

Lemma text_exponent n : n - 1 <> 0 ->
  number_text
    (match d :: l with
     | [d] => [d; "e"%char] ++ (if n - 1 <? 0 then "-"%char else "+"%char) :: Z_digits (Z.abs (n - 1))
     | d :: rest => d :: "."%char :: rest ++ "e"%char
                      :: (if n - 1 <? 0 then "-"%char else "+"%char) :: Z_digits (Z.abs (n - 1))
     | [] => []
     end) = true.
Proof.
  intros Hn. destruct (Z_digits_spec (Z.abs (n - 1)) ltac:(lia)) as (_ & He & _).
  pose proof Hdig as Hdig'. simpl in Hdig'. apply andb_prop in Hdig' as [Hdd Hl].
  unfold number_text. destruct l as [|d' rest].
  - change ([d; "e"%char] ++ ?r) with ([d] ++ "e"%char :: r).
    rewrite json_number_ok_app by easy. cbn [frac_exp_ok Ascii.eqb Bool.eqb]. rewrite exp_ok_printed by easy.
    cbn [forallb app]. rewrite (digit_number_char _ Hdd), (digits_number_chars _ He). now destruct (n - 1 <? 0).
  - change (d :: "."%char :: (d' :: rest) ++ ?r) with ([d] ++ "."%char :: (d' :: rest) ++ r).
    assert (Hd1 : forallb is_digit [d] = true) by (cbn; now rewrite Hdd).
    rewrite json_number_ok_app, frac_exp_ok_frac, exp_ok_printed by easy.
    cbn [forallb app]. rewrite forallb_app. cbn [forallb]. simpl in Hl. apply andb_prop in Hl as [Hd' Hr].
    rewrite (digit_number_char _ Hdd), (digit_number_char _ Hd'), (digits_number_chars _ Hr), (digits_number_chars _ He).
    now destruct (n - 1 <? 0).
Qed.

End NumberLayouts.

Lemma format_number_text s q : 0 < s ->
  number_text (format (Z_digits s) (Z.of_nat (length (Z_digits s))) (q + Z.of_nat (length (Z_digits s)))) = true.
Proof.
  intros Hs. destruct (Z_digits_spec s Hs) as (_ & Hdig & _).
  destruct (Z_digits_head s Hs) as (d & l & Hds & Hd0). rewrite Hds in *.
  set (k := Z.of_nat (length (d :: l))). set (n := q + k). unfold format.
  destruct (Z.leb_spec k n), (Z.leb_spec n 21), (Z.ltb_spec 0 n), (Z.ltb_spec (-6) n), (Z.leb_spec n 0);
    cbn [andb];
    first [ apply text_integer; assumption
          | apply text_point; (assumption || lia)
          | apply text_small; assumption
          | apply text_exponent; (assumption || lia)
          | lia ].
Qed.

Lemma to_string_pos_text m e : bounded prec emax m e = true ->
  number_text (to_string_pos m e (S754_finite false m e)) = true /\
  exists c w, to_string_pos m e (S754_finite false m e) = c :: w /\ is_digit c = true.
Proof.
  intros Hb. destruct (shortest_spec m e Hb) as [Hs _]. unfold to_string_pos.
  destruct (shortest (Z.pos m) e (S754_finite false m e)) as [s q]. cbn [fst] in Hs.
  destruct (Z_digits_spec s Hs) as (Hne & Hd & _).
  split; [apply format_number_text; exact Hs | apply format_head; assumption].
Qed.

Lemma json_number_ok_minus c w : is_digit c = true ->
  json_number_ok ("-"%char :: c :: w) = json_number_ok (c :: w).
Proof.
  intros Hc. unfold json_number_ok. cbn [Ascii.eqb Bool.eqb].
  now rewrite (digit_eqb_nondigit c "-" Hc eq_refl).
Qed.

(** The text [Number::toString] writes for a finite number is a JSON
    number, and it starts with a digit or a minus sign. *)
Lemma toString_finite_text x : valid_binary prec emax x = true -> is_finite x = true ->
  number_text ⟦Number_toString x⟧ = true /\
  exists c w, ⟦Number_toString x⟧ = c :: w /\ ((c =? "-")%char || is_digit c) = true.
Proof.
  intros Hv Hf. destruct x as [b|b| |[] m e]; try discriminate.
  - split; [reflexivity|]. eexists _, _. split; reflexivity.
  - destruct (to_string_pos_text m e Hv) as [Ht (c & w & Hw & Hc)].
    cbn [Number_toString list_ascii_of_string]. rewrite list_ascii_of_string_of_list_ascii, Hw.
    split; [|eexists _, _; split; reflexivity].
    rewrite Hw in Ht. unfold number_text in *. cbn [forallb]. rewrite json_number_ok_minus by exact Hc.
    exact Ht.
  - destruct (to_string_pos_text m e Hv) as [Ht (c & w & Hw & Hc)].
    cbn [Number_toString]. rewrite list_ascii_of_string_of_list_ascii.
    split; [exact Ht|]. exists c, w. split; [exact Hw|]. now rewrite Hc, orb_true_r.
Qed.

Lemma parse_number_toString x rest :
  valid_binary prec emax x = true -> is_finite x = true -> x <> S754_zero true ->
  stops is_number_char rest = true -> parse_number (⟦Number_toString x⟧ ++ rest) = Some (JNumber x, rest).
Proof.
  intros Hv Hf Hz Hst. destruct (toString_finite_text x Hv Hf) as [Ht _].
  unfold number_text in Ht. apply andb_prop in Ht as [Hc Hj].
  unfold parse_number. rewrite span_of_app by assumption.
  rewrite Hj, string_of_list_ascii_of_string, parseFloat_toString by assumption. reflexivity.
Qed.

(** ** Strings *)

(** [parse_chars] reads back what QuoteJSONString wrote, one code unit at
    a time (all 256 code units checked). *)
Lemma quote_char_parse c w :
  parse_chars (quote_char c ++ w) = option_map (fun '(s, rest) => (c :: s, rest)) (parse_chars w).
Proof. destruct c as [[] [] [] [] [] [] [] []]; reflexivity. Qed.

Lemma quote_parse s rest : parse_chars (flat_map quote_char s ++ dquote :: rest) = Some (s, rest).
Proof.
  induction s as [|c s IH]; [reflexivity|].
  cbn [flat_map]. rewrite <- app_assoc, quote_char_parse, IH. reflexivity.
Qed.

(** ** Reading back a printed value *)

Lemma skip_ws_stop c w : is_json_ws c = false -> skip_ws (c :: w) = c :: w.
Proof. intros H. unfold skip_ws. cbn [span]. now rewrite H. Qed.

Lemma number_head_char c : ((c =? "-")%char || is_digit c) = true ->
  is_json_ws c = false /\ (c =? "]")%char = false /\ (c =? "}")%char = false.
Proof. intros H. destruct c as [[] [] [] [] [] [] [] []]; first [discriminate H | repeat split]. Qed.

Lemma parse_value_number f c w : ((c =? "-")%char || is_digit c) = true ->
  parse_value None (S f) (c :: w) = parse_number (c :: w).
Proof.
  intros H. destruct (number_head_char c H) as [Hws _].
  apply orb_true_iff in H as [H|H]; [apply Ascii.eqb_eq in H; subst; reflexivity|].
  cbn [parse_value]. rewrite skip_ws_stop by exact Hws.
  rewrite (digit_eqb_nondigit c "n" H eq_refl), (digit_eqb_nondigit c "t" H eq_refl),
    (digit_eqb_nondigit c "f" H eq_refl), (digit_eqb_nondigit c dquote H eq_refl),
    (digit_eqb_nondigit c "[" H eq_refl), (digit_eqb_nondigit c "{" H eq_refl), H, orb_true_r.
  reflexivity.
Qed.

Lemma stringify_head j : json_wf j = true ->
  exists c w, stringify j = c :: w /\ is_json_ws c = false /\ (c =? "]")%char = false /\ (c =? "}")%char = false.
Proof.
  intros Hwf. destruct j as [|[]|n|s|items|ms]; try (eexists _, _; split; [reflexivity | repeat split]).
  cbn [json_wf] in Hwf. apply andb_prop in Hwf as [Hwf _]. apply andb_prop in Hwf as [Hv Hf].
  destruct (toString_finite_text n Hv Hf) as [_ (c & w & Hw & Hc)].
  exists c, w. cbn [stringify]. rewrite Hf. split; [exact Hw | exact (number_head_char c Hc)].
Qed.

Lemma join_comma_cons x l :
  join_comma (x :: l) = x ++ match l with [] => [] | _ => ","%char :: join_comma l end.
Proof. destruct l; [now rewrite app_nil_r | reflexivity]. Qed.

Lemma skip_ws_join x l tail :
  (exists c w, x = c :: w /\ is_json_ws c = false) ->
  skip_ws (join_comma (x :: l) ++ tail) = join_comma (x :: l) ++ tail.
Proof.
  intros (c & w & -> & Hc). rewrite join_comma_cons. cbn [app]. now apply skip_ws_stop.
Qed.

Lemma parse_elements_step f w acc :
  parse_elements None (S f) w acc =
  match parse_value None f w with
  | None => None
  | Some (v, r) =>
      match skip_ws r with
      | c :: r' => if (c =? ",")%char then parse_elements None f r' (acc ++ [v])
                   else if (c =? "]")%char then Some (JArray (acc ++ [v]), r') else None
      | [] => None
      end
  end.
Proof. reflexivity. Qed.

Lemma parse_members_step f k v tail acc :
  parse_members None (S f) (member_text (k, v) ++ tail) acc =
  match parse_value None f (stringify v ++ tail) with
  | Some (v', r3) =>
      match skip_ws r3 with
      | c3 :: r4 =>
          if (c3 =? ",")%char then parse_members None f (skip_ws r4) (acc ++ [(string_of_list_ascii ⟦k⟧, v')])
          else if (c3 =? "}")%char then Some (JObject (acc ++ [(string_of_list_ascii ⟦k⟧, v')]), r4)
          else None
      | [] => None
      end
  | None => None
  end.
Proof.
  unfold member_text, quote_json_string. cbn [fst snd app]. rewrite <- !app_assoc. cbn [app].
  cbn [parse_members Ascii.eqb Bool.eqb dquote]. rewrite quote_parse.
  rewrite skip_ws_stop by reflexivity. reflexivity.
Qed.

Lemma json_size_pos j : (1 <= json_size j)%nat.
Proof. destruct j; cbn [json_size]; lia. Qed.

Lemma parse_elements_join items : forall acc fuel rest,
  Forall parses_back items -> items <> [] -> forallb json_wf items = true ->
  (list_sum (map (fun i => S (json_size i)) items) <= fuel)%nat ->
  parse_elements None fuel (join_comma (map stringify items) ++ "]"%char :: rest) acc = Some (JArray (acc ++ items), rest).
Proof.
  induction items as [|a r IH]; [congruence|]. intros acc fuel rest HF _ Hwf Hsz.
  inversion HF as [|? ? Ha Hr]; subst. cbn [forallb] in Hwf. apply andb_prop in Hwf as [Hwa Hwr].
  cbn [map list_sum fold_right] in Hsz. destruct fuel as [|f]; [lia|]. rewrite parse_elements_step.
  cbn [map]. rewrite join_comma_cons. destruct r as [|b r'].
  - rewrite app_nil_r, Ha by (easy || lia). reflexivity.
  - cbn [map]. rewrite <- app_assoc. cbn [app]. rewrite Ha by (easy || lia).
    rewrite skip_ws_stop by reflexivity. cbn [Ascii.eqb Bool.eqb].
    replace (acc ++ a :: b :: r') with ((acc ++ [a]) ++ b :: r') by now rewrite <- app_assoc.
    apply IH; (easy || (cbn [map list_sum fold_right] in *; lia)).
Qed.

Lemma parse_members_join ms : forall acc fuel rest,
  Forall (fun kv => parses_back (snd kv)) ms -> ms <> [] -> forallb (fun kv => json_wf (snd kv)) ms = true ->
  (list_sum (map (fun kv => S (json_size (snd kv))) ms) <= fuel)%nat ->
  parse_members None fuel (join_comma (map member_text ms) ++ "}"%char :: rest) acc = Some (JObject (acc ++ ms), rest).
Proof.
  induction ms as [|[k v] r IH]; [congruence|]. intros acc fuel rest HF _ Hwf Hsz.
  inversion HF as [|? ? Ha Hr]; subst. cbn [forallb snd] in Hwf, Ha. apply andb_prop in Hwf as [Hwa Hwr].
  cbn [map list_sum fold_right snd] in Hsz. destruct fuel as [|f]; [lia|].
  cbn [map]. rewrite join_comma_cons, <- app_assoc, parse_members_step, string_of_list_ascii_of_string.
  destruct r as [|[k' v'] r'].
  - cbn [app]. rewrite Ha by (easy || lia). reflexivity.
  - cbn [map app]. rewrite Ha by (easy || lia).
    rewrite skip_ws_stop by reflexivity. cbn [Ascii.eqb Bool.eqb].
    rewrite skip_ws_join by (exists dquote; eexists; split; reflexivity).
    replace (acc ++ (k, v) :: (k', v') :: r') with ((acc ++ [(k, v)]) ++ (k', v') :: r') by now rewrite <- app_assoc.
    apply IH; (easy || (cbn [map list_sum fold_right snd] in *; lia)).
Qed.


Lemma parse_value_string f w :
  parse_value None (S f) (dquote :: w)
  = option_map (fun '(s, rest) => (JString (string_of_list_ascii s), rest)) (parse_chars w).
Proof. reflexivity. Qed.

Lemma parse_value_array f w :
  parse_value None (S f) ("["%char :: w)
  = match skip_ws w with
    | c' :: r' => if (c' =? "]")%char then Some (JArray [], r') else parse_elements None f (skip_ws w) []
    | [] => None
    end.
Proof. reflexivity. Qed.

Lemma parse_value_object f w :
  parse_value None (S f) ("{"%char :: w)
  = match skip_ws w with
    | c' :: r' => if (c' =? "}")%char then Some (JObject [], r') else parse_members None f (skip_ws w) []
    | [] => None
    end.
Proof. reflexivity. Qed.

(** The first character of a non-empty list of elements or members. *)
Lemma join_head x l tail :
  (exists c w, x = c :: w /\ is_json_ws c = false /\ (c =? "]")%char = false /\ (c =? "}")%char = false) ->
  exists c w', join_comma (x :: l) ++ tail = c :: w' /\
    is_json_ws c = false /\ (c =? "]")%char = false /\ (c =? "}")%char = false.
Proof. intros (c & w & -> & Hc). rewrite join_comma_cons. exists c. eexists. split; [reflexivity | exact Hc]. Qed.

Lemma forallb_Forall_impl {A} (p : A -> bool) (Q : A -> Prop) l :
  Forall (fun a => p a = true -> Q a) l -> forallb p l = true -> Forall Q l.
Proof.
  induction 1 as [|a l Ha _ IH]; cbn [forallb]; [constructor|].
  intros H. apply andb_prop in H as [H1 H2]. constructor; auto.
Qed.

Lemma parse_value_stringify j : parses_back j.
Proof.
  induction j as [|b|n|s|items IH|ms IH] using json_ind'; intros fuel rest Hwf Hsz Hst;
    (destruct fuel as [|f]; [cbn [json_size] in Hsz; lia|]).
  - reflexivity.
  - destruct b; reflexivity.
  - cbn [json_wf] in Hwf. apply andb_prop in Hwf as [Hwf Hz]. apply andb_prop in Hwf as [Hv Hf].
    destruct (toString_finite_text n Hv Hf) as [_ (c & w & Hw & Hc)].
    cbn [stringify]. rewrite Hf, Hw. cbn [app]. rewrite parse_value_number by exact Hc.
    change (c :: w ++ rest) with ((c :: w) ++ rest). rewrite <- Hw.
    apply parse_number_toString; try assumption. intros ->. discriminate.
  - cbn [stringify]. unfold quote_json_string. cbn [app]. rewrite <- app_assoc. cbn [app].
    rewrite parse_value_string, quote_parse. cbn [option_map]. now rewrite string_of_list_ascii_of_string.
  - cbn [stringify app]. rewrite <- app_assoc. cbn [app]. rewrite parse_value_array.
    destruct items as [|a r]; [reflexivity|]. cbn [json_wf forallb] in Hwf.
    pose proof Hwf as Hwf'. apply andb_prop in Hwf' as [Ha _].
    destruct (join_head (stringify a) (map stringify r) ("]"%char :: rest) (stringify_head a Ha))
      as (c & w' & Heq & Hws & Hb & _).
    cbn [map]. rewrite Heq, skip_ws_stop by exact Hws. cbv iota. rewrite Hb. cbv iota. rewrite <- Heq.
    change (stringify a :: map stringify r) with (map stringify (a :: r)).
    apply parse_elements_join; try easy. cbn [json_size] in Hsz. lia.
  - cbn [stringify app]. rewrite <- app_assoc. cbn [app]. rewrite parse_value_object.
    change (map (fun kv => quote_json_string ⟦fst kv⟧ ++ ":"%char :: stringify (snd kv)) ms)
      with (map member_text ms).
    destruct ms as [|[k v] r]; [reflexivity|].
    destruct (join_head (member_text (k, v)) (map member_text r) ("}"%char :: rest)
                (ex_intro _ dquote (ex_intro _ _ (conj eq_refl (conj eq_refl (conj eq_refl eq_refl))))))
      as (c & w' & Heq & Hws & _ & Hb).
    cbn [map]. rewrite Heq, skip_ws_stop by exact Hws. cbv iota. rewrite Hb. cbv iota. rewrite <- Heq.
    change (member_text (k, v) :: map member_text r) with (map member_text ((k, v) :: r)).
    apply parse_members_join; try easy. cbn [json_size] in Hsz. lia.
Qed.

Lemma join_size {A} (f : A -> nat) (g : A -> list ascii) l :
  Forall (fun a => f a <= length (g a))%nat l ->
  (list_sum (map (fun a => S (f a)) l) <= S (length (join_comma (map g l))))%nat.
Proof.
  induction 1 as [|a l Ha _ IH]; [cbn; lia|]. cbn [map list_sum fold_right]. rewrite join_comma_cons.
  destruct l as [|b l]; cbn [map list_sum fold_right] in *; rewrite length_app; cbn [length]; lia.
Qed.

(** The text of a value is at least as long as the fuel it needs. *)
Lemma json_size_le j : json_wf j = true -> (json_size j <= length (stringify j))%nat.
Proof.
  induction j as [|b|n|s|items IH|ms IH] using json_ind'; intros Hwf; cbn [json_size].
  - cbn; lia.
  - destruct b; cbn; lia.
  - destruct (stringify_head (JNumber n) Hwf) as (c & w & -> & _). cbn; lia.
  - cbn [stringify]. unfold quote_json_string. cbn [length]; lia.
  - cbn [stringify length]. rewrite length_app. cbn [length].
    pose proof (join_size json_size stringify items (forallb_Forall_impl _ _ _ IH Hwf)). lia.
  - cbn [stringify length]. rewrite length_app. cbn [length].
    change (map (fun kv => quote_json_string ⟦fst kv⟧ ++ ":"%char :: stringify (snd kv)) ms)
      with (map member_text ms).
    assert (Hm : Forall (fun kv => json_size (snd kv) <= length (member_text kv))%nat ms).
    { eapply Forall_impl; [|exact (forallb_Forall_impl _ _ _ IH Hwf)].
      intros [k v] H. unfold member_text. rewrite length_app. cbn [length snd] in *. lia. }
    pose proof (join_size (fun kv => json_size (snd kv)) member_text ms Hm). lia.
Qed.

Lemma parse_stringify j : json_wf j = true -> JSON_parse (JSON_stringify j) = Some j.
Proof.
  intros Hwf. unfold JSON_parse, JSON_stringify. rewrite list_ascii_of_string_of_list_ascii.
  pose proof (parse_value_stringify j (S (2 * length (stringify j))) [] Hwf) as H.
  rewrite app_nil_r in H. rewrite H by (pose proof (json_size_le j Hwf); (lia || reflexivity)).
  reflexivity.
Qed.

(** C20: [JSON.parse] reads back exactly what [JSON.stringify] wrote, for
    every value whose numbers are finite doubles other than [-0]: the
    strings with all their characters, the numbers bit for bit, arrays and
    objects with their order. *)
Theorem JSON_parse_stringify j : json_wf j = true -> JSON_parse (JSON_stringify j) = Some j.
Proof. exact (parse_stringify j). Qed.

Lemma JSON_parse_stringify_witness :
  json_wf (JObject [("bmi"%string, JNumber (of_decimal 22857142857142858 15));
                    ("items"%string, JArray [JNull; JBool true; JString "ex"%string])]) = true /\
  JSON_parse (JSON_stringify (JObject [("bmi"%string, JNumber (of_decimal 22857142857142858 15));
                                       ("items"%string, JArray [JNull; JBool true; JString "ex"%string])]))
  = Some (JObject [("bmi"%string, JNumber (of_decimal 22857142857142858 15));
                   ("items"%string, JArray [JNull; JBool true; JString "ex"%string])]).
Proof. split; [vm_compute; reflexivity | apply JSON_parse_stringify; vm_compute; reflexivity]. Defined.
