(* ===== verification/JsonFuel.v ===== *)
(** * [JSON.parse] terminates: its fuel never runs out

    [parse_value] ([Json.v]) is written on fuel, since the three readers of
    values, array elements and object members call one another on texts that
    are not structurally smaller.  A reader whose fuel has run out answers
    [exhausted], a parameter of the readers; [JSON_parse] takes [None] and
    gives the reader twice the length of the text plus one.

    This file shows that this fuel is never exhausted, on every text: with
    any fuel above twice the length, and whatever an exhausted reader would
    answer, the reading of the text is the one [JSON_parse] makes
    ([JSON_parse_terminates]).  A parser that ran out of fuel on some text,
    or looped on it, would answer there what the exhausted reader answers.

    - Every successful read consumes at least one character
      ([parse_shorter]).
    - A reader of a value at fuel above twice the length of its text, and a
      reader of elements or members at fuel above twice the length plus
      one, only call readers that meet the same bound
      ([parse_never_exhausted]). *)

From Stdlib Require Import String Ascii List Lia Bool Wf_nat.
From S2P Require Import Prelude JsParse Json.
Import ListNotations Json.

(** [JSON.parse] read with [fuel], an exhausted reader answering
    [exhausted]: one value, then white space only. *)
Definition parse_text (exhausted : option (json * list ascii)) (fuel : nat) (text : string) : option json :=
  match parse_value exhausted fuel ⟦text⟧ with
  | Some (j, r) => if forallb is_json_ws r then Some j else None
  | None => None
  end.

(** Case analysis on every [match] and [if] of a hypothesis [H] that
    states a successful read, keeping the equations. *)
Ltac split_matches H :=
  repeat match type of H with
  | context [match ?x with _ => _ end] => destruct x eqn:?; try discriminate H
  end.

(** ** Lengths of the pieces the readers split a text into *)

Lemma span_snd_le p w : length (snd (span p w)) <= length w.
Proof. rewrite <- (span_app p w) at 2. rewrite length_app. lia. Qed.

Lemma skip_ws_cons w c r : skip_ws w = c :: r -> length r < length w.
Proof. intros E. pose proof (span_snd_le is_json_ws w) as H. unfold skip_ws in E. rewrite E in H. simpl in H. lia. Qed.

Lemma parse_number_shorter w v r : parse_number w = Some (v, r) -> length r < length w.
Proof.
  unfold parse_number. pose proof (span_app is_number_char w) as Hw.
  destruct (span is_number_char w) as [lex rest]. cbn [fst snd] in Hw.
  destruct (json_number_ok lex) eqn:E; [intros [= _ <-] | discriminate].
  destruct lex as [|c lex]; [discriminate|]. rewrite <- Hw. cbn [length app]. rewrite length_app. lia.
Qed.

Lemma parse_chars_shorter w : forall s r, parse_chars w = Some (s, r) -> length r < length w.
Proof.
  induction w as [w IH] using (well_founded_ind (well_founded_ltof _ (@length ascii))).
  intros s r H. destruct w as [|c w]; [discriminate|]. cbn [parse_chars] in H. unfold option_map in H.
  split_matches H; injection H as <- <-;
    repeat match goal with
    | E : parse_chars ?a = Some (_, ?b) |- _ =>
        let L := fresh in assert (L : length b < length a) by (eapply IH; [unfold ltof; cbn [length] in *; lia | exact E]); clear E
    end; cbn [length] in *; lia.
Qed.

Lemma skip_ws_le w : length (skip_ws w) <= length w.
Proof. apply span_snd_le. Qed.

(** The length facts of the equations a case analysis left, for [lia]. *)
Ltac length_facts :=
  repeat match goal with
  | E : skip_ws ?a = _ :: _ |- _ => apply skip_ws_cons in E
  | E : parse_chars ?a = Some (_, _) |- _ => apply parse_chars_shorter in E
  | E : parse_number ?a = Some (_, _) |- _ => apply parse_number_shorter in E
  | _ : context [skip_ws ?a] |- _ =>
      let L := fresh in pose proof (skip_ws_le a) as L; set (sa := skip_ws a) in *; clearbody sa
  | |- context [skip_ws ?a] =>
      let L := fresh in pose proof (skip_ws_le a) as L; set (sa := skip_ws a) in *; clearbody sa
  | |- context [length (match ?l with _ => _ end)] => destruct l; cbn [length] in *
  end; cbn [length] in *.

(** ** Every successful read consumes a character *)

Lemma parse_shorter n :
  (forall w v r, parse_value None n w = Some (v, r) -> length r < length w) /\
  (forall w acc v r, parse_elements None n w acc = Some (v, r) -> length r < length w) /\
  (forall w acc v r, parse_members None n w acc = Some (v, r) -> length r < length w).
Proof.
  induction n as [|n (IHv & IHe & IHm)]; [repeat split; discriminate|].
  repeat split; intros * H; cbn [parse_value parse_elements parse_members] in H; unfold option_map in H;
    split_matches H; try injection H as <- <-;
    repeat match goal with
    | E : parse_value None n _ = Some (_, _) |- _ => apply IHv in E
    | E : parse_elements None n _ _ = Some (_, _) |- _ => apply IHe in E
    | E : parse_members None n _ _ = Some (_, _) |- _ => apply IHm in E
    end; length_facts; lia.
Qed.

(** The length facts of the successful reads at fuel [n], then [lia]. *)
Ltac consumed_lia n :=
  let Sv := fresh in let Se := fresh in let Sm := fresh in
  destruct (parse_shorter n) as (Sv & Se & Sm);
  repeat match goal with
  | E : parse_value None n _ = Some (_, _) |- _ => apply Sv in E
  | E : parse_elements None n _ _ = Some (_, _) |- _ => apply Se in E
  | E : parse_members None n _ _ = Some (_, _) |- _ => apply Sm in E
  end; length_facts; lia.

(** ** No reader runs out of fuel *)

(** After unfolding a reader at fuel [S m] with answer [d] (left) and at
    fuel [S n] with answer [None] (right): rewrite each call of the left
    side, once its text is known, with the induction hypotheses (their fuel
    bound by the consumption facts), and take the branches of the
    scrutinees the two sides share. *)
Ltac align IHv IHe IHm d n m :=
  repeat (match goal with
  | |- context [parse_value d m ?a] => rewrite (IHv d a m) by (split; [consumed_lia n | lia])
  | |- context [parse_elements d m ?a ?c] => rewrite (IHe d a c m) by (split; [consumed_lia n | lia])
  | |- context [parse_members d m ?a ?c] => rewrite (IHm d a c m) by (split; [consumed_lia n | lia])
  | |- context [match ?x with _ => _ end] =>
      lazymatch x with context [m] => fail | _ => destruct x eqn:? end
  end; cbv beta iota).

Lemma parse_never_exhausted n :
  (forall d w m, 2 * length w < n <= m -> parse_value d m w = parse_value None n w) /\
  (forall d w acc m, S (2 * length w) < n <= m -> parse_elements d m w acc = parse_elements None n w acc) /\
  (forall d w acc m, S (2 * length w) < n <= m -> parse_members d m w acc = parse_members None n w acc).
Proof.
  induction n as [|n (IHv & IHe & IHm)]; [repeat split; intros; lia|].
  repeat split; intros d w * Hb; (destruct m as [|m]; [lia|]);
    cbn [parse_value parse_elements parse_members]; unfold option_map;
    align IHv IHe IHm d n m; reflexivity.
Qed.

(** C24.  [JSON.parse] terminates on every text: with any fuel above twice
    the length of the text, and whatever a reader that ran out of fuel
    would answer, reading the text gives what [JSON_parse] gives, so no
    reader ever runs out of fuel. *)
Theorem JSON_parse_terminates text d n :
  2 * length ⟦text⟧ < n -> JSON_parse text = parse_text d n text.
Proof.
  intros Hn. unfold JSON_parse, parse_text.
  rewrite (proj1 (parse_never_exhausted (S (2 * length ⟦text⟧))) d _ n) by lia. reflexivity.
Qed.

Lemma JSON_parse_terminates_witness :
  JSON_parse " [[[1, [true, null, -2.5e3]], {}]] " =
    parse_text (Some (JNull, [])) 100 " [[[1, [true, null, -2.5e3]], {}]] ".
Proof. apply JSON_parse_terminates. vm_compute. lia. Defined.
