(* ===== verification/JsonCodec.v ===== *)
(** * The contract between the screen and the JSON layer

    The screen meets JSON twice.  [onSubmit] writes the request body with
    [JSON.stringify] (line 44 of [src/src/app/index.tsx]).  It reads the
    answer with [response.json()] (line 48), that is [JSON.parse].  What
    the screen's theorems ([Screen.v]) use of JSON is one law: decoding
    the text of an encodable value gives the value back.

    [JsonText] states that contract.  [Screen] is written and proved
    against it.  [ecma_json] is ECMAScript's pair ([Json.v]), and its law
    is the round trip [parse_stringify]. *)

From Stdlib Require Import String.
From S2P Require Import Prelude Json.
Import Json.

Class JsonText := {
  encode : json -> string;
  decode : string -> option json;
  (** The values whose text reads back as themselves. *)
  encodable : json -> bool;
  decode_encode : forall j, encodable j = true -> decode (encode j) = Some j }.

(** [JSON.stringify] and [JSON.parse]: every value whose numbers are
    finite doubles other than [-0] reads back. *)
#[export] Instance ecma_json : JsonText :=
  {| encode := JSON_stringify; decode := JSON_parse; encodable := json_wf;
     decode_encode := parse_stringify |}.
