(* ===== verification/Form.v ===== *)
(** * The form: fields, widgets, rules and validation

    [HomeScreen] ([src/src/app/index.tsx]) registers nine fields with
    react-hook-form: [useForm({ defaultValues })] (lines 7-19) and one
    [Controller] per field (lines 62-238), each with a widget (a [Picker]
    whose [Picker.Item]s fix the values the field can take, or a
    [TextInput]), a [rules] object ([required], and for text fields the
    numeric [pattern]) and an error text shown when [errors.<name>] is set.

    [Module Form] models the field names, the values record, the widget and
    rules table, and react-hook-form's validation of one value
    ([validate_value]: [required] fails on the empty string, [pattern] is
    tested only on a non-empty string) and of the whole form
    ([validate_all], the [errors] object as a [gmap]).  After the module,
    [spec_valid] is the specification's validity of a field (its section
    4.1), which the rules table is proved to implement
    ([validate_refines_spec]). *)

From stdpp Require Import base gmap strings list.
From Stdlib Require Import String Ascii.
From S2P Require Import Prelude Pattern.
Import JsRegExp.

Local Open Scope string_scope.

Module Form.

Inductive FieldName :=
| f_gender | f_age | f_hypertension | f_heart_disease | f_smoking_history
| f_weight | f_height | f_HbA1c_level | f_blood_glucose_level.

#[export] Instance FieldName_eq_dec : EqDecision FieldName.
Proof. solve_decision. Defined.

(** The fields in the order of [defaultValues] and of the screen. *)
Definition all_fields : list FieldName :=
  [f_gender; f_age; f_hypertension; f_heart_disease; f_smoking_history;
   f_weight; f_height; f_HbA1c_level; f_blood_glucose_level].

Definition field_index (f : FieldName) : nat :=
  match f with
  | f_gender => 0 | f_age => 1 | f_hypertension => 2 | f_heart_disease => 3
  | f_smoking_history => 4 | f_weight => 5 | f_height => 6 | f_HbA1c_level => 7
  | f_blood_glucose_level => 8
  end.

#[export] Program Instance FieldName_countable : Countable FieldName :=
  {| encode f := encode (field_index f); decode p := decode p ≫= (all_fields !!.) |}.
Next Obligation. intros []; reflexivity. Qed.

(** The [data] object handed to [onSubmit]: one string per field. *)
Record FormValues := {
  gender : string; age : string; hypertension : string; heart_disease : string;
  smoking_history : string; weight : string; height : string;
  HbA1c_level : string; blood_glucose_level : string }.

Definition defaultValues : FormValues :=
  {| gender := ""; age := ""; hypertension := ""; heart_disease := "";
     smoking_history := ""; weight := ""; height := ""; HbA1c_level := "";
     blood_glucose_level := "" |}.

Definition get_value (v : FormValues) (f : FieldName) : string :=
  match f with
  | f_gender => gender v | f_age => age v | f_hypertension => hypertension v
  | f_heart_disease => heart_disease v | f_smoking_history => smoking_history v
  | f_weight => weight v | f_height => height v | f_HbA1c_level => HbA1c_level v
  | f_blood_glucose_level => blood_glucose_level v
  end.

(** [field.onChange(value)]: the store's value of one field is replaced. *)
Definition set_value (v : FormValues) (f : FieldName) (x : string) : FormValues :=
  let upd g := if decide (f = g) then x else get_value v g in
  {| gender := upd f_gender; age := upd f_age; hypertension := upd f_hypertension;
     heart_disease := upd f_heart_disease; smoking_history := upd f_smoking_history;
     weight := upd f_weight; height := upd f_height; HbA1c_level := upd f_HbA1c_level;
     blood_glucose_level := upd f_blood_glucose_level |}.

(** ** Widgets, rules and error texts *)

(** A [Picker] lists its [Picker.Item]s as (label, value) pairs. *)
Inductive Widget :=
| Picker (items : list (string * string))
| TextInput (placeholder : string).

Record Rules := { required : bool; pattern : option regexp }.

Record FieldSpec := {
  label : string; widget : Widget; rules : Rules; error_text : string }.

Definition required_only : Rules := {| required := true; pattern := None |}.
Definition required_numeric : Rules := {| required := true; pattern := Some numeric_pattern |}.

Definition text_required := "Este campo é obrigatório.".
Definition text_numeric := "Este campo é obrigatório e deve ser numérico.".

Definition yes_no_items : list (string * string) :=
  [("Selecione", ""); ("Não", "0"); ("Sim", "1")].

Definition gender_field : FieldSpec :=
  {| label := "Gênero";
     widget := Picker [("Selecione", ""); ("Masculino", "Male"); ("Feminino", "Female")];
     rules := required_only; error_text := text_required |}.

Definition age_field : FieldSpec :=
  {| label := "Idade"; widget := TextInput "Idade";
     rules := required_numeric; error_text := text_numeric |}.

Definition hypertension_field : FieldSpec :=
  {| label := "Hipertensão"; widget := Picker yes_no_items;
     rules := required_only; error_text := text_required |}.

Definition heart_disease_field : FieldSpec :=
  {| label := "Doença Cardíaca"; widget := Picker yes_no_items;
     rules := required_only; error_text := text_required |}.

Definition smoking_history_field : FieldSpec :=
  {| label := "Histórico de Fumo";
     widget := Picker [("Selecione", ""); ("Nunca", "never"); ("Atualmente", "current");
                       ("Ex-Fumante", "ex"); ("Ocasional", "occasional");
                       ("Não Informado", "No Info")];
     rules := required_only; error_text := text_required |}.

Definition weight_field : FieldSpec :=
  {| label := "Peso (kg)"; widget := TextInput "Peso";
     rules := required_numeric; error_text := text_numeric |}.

Definition height_field : FieldSpec :=
  {| label := "Altura (m)"; widget := TextInput "Altura";
     rules := required_numeric; error_text := text_numeric |}.

Definition HbA1c_level_field : FieldSpec :=
  {| label := "Nível de HbA1c"; widget := TextInput "HbA1c";
     rules := required_numeric; error_text := text_numeric |}.

Definition blood_glucose_level_field : FieldSpec :=
  {| label := "Nível de Glicose no Sangue"; widget := TextInput "Nível de Glicose";
     rules := required_numeric; error_text := text_numeric |}.

Definition field_spec (f : FieldName) : FieldSpec :=
  match f with
  | f_gender => gender_field | f_age => age_field | f_hypertension => hypertension_field
  | f_heart_disease => heart_disease_field | f_smoking_history => smoking_history_field
  | f_weight => weight_field | f_height => height_field | f_HbA1c_level => HbA1c_level_field
  | f_blood_glucose_level => blood_glucose_level_field
  end.

(** The values a widget lets the user enter: a [Picker] only its items'
    values, a [TextInput] any string. *)
Definition widget_allows (w : Widget) (x : string) : bool :=
  match w with
  | Picker items => bool_decide (x ∈ map snd items)
  | TextInput _ => true
  end.

(** ** Validation (react-hook-form's [validateField] for these rules) *)

Inductive FieldError := ErrRequired | ErrPattern.

#[export] Instance FieldError_eq_dec : EqDecision FieldError.
Proof. solve_decision. Defined.

Definition validate_value (r : Rules) (x : string) : option FieldError :=
  if required r && String.eqb x "" then Some ErrRequired
  else match pattern r with
       | Some p => if negb (String.eqb x "") && negb (test p x) then Some ErrPattern else None
       | None => None
       end.

Definition validate_field (v : FormValues) (f : FieldName) : option FieldError :=
  validate_value (rules (field_spec f)) (get_value v f).

(** The [errors] object: one entry per failing field. *)
Definition validate_fields (v : FormValues) (fs : list FieldName) : gmap FieldName FieldError :=
  foldr (fun f m => match validate_field v f with Some e => <[f:=e]> m | None => m end) ∅ fs.

Definition validate_all (v : FormValues) : gmap FieldName FieldError :=
  validate_fields v all_fields.

(** [errors.<name> && <Text>...</Text>]: the text shown under a field. *)
Definition error_display (errors : gmap FieldName FieldError) (f : FieldName) : option string :=
  match errors !! f with Some _ => Some (error_text (field_spec f)) | None => None end.

End Form.

Import Form.

(** Every [Picker] field holds one of its items' values. *)
Definition pickers_ok (v : FormValues) : Prop :=
  forall f items, widget (field_spec f) = Picker items -> get_value v f ∈ map snd items.

(** ** The specification's [validate()] (its section 4.1)

    [gender], [hypertension], [heart_disease] and [smoking_history] are
    required; [age], [weight], [height], [HbA1c_level] and
    [blood_glucose_level] are required and must be a decimal number: one
    or more digits, optionally a fractional part after [.] or [,]. *)
Definition spec_numeric (f : FieldName) : bool :=
  match f with
  | f_age | f_weight | f_height | f_HbA1c_level | f_blood_glucose_level => true
  | f_gender | f_hypertension | f_heart_disease | f_smoking_history => false
  end.

Definition spec_valid (v : FormValues) (f : FieldName) : Prop :=
  get_value v f <> "" /\
  (spec_numeric f = true -> exists d1 o, ⟦get_value v f⟧ = numeral_text d1 o /\ valid_numeral d1 o).

(** ** Fields and values *)

Lemma all_fields_complete f : f ∈ all_fields.
Proof. destruct f; set_solver. Qed.

Lemma get_set_value v f x g :
  get_value (set_value v f x) g = if decide (f = g) then x else get_value v g.
Proof. destruct g; reflexivity. Qed.

Lemma get_value_default f : get_value defaultValues f = "".
Proof. destruct f; reflexivity. Qed.


(** ** The errors object *)

Lemma validate_fields_lookup v fs f :
  validate_fields v fs !! f = if bool_decide (f ∈ fs) then validate_field v f else None.
Proof.
  unfold validate_fields. induction fs as [|g fs IH]; cbn [foldr].
  - rewrite lookup_empty, bool_decide_false by set_solver. reflexivity.
  - destruct (decide (f = g)) as [->|Hne].
    + rewrite bool_decide_true by set_solver.
      destruct (validate_field v g) as [e|] eqn:E; [now rewrite lookup_insert_eq|].
      rewrite IH. now case_bool_decide.
    + assert (Hin : f ∈ g :: fs <-> f ∈ fs) by set_solver.
      replace (bool_decide (f ∈ g :: fs)) with (bool_decide (f ∈ fs)) by (apply bool_decide_ext; tauto).
      destruct (validate_field v g); [rewrite lookup_insert_ne by congruence|]; exact IH.
Qed.

(** [errors.<f>] is the verdict of [f]'s rules on [f]'s current value. *)
Theorem validate_all_lookup v f : validate_all v !! f = validate_field v f.
Proof.
  unfold validate_all. rewrite validate_fields_lookup, bool_decide_true; auto using all_fields_complete.
Qed.

(** [handleSubmit] calls [onSubmit] exactly when the errors object is empty,
    i.e. when every field passes its rules. *)
Theorem validate_all_empty v : validate_all v = ∅ <-> forall f, validate_field v f = None.
Proof.
  split.
  - intros H f. now rewrite <- validate_all_lookup, H, lookup_empty.
  - intros H. apply map_eq. intros f. now rewrite validate_all_lookup, H, lookup_empty.
Qed.

(** ** What each rule accepts *)

Lemma required_only_ok x : validate_value required_only x = None <-> x <> "".
Proof.
  unfold validate_value. simpl. destruct (String.eqb_spec x ""); split; congruence.
Qed.

Lemma required_numeric_ok x :
  validate_value required_numeric x = None <-> is_some (numeric_shape ⟦x⟧) = true.
Proof.
  unfold validate_value. simpl. rewrite numeric_pattern_test.
  destruct (String.eqb_spec x "") as [->|Hne]; simpl; [split; discriminate|].
  destruct (is_some _); simpl; split; congruence.
Qed.

Lemma required_numeric_spec x :
  validate_value required_numeric x = None <->
  x <> "" /\ exists d1 o, ⟦x⟧ = numeral_text d1 o /\ valid_numeral d1 o.
Proof.
  rewrite required_numeric_ok. split.
  - destruct (numeric_shape ⟦x⟧) as [[d1 o]|] eqn:E; [intros _|discriminate].
    apply numeric_shape_spec in E as [Hw Hv]. split; [|eauto].
    intros ->. destruct Hv as [Hd _]. destruct d1; [congruence | discriminate Hw].
  - intros [_ (d1 & o & Hw)]. apply numeric_shape_spec in Hw. now rewrite Hw.
Qed.

(** C16: An empty field always fails with [required], whatever the other
    fields hold (the first testable property of the spec, §8). *)
Theorem empty_field_required v f : get_value v f = "" -> validate_all v !! f = Some ErrRequired.
Proof.
  intros H. rewrite validate_all_lookup. unfold validate_field. rewrite H.
  destruct f; reflexivity.
Qed.

(** C17: A numeric field holding a character that is neither a digit nor a
    separator (["7a"]) fails with [pattern]. *)
Theorem numeric_field_rejects_letter v f c :
  rules (field_spec f) = required_numeric -> c ∈ ⟦get_value v f⟧ ->
  is_digit c || is_sep c = false -> validate_all v !! f = Some ErrPattern.
Proof.
  intros Hr Hc Hnd. rewrite validate_all_lookup. unfold validate_field. rewrite Hr.
  unfold validate_value. simpl. rewrite numeric_pattern_test.
  destruct (String.eqb_spec (get_value v f) "") as [He|Hne].
  - rewrite He in Hc. simpl in Hc. set_solver.
  - destruct (numeric_shape ⟦get_value v f⟧) as [[d1 o]|] eqn:E; [|reflexivity].
    exfalso. apply numeric_shape_spec in E as [Hw Hv].
    pose proof (numeral_chars _ _ Hv) as Hall. rewrite <- Hw, forallb_forall in Hall.
    apply list_elem_of_In in Hc. specialize (Hall c Hc). congruence.
Qed.

(** A valid form's numeric fields are numerals and its pickers are set. *)
Lemma valid_numeric_field v f :
  validate_all v = ∅ -> rules (field_spec f) = required_numeric ->
  exists d1 o, numeric_shape ⟦get_value v f⟧ = Some (d1, o).
Proof.
  intros Hv Hr. pose proof (proj1 (validate_all_empty v) Hv f) as Hf.
  unfold validate_field in Hf. rewrite Hr, required_numeric_ok in Hf.
  destruct (numeric_shape _) as [[d1 o]|]; [eauto | discriminate].
Qed.

Lemma valid_required_field v f :
  validate_all v = ∅ -> rules (field_spec f) = required_only -> get_value v f <> "".
Proof.
  intros Hv Hr. pose proof (proj1 (validate_all_empty v) Hv f) as Hf.
  unfold validate_field in Hf. now rewrite Hr, required_only_ok in Hf.
Qed.

Lemma validate_spec_valid v :
  (forall f, validate_all v !! f = None <-> spec_valid v f) /\
  (validate_all v = ∅ <-> forall f, spec_valid v f).
Proof.
  assert (Hf : forall f, validate_all v !! f = None <-> spec_valid v f).
  { intros f. rewrite validate_all_lookup. unfold validate_field, spec_valid.
    destruct f; cbn [field_spec rules spec_numeric gender_field age_field hypertension_field
      heart_disease_field smoking_history_field weight_field height_field HbA1c_level_field
      blood_glucose_level_field];
      first [ rewrite required_numeric_spec; split; intros [H1 H2]; split; auto
            | rewrite required_only_ok; split; [intros H; split; [exact H | discriminate] | intros [H _]; exact H] ]. }
  split; [exact Hf|]. rewrite validate_all_empty.
  split; intros H f; [apply Hf; rewrite validate_all_lookup; apply H | rewrite <- validate_all_lookup; apply Hf, H].
Qed.
(** C29: The [rules] table with react-hook-form's validation implements
    the spec's [validate()]: a field has no error exactly when it is valid
    by the specification (required, and a decimal number for the five
    numeric fields), and the form can be submitted exactly when all nine
    fields are. *)
Theorem validate_refines_spec v :
  (forall f, validate_all v !! f = None <-> spec_valid v f) /\
  (validate_all v = ∅ <-> forall f, spec_valid v f).
Proof. exact (validate_spec_valid v). Qed.


Lemma validate_field_set_other v f x g :
  f <> g -> validate_field (set_value v f x) g = validate_field v g.
Proof. intros H. unfold validate_field. rewrite get_set_value. now rewrite decide_False. Qed.

Lemma validate_field_set_same v f x :
  validate_field (set_value v f x) f = validate_value (rules (field_spec f)) x.
Proof. unfold validate_field. rewrite get_set_value. now rewrite decide_True. Qed.

Lemma pickers_ok_default : pickers_ok defaultValues.
Proof. intros [] items H; inversion H; subst; simpl; set_solver. Qed.

Lemma pickers_ok_set v f x :
  pickers_ok v -> widget_allows (widget (field_spec f)) x = true -> pickers_ok (set_value v f x).
Proof.
  intros Hp Hw g items Hg. rewrite get_set_value. destruct (decide (f = g)) as [->|Hne].
  - rewrite Hg in Hw. simpl in Hw. now apply bool_decide_eq_true in Hw.
  - now apply Hp.
Qed.

(** ** Witnesses *)

Lemma empty_field_required_witness : validate_all defaultValues !! f_age = Some ErrRequired.
Proof. apply empty_field_required. reflexivity. Defined.

Lemma numeric_field_rejects_letter_witness :
  validate_all (set_value defaultValues f_age "7a") !! f_age = Some ErrPattern.
Proof. apply (numeric_field_rejects_letter _ _ "a"%char); [reflexivity | vm_compute; set_solver | reflexivity]. Defined.

(** A picker of a valid form holds one of its items, never the placeholder. *)
Lemma picker_value v f items :
  validate_all v = ∅ -> pickers_ok v -> widget (field_spec f) = Picker items ->
  rules (field_spec f) = required_only -> In (get_value v f) (map snd items) /\ get_value v f <> "".
Proof.
  intros Hv Hp Hw Hr. split; [apply list_elem_of_In; now apply Hp | now apply valid_required_field].
Qed.
