(* ===== verification/Request.v ===== *)
(** * The request built by [onSubmit]

    [onSubmit(data)] ([src/src/app/index.tsx], lines 22-45) parses
    [weight] and [height] with [parseFloat], computes
    [bmi = weight / (height * height)] (line 26), builds [requestData]
    (lines 28-37) and sends [JSON.stringify(requestData)] (line 44).

    [Module Request] has the following:
    - [requestData] as a record of strings and numbers;
    - [build_request] as the code builds it;
    - [request_json], the JSON value that [JSON.stringify] serialises: an
      object whose keys are in the order of the literal, with every
      non-finite number ([NaN], [±Infinity]) written as [null] (ECMA-262
      SerializeJSONProperty);
    - [request_body], the text sent ([Json.v]). *)

From stdpp Require Import base gmap.
From Stdlib Require Import String Ascii List ZArith SpecFloat.
From S2P Require Import Prelude JsNumber NumberFormat Pattern JsParse Json Form.
Import ListNotations Number NumberFormat NumberParsing JsRegExp.

Local Open Scope string_scope.

Import Json.

Module Request.

Record requestData := {
  gender : string;
  age : number;
  hypertension : number;
  heart_disease : number;
  smoking_history : string;
  bmi : number;
  HbA1c_level : number;
  blood_glucose_level : number }.

(** Lines 24-26. *)
Definition compute_bmi (data : Form.FormValues) : number :=
  let weight := parseFloat (Form.weight data) in
  let height := parseFloat (Form.height data) in
  div weight (mul height height).

(** Lines 28-37. *)
Definition build_request (data : Form.FormValues) : requestData :=
  {| gender := Form.gender data;
     age := parseFloat (Form.age data);
     hypertension := parseInt (Form.hypertension data);
     heart_disease := parseInt (Form.heart_disease data);
     smoking_history := Form.smoking_history data;
     bmi := compute_bmi data;
     HbA1c_level := parseFloat (Form.HbA1c_level data);
     blood_glucose_level := parseInt (Form.blood_glucose_level data) |}.

(** [JSON.stringify(requestData)] (line 44), as a JSON value. *)
Definition request_json (r : requestData) : json :=
  JObject [("gender", JString (gender r));
           ("age", serialize_number (age r));
           ("hypertension", serialize_number (hypertension r));
           ("heart_disease", serialize_number (heart_disease r));
           ("smoking_history", JString (smoking_history r));
           ("bmi", serialize_number (bmi r));
           ("HbA1c_level", serialize_number (HbA1c_level r));
           ("blood_glucose_level", serialize_number (blood_glucose_level r))].

(** [body: JSON.stringify(requestData)] (line 44): the text sent. *)
Definition request_body (r : requestData) : string := JSON_stringify (request_json r).

End Request.

Import Request.

(** The form of the spec's worked example, used by the witnesses. *)
Definition sample_values : Form.FormValues :=
  {| Form.gender := "Female"; Form.age := "54"; Form.hypertension := "1";
     Form.heart_disease := "0"; Form.smoking_history := "ex"; Form.weight := "70";
     Form.height := "1.75"; Form.HbA1c_level := "6.6"; Form.blood_glucose_level := "140.5" |}.


(** ** Arithmetic facts on zeros *)

Lemma mul_pos_zero : mul PosZero PosZero = PosZero.
Proof. reflexivity. Qed.

Lemma div_by_pos_zero x :
  to_boolean x = true -> has_sign false x = true -> div x PosZero = PosInfinity.
Proof. destruct x as [[]|[]| |[] m e]; simpl; try discriminate; reflexivity. Qed.

(** ** BMI *)

(** C12: A height of zero is not guarded: a positive weight gives a BMI of
    [+Infinity], which [JSON.stringify] sends as [null]. *)
Theorem bmi_zero_height data :
  parseFloat (Form.height data) = PosZero ->
  to_boolean (parseFloat (Form.weight data)) = true ->
  has_sign false (parseFloat (Form.weight data)) = true ->
  bmi (build_request data) = PosInfinity /\
  In ("bmi", JNull) (match request_json (build_request data) with JObject m => m | _ => [] end).
Proof.
  intros Hh Hw Hs. assert (Hb : bmi (build_request data) = PosInfinity).
  { unfold build_request. cbn [bmi]. unfold compute_bmi. rewrite Hh, mul_pos_zero.
    now apply div_by_pos_zero. }
  split; [exact Hb|]. unfold request_json. rewrite Hb. unfold serialize_number. simpl. tauto.
Qed.

(** C13: The comma separator, accepted by the pattern, makes [parseFloat] drop
    the fraction: the BMI is that of the integer part of the height. *)
Theorem bmi_comma_height data d1 d2 :
  numeric_shape ⟦Form.height data⟧ = Some (d1, Some (","%char, d2)) ->
  compute_bmi data = compute_bmi (Form.set_value data Form.f_height (string_of_list_ascii d1)).
Proof.
  intros H. pose proof H as H'. apply numeric_shape_spec in H' as [_ (Hne & Hd & _)].
  unfold compute_bmi. simpl. rewrite (parseFloat_numeral _ _ _ H).
  rewrite (parseFloat_numeral (string_of_list_ascii d1) d1 None).
  - reflexivity.
  - apply numeric_shape_spec. rewrite list_ascii_of_string_of_list_ascii.
    unfold numeral_text, valid_numeral. rewrite app_nil_r. auto.
Qed.

Lemma bmi_sign data :
  Form.validate_all data = ∅ ->
  has_sign false (compute_bmi data) = true \/ compute_bmi data = NaN.
Proof.
  intros Hv.
  destruct (Form.valid_numeric_field data Form.f_weight Hv eq_refl) as (dw & ow & Hw).
  destruct (Form.valid_numeric_field data Form.f_height Hv eq_refl) as (dh & oh & Hh).
  apply parseFloat_numeral_nonneg in Hw, Hh. unfold compute_bmi. simpl in Hw, Hh.
  destruct (mul_has_sign_false _ _ Hh Hh) as [Hm | ->].
  - apply div_has_sign_false; assumption.
  - right. destruct (parseFloat (Form.weight data)); reflexivity.
Qed.

(** C14: The BMI of a valid form is never negative: it is a number of sign [+]
    or NaN (only for 0/0 or ∞/∞). *)
Theorem bmi_valid_nonneg data :
  Form.validate_all data = ∅ ->
  has_sign false (compute_bmi data) = true \/ compute_bmi data = NaN.
Proof. exact (bmi_sign data). Qed.

(** C15: The numeric request fields of a validated form: [age] and
    [HbA1c_level] keep their fraction when it follows a dot, while
    [blood_glucose_level], read with [parseInt], keeps only the integer
    digits whatever the separator. *)
Theorem request_fields_of_numerals data da oa dh oh dg og :
  numeric_shape ⟦Form.age data⟧ = Some (da, oa) ->
  numeric_shape ⟦Form.HbA1c_level data⟧ = Some (dh, oh) ->
  numeric_shape ⟦Form.blood_glucose_level data⟧ = Some (dg, og) ->
  age (build_request data) = numeral_float da oa /\
  HbA1c_level (build_request data) = numeral_float dh oh /\
  blood_glucose_level (build_request data) = of_decimal (decimal_value dg) 0.
Proof.
  intros Ha Hh Hg. simpl.
  rewrite (parseFloat_numeral _ _ _ Ha), (parseFloat_numeral _ _ _ Hh), (parseInt_numeral _ _ _ Hg).
  auto.
Qed.

(** ** The numbers sent *)

(** Whatever the form holds, every number of the request is a canonical
    binary64 value, as [JSON.stringify] needs to write it back exactly. *)
Lemma request_numbers_valid data :
  Forall (fun n => is_valid n = true)
    [age (build_request data); hypertension (build_request data); heart_disease (build_request data);
     bmi (build_request data); HbA1c_level (build_request data); blood_glucose_level (build_request data)].
Proof.
  cbn [age hypertension heart_disease bmi HbA1c_level blood_glucose_level build_request]. unfold compute_bmi.
  apply Forall_cons; [apply parseFloat_valid|]. apply Forall_cons; [apply parseInt_valid|].
  apply Forall_cons; [apply parseInt_valid|].
  apply Forall_cons; [apply div_valid; [apply parseFloat_valid | apply mul_valid; apply parseFloat_valid]|].
  apply Forall_cons; [apply parseFloat_valid|]. apply Forall_cons; [apply parseInt_valid|]. apply Forall_nil.
Qed.

Lemma serialize_wf n : is_valid n = true -> has_sign false n = true \/ n = NaN ->
  json_wf (serialize_number n) = true.
Proof.
  intros Hv [Hs | ->]; [|reflexivity]. unfold serialize_number.
  destruct n as [[]|[]| |[] m e]; try discriminate; try reflexivity.
  change (json_wf (JNumber (S754_finite false m e)) = true). cbn [json_wf].
  unfold is_valid in Hv. now rewrite Hv.
Qed.

Lemma picker_number v f : Form.validate_all v = ∅ -> pickers_ok v ->
  Form.widget (Form.field_spec f) = Form.Picker Form.yes_no_items ->
  Form.rules (Form.field_spec f) = Form.required_only ->
  has_sign false (parseInt (Form.get_value v f)) = true.
Proof.
  intros Hv Hp Hw Hr. destruct (picker_value v f _ Hv Hp Hw Hr) as [Hin Hne]. cbn in Hin.
  destruct Hin as [E | [E | [E | []]]]; rewrite <- E in *; [exfalso; apply Hne; reflexivity | reflexivity | reflexivity].
Qed.

(** The JSON of a request built from a valid form reads back: its numbers
    are canonical, finite ones are not [-0], the others are [null]. *)
Lemma request_json_wf v : Form.validate_all v = ∅ -> pickers_ok v ->
  json_wf (request_json (build_request v)) = true.
Proof.
  intros Hv Hp.
  destruct (Form.valid_numeric_field v Form.f_age Hv eq_refl) as (da & oa & Ha).
  destruct (Form.valid_numeric_field v Form.f_HbA1c_level Hv eq_refl) as (dh & oh & Hh).
  destruct (Form.valid_numeric_field v Form.f_blood_glucose_level Hv eq_refl) as (dg & og & Hg).
  cbn [Form.get_value] in Ha, Hh, Hg.
  pose proof (request_numbers_valid v) as Hval. cbn [age hypertension heart_disease bmi HbA1c_level
    blood_glucose_level build_request] in Hval. repeat (apply Forall_cons_iff in Hval as [? Hval]).
  unfold request_json. cbn [json_wf forallb snd age hypertension heart_disease bmi HbA1c_level
    blood_glucose_level build_request gender smoking_history].
  rewrite !serialize_wf; try assumption; try reflexivity.
  - left. rewrite (parseInt_numeral _ _ _ Hg). apply of_decimal_has_sign, decimal_value_nonneg.
    apply numeric_shape_spec in Hg as [_ (_ & Hd & _)]. exact Hd.
  - left. exact (parseFloat_numeral_nonneg _ _ _ Hh).
  - exact (bmi_sign v Hv).
  - left. exact (picker_number v Form.f_heart_disease Hv Hp eq_refl eq_refl).
  - left. exact (picker_number v Form.f_hypertension Hv Hp eq_refl eq_refl).
  - left. exact (parseFloat_numeral_nonneg _ _ _ Ha).
Qed.

(** ** Witnesses *)

Lemma bmi_zero_height_witness :
  bmi (build_request (Form.set_value sample_values Form.f_height "0")) = PosInfinity /\
  In ("bmi", JNull)
     (match request_json (build_request (Form.set_value sample_values Form.f_height "0")) with
      | JObject m => m | _ => [] end).
Proof. apply bmi_zero_height; vm_compute; reflexivity. Defined.

Lemma bmi_comma_height_witness :
  compute_bmi (Form.set_value sample_values Form.f_height "1,75") =
  compute_bmi (Form.set_value (Form.set_value sample_values Form.f_height "1,75")
                              Form.f_height (string_of_list_ascii ["1"%char])).
Proof. apply (bmi_comma_height _ ["1"%char] ["7"%char; "5"%char]). vm_compute. reflexivity. Defined.

Lemma bmi_valid_nonneg_witness :
  has_sign false (compute_bmi sample_values) = true \/ compute_bmi sample_values = NaN.
Proof. apply bmi_valid_nonneg. vm_compute. reflexivity. Defined.

Lemma request_fields_of_numerals_witness :
  age (build_request sample_values) = numeral_float ["5"; "4"]%char None /\
  HbA1c_level (build_request sample_values) = numeral_float ["6"]%char (Some ("."%char, ["6"%char])) /\
  blood_glucose_level (build_request sample_values) = of_decimal (decimal_value ["1"; "4"; "0"]%char) 0.
Proof.
  apply (request_fields_of_numerals _ _ _ _ _ _ (Some ("."%char, ["5"%char]))); vm_compute; reflexivity.
Defined.
