(* ===== verification/Screen.v ===== *)
(** * The screen as a state machine

    [HomeScreen] ([src/src/app/index.tsx]) reacts to three kinds of events:
    an edit of a field ([field.onChange], from a [TextInput]'s
    [onChangeText] or a [Picker]'s [onValueChange]), a press of "Enviar"
    ([onPress={handleSubmit(onSubmit)}], line 240), and the settlement of
    one of the [fetch] calls [onSubmit] started (lines 39-55).  Requests are
    not serialised: several may be in flight and they settle in any order.

    [Module Screen] models the state the screen and react-hook-form keep
    ([ScreenState]: the values, the [errors] object, [isSubmitted], the
    [message] state of [useState], the requests in flight, the requests sent
    and the [console.error] log), one function per handler ([on_change],
    [on_press], [on_settle]), the step function [step] whose [None] is an
    event that cannot happen (a [Picker] value that is not an item, the
    settlement of a request that is not in flight), and the reachable
    states ([reachable], rule induction).

    A response carries its body text, which [response.json()] parses.  The
    settlement and its theorems are written against the contract
    [JsonText] ([JsonCodec.v]): [Section Settlement] and
    [Section Properties] take any JSON layer that meets it.  The witnesses
    use ECMAScript's [JSON.parse] ([ecma_json]).  [render_message] is what
    lines 243-245 show for the [message] state.

    react-hook-form's behaviour used here (version 7, default
    [mode: 'onSubmit'], [reValidateMode: 'onChange']):
    - [handleSubmit] validates every field.  On an error it stores the
      [errors] and sets [isSubmitted] at once.  Otherwise it clears
      [errors], awaits [onSubmit], and only when [onSubmit] has returned
      (after its request settled and lines 47-55 ran) sets [isSubmitted].
    - A change revalidates the changed field only once [isSubmitted] is
      set; before that, edits are not validated. *)

From stdpp Require Import base gmap list.
From Stdlib Require Import String Ascii List ZArith SpecFloat.
From S2P Require Import Prelude JsNumber NumberFormat Pattern JsParse Json JsonCodec Form Request.
Import Number NumberFormat Form Json Request.

Local Open Scope string_scope.

Module Screen.

(** The values [message] can hold: [setMessage(responseData.message)]
    stores whatever the response's [message] property is, possibly
    [undefined]; the initial state is [null] (line 20). *)
Inductive js_value := JsUndefined | JsValue (j : json).

(** A settled [fetch]: rejected (network failure) or a [Response] with its
    status and body text; [response.json()] is [JSON.parse] of the text. *)
Record Response := { status : Z; statusText : string; body : string }.

(** [response.ok]: a status in 200-299. *)
Definition ok (r : Response) : bool := (200 <=? status r)%Z && (status r <=? 299)%Z.

Inductive FetchOutcome := NetworkError | Received (r : Response).

(** The second argument of [console.error('Erro ao enviar dados:', _)]. *)
Inductive ErrorCause :=
| CauseHttp (statusText : string)   (* line 51: response.statusText *)
| CauseNetwork                      (* line 54: fetch rejected *)
| CauseSyntax                       (* line 54: response.json() rejected *)
| CauseTypeError.                   (* line 54: reading 'message' of null *)

Record LogEntry := { log_text : string; log_cause : ErrorCause }.

Definition log_error (c : ErrorCause) : LogEntry :=
  {| log_text := "Erro ao enviar dados:"; log_cause := c |}.

(** [responseData.message]: the last [message] member of an object (a
    duplicated key keeps the value parsed last), [undefined] for other
    non-null values, a [TypeError] ([None]) for [null]. *)
Definition get_message (j : json) : option js_value :=
  match j with
  | JNull => None
  | JObject members =>
      Some (fold_left (fun acc kv => if String.eqb (fst kv) "message" then JsValue (snd kv) else acc)
                      members JsUndefined)
  | _ => Some JsUndefined
  end.

Definition option_list {A} (o : option A) : list A := match o with Some x => [x] | None => [] end.

Record ScreenState := {
  values : FormValues;
  errors : gmap FieldName FieldError;
  isSubmitted : bool;
  message : js_value;
  pending : list (nat * json);     (* fetches in flight: id, body *)
  next_id : nat;
  sent : list (nat * json);        (* every POST issued, in order *)
  logs : list LogEntry }.

Definition initial : ScreenState :=
  {| values := defaultValues; errors := ∅; isSubmitted := false; message := JsValue JNull;
     pending := []; next_id := 0; sent := []; logs := [] |}.

Inductive Event :=
| Change (f : FieldName) (x : string)
| Press
| Settle (id : nat) (o : FetchOutcome).

(** The entry of [f] in [errors] after [f] is revalidated. *)
Definition revalidate (errs : gmap FieldName FieldError) (v : FormValues) (f : FieldName)
  : gmap FieldName FieldError :=
  match validate_field v f with Some e => <[f:=e]> errs | None => delete f errs end.

(** [field.onChange(x)]. *)
Definition on_change (s : ScreenState) (f : FieldName) (x : string) : ScreenState :=
  let v' := set_value (values s) f x in
  {| values := v';
     errors := if isSubmitted s then revalidate (errors s) v' f else errors s;
     isSubmitted := isSubmitted s; message := message s; pending := pending s;
     next_id := next_id s; sent := sent s; logs := logs s |}.

(** [handleSubmit(onSubmit)]: validation of every field.  On success the
    errors are cleared and [onSubmit] runs up to its [await fetch(...)],
    which sends the body; [isSubmitted] is left as it is until [onSubmit]
    returns.  On failure the errors are stored and [isSubmitted] is set. *)
Definition on_press (s : ScreenState) : ScreenState :=
  let errs := validate_all (values s) in
  if bool_decide (errs = ∅) then
    let req := (next_id s, request_json (build_request (values s))) in
    {| values := values s; errors := ∅; isSubmitted := isSubmitted s; message := message s;
       pending := pending s ++ [req]; next_id := S (next_id s);
       sent := sent s ++ [req]; logs := logs s |}
  else
    {| values := values s; errors := errs; isSubmitted := true; message := message s;
       pending := pending s; next_id := next_id s; sent := sent s; logs := logs s |}.

(** ** Settlement, against any JSON layer meeting [JsonText] *)

Section Settlement.
Context `{JT : JsonText}.

(** Lines 47-55, after [fetch] settles: the new [message] and the log
    entry, if any. *)
Definition handle_outcome (o : FetchOutcome) (msg : js_value) : js_value * option LogEntry :=
  match o with
  | NetworkError => (msg, Some (log_error CauseNetwork))
  | Received r =>
      if ok r then
        match decode (body r) with
        | None => (msg, Some (log_error CauseSyntax))
        | Some j =>
            match get_message j with
            | Some m => (m, None)
            | None => (msg, Some (log_error CauseTypeError))
            end
        end
      else (msg, Some (log_error (CauseHttp (statusText r))))
  end.

(** The continuation of the [onSubmit] call that sent request [id], then
    the end of its [handleSubmit], which sets [isSubmitted]. *)
Definition on_settle (s : ScreenState) (id : nat) (o : FetchOutcome) : ScreenState :=
  let '(m, entry) := handle_outcome o (message s) in
  {| values := values s; errors := errors s; isSubmitted := true; message := m;
     pending := filter (fun p => negb (Nat.eqb (fst p) id)) (pending s);
     next_id := next_id s; sent := sent s; logs := logs s ++ option_list entry |}.

Definition in_flight (s : ScreenState) (id : nat) : bool :=
  existsb (fun p => Nat.eqb (fst p) id) (pending s).

Definition step (s : ScreenState) (e : Event) : option ScreenState :=
  match e with
  | Change f x => if widget_allows (widget (field_spec f)) x then Some (on_change s f x) else None
  | Press => Some (on_press s)
  | Settle id o => if in_flight s id then Some (on_settle s id o) else None
  end.

Fixpoint run (s : ScreenState) (es : list Event) : option ScreenState :=
  match es with
  | [] => Some s
  | e :: es' => match step s e with Some s' => run s' es' | None => None end
  end.

Inductive reachable : ScreenState -> Prop :=
| reachable_initial : reachable initial
| reachable_step s e s' : reachable s -> step s e = Some s' -> reachable s'.

(** The message a settlement stores, if it stores one: a 2xx response
    whose body parses to a JSON value other than [null]. *)
Definition delivered (o : FetchOutcome) : option js_value :=
  match o with
  | Received r => if ok r then match decode (body r) with Some j => get_message j | None => None end
                  else None
  | NetworkError => None
  end.

End Settlement.

(** ** Rendering of [message] (lines 243-245)

    [{message && <Text style={styles.result}>{message}</Text>}]: a falsy
    [message] is itself the child of the [View], a truthy one the child of
    a [Text].  React renders [null], [undefined], booleans and [""] as
    nothing, a number as its [Number::toString] text, an array as its
    elements; an object is not a valid child, and React Native refuses a
    text (a number included) outside a [Text]: both are render errors. *)
Inductive View := ViewNone | ViewText (s : string) | ViewError.

(** ToBoolean of the value. *)
Definition truthy (j : json) : bool :=
  match j with
  | JNull => false
  | JBool b => b
  | JNumber n => to_boolean n
  | JString s => negb (String.eqb s "")
  | JArray _ | JObject _ => true
  end.

(** The text of the children of a [Text]; [None] when one is an object. *)
Fixpoint text_children (j : json) : option string :=
  match j with
  | JNull | JBool _ => Some ""
  | JNumber n => Some (Number_toString n)
  | JString s => Some s
  | JArray items =>
      fold_right (fun i acc => match text_children i, acc with
                               | Some a, Some b => Some (a ++ b)
                               | _, _ => None
                               end) (Some "") items
  | JObject _ => None
  end.

Definition render_message (m : js_value) : View :=
  match m with
  | JsUndefined => ViewNone
  | JsValue j =>
      if truthy j then match text_children j with Some t => ViewText t | None => ViewError end
      else match j with JNumber _ => ViewError | _ => ViewNone end
  end.

(** A user who fills every field with valid values. *)
Definition fill_valid : list Event :=
  [Change f_gender "Male"; Change f_age "40"; Change f_hypertension "0";
   Change f_heart_disease "0"; Change f_smoking_history "never"; Change f_weight "70";
   Change f_height "1.75"; Change f_HbA1c_level "6.5"; Change f_blood_glucose_level "140"].

(** The state after filling the form validly. *)
Definition filled_form : ScreenState :=
  match run initial fill_valid with Some s => s | None => initial end.

(** A 2xx answer whose body is [JSON.stringify({message: m})]. *)
Definition ok_response (m : string) : FetchOutcome :=
  Received {| status := 200; statusText := "OK"; body := JSON_stringify (JObject [("message", JString m)]) |}.

(** The state after filling the form and pressing "Enviar" twice. *)
Definition two_in_flight : ScreenState :=
  match run initial (fill_valid ++ [Press; Press]) with Some s => s | None => initial end.

Definition first_sent_body : json :=
  match sent two_in_flight with (_, b) :: _ => b | [] => JNull end.

Definition server_error : FetchOutcome :=
  Received {| status := 500; statusText := "INTERNAL SERVER ERROR"; body := "" |}.

Definition no_message_members : list (string * json) := [("risk", JString "low")].

End Screen.

Import Screen.

(** ** The invariant of the reachable states *)

(** A request body built by [onSubmit] from a form that passed validation. *)
Definition valid_payload (b : json) : Prop :=
  exists v, validate_all v = ∅ /\ pickers_ok v /\ b = request_json (build_request v).

Record inv (s : ScreenState) : Prop := {
  inv_sound : forall f e, errors s !! f = Some e -> validate_field (values s) f = Some e;
  inv_unsubmitted : isSubmitted s = false -> errors s = ∅;
  inv_pickers : pickers_ok (values s);
  inv_sent : forall p, In p (sent s) -> valid_payload (snd p);
  inv_ids : forall p, In p (sent s) -> fst p < next_id s;
  inv_pending : forall p, In p (pending s) -> In p (sent s);
  inv_nodup : NoDup (map fst (pending s)) }.

Section Properties.
Context `{JT : JsonText}.

(** No entry in an empty [errors] object. *)
Lemma no_error_empty (v : FormValues) f e :
  (∅ : gmap FieldName FieldError) !! f = Some e -> validate_field v f = Some e.
Proof. rewrite lookup_empty. discriminate. Qed.

Lemma inv_initial : inv initial.
Proof.
  split; simpl; try reflexivity; try tauto; [apply no_error_empty | apply pickers_ok_default | constructor].
Qed.

(** Revalidating the changed field keeps every entry a current verdict. *)
Lemma revalidate_sound errs v f x :
  (forall g e, errs !! g = Some e -> validate_field v g = Some e) ->
  forall g e, revalidate errs (set_value v f x) f !! g = Some e -> validate_field (set_value v f x) g = Some e.
Proof.
  intros H g e. unfold revalidate. destruct (decide (f = g)) as [->|Hne].
  - destruct (validate_field _ g) eqn:E; [rewrite lookup_insert_eq; congruence | now rewrite lookup_delete_eq].
  - destruct (validate_field _ f);
      [rewrite lookup_insert_ne by done | rewrite lookup_delete_ne by done];
      rewrite validate_field_set_other by done; apply H.
Qed.

Lemma inv_change s f x :
  inv s -> widget_allows (widget (field_spec f)) x = true -> inv (on_change s f x).
Proof.
  intros [He Hu Hp Hs Hi Hq Hn] Hw. constructor; simpl; auto using pickers_ok_set;
    destruct (isSubmitted s) eqn:Hb; try discriminate.
  - now apply revalidate_sound.
  - rewrite (Hu eq_refl). apply no_error_empty.
  - intros _. exact (Hu eq_refl).
Qed.

Lemma NoDup_map_filter {A B} (f : A -> B) (P : A -> bool) l :
  NoDup (map f l) -> NoDup (map f (filter P l)).
Proof.
  induction l as [|a l IH]; simpl; [auto|]. intros Hnd. inversion Hnd as [|? ? Hnin Hnd']; subst.
  destruct (P a); simpl; auto. constructor; auto.
  intros Hin. apply Hnin. apply in_map_iff in Hin as (b & Hb & Hin).
  apply in_map_iff. exists b. split; [exact Hb|]. apply filter_In in Hin. tauto.
Qed.

Lemma inv_settle s id o : inv s -> inv (on_settle s id o).
Proof.
  intros [He Hu Hp Hs Hi Hq Hn]. unfold on_settle.
  destruct (handle_outcome o (message s)) as [m entry].
  constructor; simpl; auto using NoDup_map_filter; [intros Hc; discriminate Hc|].
  intros p Hin. apply filter_In in Hin. apply Hq. tauto.
Qed.

Lemma inv_press s : inv s -> inv (on_press s).
Proof.
  intros [He Hu Hp Hs Hi Hq Hn]. unfold on_press.
  case_bool_decide as Hv; constructor; simpl; auto using no_error_empty;
    try (intros Hc; discriminate Hc); try (intros f e He'; rewrite validate_all_lookup in He'; exact He').
  - intros p Hin. apply in_app_or in Hin as [Hin | [<- | []]]; [auto|].
    exists (values s). auto.
  - intros p Hin. apply in_app_or in Hin as [Hin | [<- | []]]; simpl; [specialize (Hi p Hin); lia | lia].
  - intros p Hin. apply in_app_or in Hin as [Hin | [<- | []]]; apply in_or_app; [left; auto | right; now left].
  - rewrite map_app. apply NoDup_app; [exact Hn | repeat constructor; intros [] |].
    intros i Hin1 [Hin2 | []]. simpl in Hin2. subst i.
    apply in_map_iff in Hin1 as (p & Hp1 & Hp2).
    specialize (Hi p (Hq p Hp2)). lia.
Qed.

Lemma inv_step s e s' : inv s -> step s e = Some s' -> inv s'.
Proof.
  intros H. destruct e as [f x| |id o]; simpl.
  - destruct (widget_allows _ x) eqn:Hw; intros E; inversion E; subst. now apply inv_change.
  - intros E. inversion E; subst. now apply inv_press.
  - destruct (in_flight s id); intros E; inversion E; subst. now apply inv_settle.
Qed.

Lemma reachable_inv s : reachable s -> inv s.
Proof. induction 1; eauto using inv_initial, inv_step. Qed.

Lemma run_reachable s es s' : reachable s -> run s es = Some s' -> reachable s'.
Proof.
  revert s. induction es as [|e es IH]; simpl; intros s Hr E; [congruence|].
  destruct (step s e) eqn:Es; [|discriminate]. eapply IH; [econstructor; eauto | exact E].
Qed.

(** ** Safety: what is sent *)

(** C1: every POST body is [JSON.stringify] of the request [onSubmit] builds
    from a form that passed every rule. *)
Theorem sent_only_valid s id b :
  reachable s -> In (id, b) (sent s) ->
  exists v, validate_all v = ∅ /\ b = request_json (build_request v).
Proof.
  intros Hr Hin. destruct (inv_sent _ (reachable_inv _ Hr) _ Hin) as (v & Hv & _ & Hb).
  eauto.
Qed.

Ltac picker_cases H :=
  destruct H as [H Hne]; simpl in H;
  repeat (destruct H as [H | H];
          [rewrite <- H in Hne |- *; vm_compute;
           first [exfalso; exact (Hne eq_refl) | repeat (first [left; reflexivity | right])] |]);
  contradiction.

(** C2: The categorical fields of a sent request take only the values the
    pickers offer, never the placeholder [""]: [gender] is [Male] or
    [Female], [hypertension] and [heart_disease] are the numbers 0 and 1,
    [smoking_history] one of the five smoking codes. *)
Theorem sent_request_types s id b :
  reachable s -> In (id, b) (sent s) ->
  exists r, b = request_json r /\
    In (Request.gender r) ["Male"; "Female"] /\
    In (Request.hypertension r) [PosZero; of_decimal 1 0] /\
    In (Request.heart_disease r) [PosZero; of_decimal 1 0] /\
    In (Request.smoking_history r) ["never"; "current"; "ex"; "occasional"; "No Info"].
Proof.
  intros Hr Hin. destruct (inv_sent _ (reachable_inv _ Hr) _ Hin) as (v & Hv & Hp & Hb).
  exists (build_request v). split; [exact Hb|]. simpl.
  pose proof (picker_value v f_gender _ Hv Hp eq_refl eq_refl) as Hg.
  pose proof (picker_value v f_hypertension _ Hv Hp eq_refl eq_refl) as Hh.
  pose proof (picker_value v f_heart_disease _ Hv Hp eq_refl eq_refl) as Hd.
  pose proof (picker_value v f_smoking_history _ Hv Hp eq_refl eq_refl) as Hs.
  simpl in Hg, Hh, Hd, Hs. clear Hb Hv Hp Hin Hr.
  split; [picker_cases Hg|]. split; [picker_cases Hh|]. split; [picker_cases Hd|]. picker_cases Hs.
Qed.

(** C23: Every body the screen sends is read back by [JSON.parse] as
    exactly the request built from the form: its strings, its numbers bit
    for bit (the non-finite ones as [null]), its members in order.  The
    request's numbers are canonical doubles and never [-0]. *)
Theorem sent_body_roundtrip s id b :
  reachable s -> In (id, b) (sent s) -> JSON_parse (JSON_stringify b) = Some b.
Proof.
  intros Hr Hin. destruct (inv_sent _ (reachable_inv _ Hr) _ Hin) as (v & Hv & Hp & Hb).
  cbn [snd] in Hb. subst b. apply parse_stringify, request_json_wf; assumption.
Qed.

(** ** The errors shown *)

(** C5: No error shown is stale: on every reachable state, each entry of
    the [errors] object is the verdict the rules give now on that field's
    current value; and while no submit has failed validation or completed,
    no error is stored at all. *)
Theorem errors_sound s :
  reachable s ->
  (forall f e, errors s !! f = Some e -> validate_field (values s) f = Some e) /\
  (isSubmitted s = false -> errors s = ∅).
Proof. intros Hr. destruct (reachable_inv _ Hr). auto. Qed.


(** ** Pressing "Enviar" *)

(** C3: A press on a valid form sends one request, with a fresh id, whose body
    is the request built from the current values; the errors are cleared
    and the message is left as it is.  Pressing again sends again. *)
Theorem press_valid_sends s :
  reachable s -> validate_all (values s) = ∅ ->
  exists s', step s Press = Some s' /\
    sent s' = (sent s ++ [(next_id s, request_json (build_request (values s)))])%list /\
    ~ In (next_id s) (map fst (sent s)) /\
    errors s' = ∅ /\ message s' = message s /\ next_id s' = S (next_id s).
Proof.
  intros Hr Hv. eexists. split; [reflexivity|]. unfold on_press. rewrite bool_decide_true by exact Hv.
  simpl. split_and!; auto.
  intros Hin. apply in_map_iff in Hin as (p & Hp & Hin).
  pose proof (inv_ids _ (reachable_inv _ Hr) p Hin). lia.
Qed.

(** C4: A press on a form with a failing field sends nothing and stores the
    errors of every field. *)
Theorem press_invalid_blocks s :
  validate_all (values s) <> ∅ ->
  exists s', step s Press = Some s' /\ sent s' = sent s /\ pending s' = pending s /\
    errors s' = validate_all (values s) /\ isSubmitted s' = true.
Proof.
  intros Hv. eexists. split; [reflexivity|]. unfold on_press.
  rewrite bool_decide_false by exact Hv. simpl. auto.
Qed.

(** ** Settlement of a request *)

Lemma step_settle s id o s' :
  step s (Settle id o) = Some s' -> in_flight s id = true /\ s' = on_settle s id o.
Proof. simpl. destruct (in_flight s id); intros E; inversion E; auto. Qed.

(** C7: The complete behaviour of a settlement: the request leaves the set in
    flight; a delivered message replaces [message] with no log entry;
    every other outcome (network error, non-2xx status, unparsable body,
    [null] body) leaves [message] as it was and logs exactly one entry. *)
Theorem settle_spec s id o s' :
  step s (Settle id o) = Some s' ->
  pending s' = filter (fun p => negb (Nat.eqb (fst p) id)) (pending s) /\
  sent s' = sent s /\ values s' = values s /\
  match delivered o with
  | Some m => message s' = m /\ logs s' = logs s
  | None => message s' = message s /\ exists e, logs s' = (logs s ++ [e])%list
  end.
Proof.
  intros H. apply step_settle in H as [_ ->]. unfold on_settle, handle_outcome, delivered.
  destruct o as [|r]; [|destruct (ok r); [destruct (decode (body r)) as [j|]; [destruct (get_message j)|]|]];
    simpl; rewrite ?app_nil_r; split_and!; eauto.
Qed.

(** C8: A non-2xx response changes nothing the user sees: [message] is kept
    and [console.error] receives the status text (line 51). *)
Theorem http_error_keeps_message s id r s' :
  step s (Settle id (Received r)) = Some s' -> ok r = false ->
  message s' = message s /\ logs s' = (logs s ++ [log_error (CauseHttp (statusText r))])%list.
Proof.
  intros H Hok. apply step_settle in H as [_ ->]. unfold on_settle, handle_outcome.
  rewrite Hok. simpl. auto.
Qed.

(** C9: A 2xx response whose body is [JSON.stringify({message: m})] stores
    [m] with no log entry, and a non-empty [m] is displayed exactly, as the
    text of the result [Text] (the spec's example: the body
    [{"message":"Low risk"}] is displayed as [Low risk]). *)
Theorem success_sets_message s id r m s' :
  step s (Settle id (Received r)) = Some s' -> ok r = true ->
  encodable (JObject [("message", JString m)]) = true ->
  body r = encode (JObject [("message", JString m)]) ->
  message s' = JsValue (JString m) /\ logs s' = logs s /\
  (m <> "" -> render_message (message s') = ViewText m).
Proof.
  intros H Hok He Hb. apply step_settle in H as [_ ->]. unfold on_settle, handle_outcome.
  rewrite Hok, Hb, decode_encode by exact He. cbn. rewrite app_nil_r.
  split_and!; [reflexivity | reflexivity |]. intros Hm. apply String.eqb_neq in Hm.
  unfold render_message, truthy. now rewrite Hm.
Qed.

(** C21: A 2xx response [{"message": 0}] leaves the screen unrenderable:
    [message && ...] evaluates to the number [0], which React Native
    refuses as a text outside a [Text] component. *)
Theorem zero_message_render_error s id r s' :
  step s (Settle id (Received r)) = Some s' -> ok r = true ->
  encodable (JObject [("message", JNumber PosZero)]) = true ->
  body r = encode (JObject [("message", JNumber PosZero)]) ->
  render_message (message s') = ViewError.
Proof.
  intros H Hok He Hb. apply step_settle in H as [_ ->]. unfold on_settle, handle_outcome.
  rewrite Hok, Hb, decode_encode by exact He. reflexivity.
Qed.

(** C22: A 2xx response whose [message] is an object leaves the screen
    unrenderable: React refuses an object as the child of the [Text]. *)
Theorem object_message_render_error s id r ms s' :
  step s (Settle id (Received r)) = Some s' -> ok r = true ->
  encodable (JObject [("message", JObject ms)]) = true ->
  body r = encode (JObject [("message", JObject ms)]) ->
  render_message (message s') = ViewError.
Proof.
  intros H Hok He Hb. apply step_settle in H as [_ ->]. unfold on_settle, handle_outcome.
  rewrite Hok, Hb, decode_encode by exact He. reflexivity.
Qed.

Lemma fold_message_absent members acc :
  (forall kv, In kv members -> fst kv <> "message") ->
  fold_left (fun acc kv => if String.eqb (fst kv) "message" then JsValue (snd kv) else acc) members acc = acc.
Proof.
  revert acc. induction members as [|kv ms IH]; intros acc Hm; simpl; [reflexivity|].
  destruct (String.eqb_spec (fst kv) "message") as [E|_]; [exfalso; apply (Hm kv); [left|]; auto|].
  apply IH. intros kv' Hin. apply Hm. now right.
Qed.

(** C10: A 2xx response whose object has no [message] member clears the
    message: [setMessage(undefined)] replaces the text shown before. *)
Theorem missing_message_clears s id r members s' :
  step s (Settle id (Received r)) = Some s' -> ok r = true ->
  decode (body r) = Some (JObject members) -> (forall kv, In kv members -> fst kv <> "message") ->
  message s' = JsUndefined.
Proof.
  intros H Hok Hb Hm. apply step_settle in H as [_ ->]. unfold on_settle, handle_outcome.
  rewrite Hok, Hb. simpl. now rewrite fold_message_absent.
Qed.

(** ** Concurrent submissions *)

Lemma filter_other_ids (id : nat) (l : list (nat * json)) :
  ~ In id (map fst l) -> filter (fun p => negb (Nat.eqb (fst p) id)) l = l.
Proof.
  induction l as [|[i b] l IH]; simpl; intros Hn; [reflexivity|].
  destruct (Nat.eqb_spec i id) as [->|_]; [tauto|]. simpl. f_equal. auto.
Qed.

(** Settling [id] removes it: the ids left in flight are the others. *)
Lemma pending_remove (l : list (nat * json)) id :
  NoDup (map fst l) -> In id (map fst l) ->
  Permutation (map fst l) (id :: map fst (filter (fun p => negb (Nat.eqb (fst p) id)) l)).
Proof.
  induction l as [|[j b] l IH]; cbn [map fst filter]; [contradiction|].
  intros Hnd Hin. inversion Hnd as [|? ? Hnin Hnd']; subst.
  destruct (Nat.eqb_spec j id) as [->|Hne]; cbn [negb].
  - now rewrite filter_other_ids.
  - destruct Hin as [->|Hin]; [congruence|]. cbn [map fst].
    etransitivity; [apply perm_skip, IH; assumption | apply perm_swap].
Qed.

Lemma settle_any_order ids : forall s outcome,
  NoDup (map fst (pending s)) -> Permutation ids (map fst (pending s)) ->
  exists s', run s (map (fun id => Settle id (outcome id)) ids) = Some s' /\ pending s' = [].
Proof.
  induction ids as [|id ids IH]; intros s outcome Hnd Hp; cbn [map run].
  - exists s. split; [reflexivity|]. apply Permutation_nil in Hp. now destruct (pending s).
  - assert (Hin : In id (map fst (pending s))) by (eapply Permutation_in; [exact Hp | now left]).
    assert (Hf : in_flight s id = true).
    { unfold in_flight. apply existsb_exists. apply in_map_iff in Hin as (p & <- & Hin).
      exists p. split; [exact Hin | apply Nat.eqb_refl]. }
    cbn [step]. rewrite Hf. apply IH.
    + unfold on_settle. destruct (handle_outcome _ _). now apply NoDup_map_filter.
    + unfold on_settle. destruct (handle_outcome _ _). cbn [pending].
      apply (Permutation_cons_inv (a := id)). rewrite Hp. now apply pending_remove.
Qed.

(** C11: No request stays in flight for ever: from every reachable state,
    the requests in flight can settle in any order of arrival and with any
    outcome each, and the screen then has none left. *)
Theorem settle_all s ids (outcome : nat -> FetchOutcome) :
  reachable s -> Permutation ids (map fst (pending s)) ->
  exists s', run s (map (fun id => Settle id (outcome id)) ids) = Some s' /\ pending s' = [].
Proof. intros Hr. apply settle_any_order. exact (inv_nodup _ (reachable_inv _ Hr)). Qed.

Lemma in_flight_lt s id : inv s -> in_flight s id = true -> id < next_id s.
Proof.
  intros Hi Hf. unfold in_flight in Hf. apply existsb_exists in Hf as (p & Hin & Hp).
  apply Nat.eqb_eq in Hp. subst id. exact (inv_ids _ Hi p (inv_pending _ Hi p Hin)).
Qed.

Lemma existsb_filter_false {A} (p q : A -> bool) l :
  existsb p l = false -> existsb p (filter q l) = false.
Proof.
  induction l as [|a l IH]; cbn; [auto|]. intros H. apply orb_false_iff in H as [H1 H2].
  destruct (q a); cbn; [rewrite H1|]; auto.
Qed.

Lemma existsb_filter_out (id : nat) (l : list (nat * json)) :
  existsb (fun p => Nat.eqb (fst p) id) (filter (fun p => negb (Nat.eqb (fst p) id)) l) = false.
Proof.
  induction l as [|a l IH]; cbn; [reflexivity|].
  destruct (Nat.eqb (fst a) id) eqn:E; cbn; [exact IH | rewrite E; exact IH].
Qed.

(** An id below [next_id] that is not in flight never comes back: a press
    sends [next_id] and a settlement only removes. *)
Lemma not_in_flight_step s e s' id :
  id < next_id s -> in_flight s id = false -> step s e = Some s' ->
  id < next_id s' /\ in_flight s' id = false.
Proof.
  intros Hlt Hf. destruct e as [f x| |j o]; cbn [step].
  - destruct (widget_allows _ x); intros E; inversion E; subst; auto.
  - intros E; inversion E; subst. unfold on_press. unfold in_flight in *.
    case_bool_decide; cbn; [|auto]. rewrite existsb_app, Hf. cbn.
    split; [lia|]. destruct (Nat.eqb_spec (next_id s) id); [lia | reflexivity].
  - destruct (in_flight s j); intros E; inversion E; subst. unfold on_settle, in_flight in *.
    destruct (handle_outcome o (message s)). cbn. split; [exact Hlt | now apply existsb_filter_false].
Qed.

(** C27: The continuation of a request runs at most once: once a request
    has settled, it is never in flight again, whatever happens next, so a
    second settlement of it cannot happen. *)
Theorem settled_never_resumes s id o s' es s'' o' :
  reachable s -> step s (Settle id o) = Some s' -> run s' es = Some s'' ->
  in_flight s'' id = false /\ step s'' (Settle id o') = None.
Proof.
  intros Hr H1. apply step_settle in H1 as [Hf ->].
  assert (Hlt : id < next_id (on_settle s id o)).
  { unfold on_settle. destruct (handle_outcome o (message s)). exact (in_flight_lt s id (reachable_inv _ Hr) Hf). }
  assert (Hg : in_flight (on_settle s id o) id = false).
  { unfold on_settle, in_flight. destruct (handle_outcome o (message s)). apply existsb_filter_out. }
  revert Hlt Hg. generalize (on_settle s id o) as t.
  induction es as [|e es IH]; intros t Hlt Hg Hrun; cbn [run] in Hrun.
  - injection Hrun as <-. split; [exact Hg | cbn; now rewrite Hg].
  - destruct (step t e) as [t1|] eqn:E; [|discriminate].
    destruct (not_in_flight_step t e t1 id Hlt Hg E). eauto.
Qed.

(** C28: A text shown under a field is never a false alarm: on every
    reachable state, when [errors.<name> && <Text>] shows a text under a
    field, a submit has been attempted, the field fails its rules on its
    current value, and the text is the numeric message [text_numeric] on
    the five fields with the numeric pattern and the required message
    [text_required] on the four pickers. *)
Theorem displayed_error_text s f t :
  reachable s -> error_display (errors s) f = Some t ->
  isSubmitted s = true /\ validate_field (values s) f <> None /\
  t = match pattern (rules (field_spec f)) with Some _ => text_numeric | None => text_required end.
Proof.
  intros Hr Ht. destruct (reachable_inv _ Hr) as [Hs Hu _ _ _ _ _]. unfold error_display in Ht.
  destruct (errors s !! f) as [e|] eqn:E; [injection Ht as <-|discriminate].
  split_and!.
  - destruct (isSubmitted s) eqn:Hb; [reflexivity|]. rewrite (Hu eq_refl), lookup_empty in E. discriminate.
  - rewrite (Hs f e E). discriminate.
  - now destruct f.
Qed.

(** C6: Edits made while the first request is in flight are not
    validated, and its settlement does not validate them either: after a
    valid first press, a field edited to a failing value before the answer
    arrives shows no error once the answer has arrived, although the form
    now counts as submitted and the field fails its rules. *)
Theorem edit_during_first_request_unchecked s f x o s1 s2 s3 :
  isSubmitted s = false -> validate_all (values s) = ∅ ->
  step s Press = Some s1 -> step s1 (Change f x) = Some s2 ->
  validate_value (rules (field_spec f)) x <> None ->
  step s2 (Settle (next_id s) o) = Some s3 ->
  isSubmitted s3 = true /\ validate_field (values s3) f <> None /\ error_display (errors s3) f = None.
Proof.
  intros Hs Hv E1 E2 Hx E3. cbn [step] in E1. injection E1 as <-.
  cbn [step] in E2. destruct (widget_allows _ x); [injection E2 as <-|discriminate].
  apply step_settle in E3 as [_ ->]. unfold on_settle.
  destruct (handle_outcome o (message (on_change (on_press s) f x))). cbn [isSubmitted values errors].
  unfold on_change, on_press. rewrite bool_decide_true by exact Hv. cbn [isSubmitted values errors].
  rewrite Hs. split_and!; [reflexivity | now rewrite validate_field_set_same |].
  unfold error_display. now rewrite lookup_empty.
Qed.


End Properties.

(** ** Two requests in flight, with ECMAScript's JSON *)

Lemma two_in_flight_reachable : reachable two_in_flight.
Proof.
  apply (run_reachable initial (fill_valid ++ [Press; Press])); [constructor | vm_compute; reflexivity].
Qed.

(** ** Witnesses *)

Lemma sent_only_valid_witness :
  exists v, validate_all v = ∅ /\ first_sent_body = request_json (build_request v).
Proof.
  apply (sent_only_valid two_in_flight 0 first_sent_body);
    [exact two_in_flight_reachable | vm_compute; left; reflexivity].
Defined.

Lemma sent_request_types_witness :
  exists r, first_sent_body = request_json r /\
    In (Request.gender r) ["Male"; "Female"] /\
    In (Request.hypertension r) [PosZero; of_decimal 1 0] /\
    In (Request.heart_disease r) [PosZero; of_decimal 1 0] /\
    In (Request.smoking_history r) ["never"; "current"; "ex"; "occasional"; "No Info"].
Proof.
  apply (sent_request_types two_in_flight 0 first_sent_body);
    [exact two_in_flight_reachable | vm_compute; left; reflexivity].
Defined.

Lemma sent_body_roundtrip_witness :
  JSON_parse (JSON_stringify first_sent_body) = Some first_sent_body.
Proof.
  apply (sent_body_roundtrip two_in_flight 0 first_sent_body);
    [exact two_in_flight_reachable | vm_compute; left; reflexivity].
Defined.

Lemma errors_sound_witness :
  (forall f e, errors two_in_flight !! f = Some e -> validate_field (values two_in_flight) f = Some e) /\
  (isSubmitted two_in_flight = false -> errors two_in_flight = ∅).
Proof. apply errors_sound. exact two_in_flight_reachable. Defined.

Lemma press_valid_sends_witness :
  exists s', step two_in_flight Press = Some s' /\
    sent s' = (sent two_in_flight ++ [(next_id two_in_flight,
                 request_json (build_request (values two_in_flight)))])%list /\
    ~ In (next_id two_in_flight) (map fst (sent two_in_flight)) /\
    errors s' = ∅ /\ message s' = message two_in_flight /\ next_id s' = S (next_id two_in_flight).
Proof.
  apply press_valid_sends; [exact two_in_flight_reachable | vm_compute; reflexivity].
Defined.

Lemma press_invalid_blocks_witness :
  exists s', step initial Press = Some s' /\ sent s' = sent initial /\ pending s' = pending initial /\
    errors s' = validate_all (values initial) /\ isSubmitted s' = true.
Proof. apply press_invalid_blocks. vm_compute. discriminate. Defined.

Lemma settle_spec_witness :
  pending (on_settle two_in_flight 1 (ok_response "new")) =
    filter (fun p => negb (Nat.eqb (fst p) 1)) (pending two_in_flight) /\
  sent (on_settle two_in_flight 1 (ok_response "new")) = sent two_in_flight /\
  values (on_settle two_in_flight 1 (ok_response "new")) = values two_in_flight /\
  match delivered (ok_response "new") with
  | Some m => message (on_settle two_in_flight 1 (ok_response "new")) = m /\
              logs (on_settle two_in_flight 1 (ok_response "new")) = logs two_in_flight
  | None => message (on_settle two_in_flight 1 (ok_response "new")) = message two_in_flight /\
            exists e, logs (on_settle two_in_flight 1 (ok_response "new")) = (logs two_in_flight ++ [e])%list
  end.
Proof. apply settle_spec. vm_compute. reflexivity. Defined.

Lemma http_error_keeps_message_witness :
  message (on_settle two_in_flight 0 server_error) = message two_in_flight /\
  logs (on_settle two_in_flight 0 server_error) =
    (logs two_in_flight ++ [log_error (CauseHttp "INTERNAL SERVER ERROR")])%list.
Proof.
  apply (http_error_keeps_message two_in_flight 0
           {| status := 500; statusText := "INTERNAL SERVER ERROR"; body := "" |});
    vm_compute; reflexivity.
Defined.

Lemma success_sets_message_witness :
  message (on_settle two_in_flight 0 (ok_response "Low risk")) = JsValue (JString "Low risk") /\
  logs (on_settle two_in_flight 0 (ok_response "Low risk")) = logs two_in_flight /\
  ("Low risk" <> "" ->
   render_message (message (on_settle two_in_flight 0 (ok_response "Low risk"))) = ViewText "Low risk").
Proof.
  apply (success_sets_message two_in_flight 0
           {| status := 200; statusText := "OK";
              body := JSON_stringify (JObject [("message", JString "Low risk")]) |});
    vm_compute; reflexivity.
Defined.

Lemma zero_message_render_error_witness :
  render_message (message (on_settle two_in_flight 0
    (Received {| status := 200; statusText := "OK";
                 body := JSON_stringify (JObject [("message", JNumber PosZero)]) |}))) = ViewError.
Proof.
  apply (zero_message_render_error two_in_flight 0
           {| status := 200; statusText := "OK";
              body := JSON_stringify (JObject [("message", JNumber PosZero)]) |});
    vm_compute; reflexivity.
Defined.

Lemma object_message_render_error_witness :
  render_message (message (on_settle two_in_flight 0
    (Received {| status := 200; statusText := "OK";
                 body := JSON_stringify (JObject [("message", JObject no_message_members)]) |}))) = ViewError.
Proof.
  apply (object_message_render_error two_in_flight 0
           {| status := 200; statusText := "OK";
              body := JSON_stringify (JObject [("message", JObject no_message_members)]) |}
           no_message_members); vm_compute; reflexivity.
Defined.

Lemma missing_message_clears_witness :
  message (on_settle two_in_flight 0
             (Received {| status := 200; statusText := "OK";
                          body := JSON_stringify (JObject no_message_members) |}))
  = JsUndefined.
Proof.
  apply (missing_message_clears two_in_flight 0
           {| status := 200; statusText := "OK"; body := JSON_stringify (JObject no_message_members) |}
           no_message_members); [vm_compute; reflexivity | reflexivity | vm_compute; reflexivity |].
  intros kv [<- | []]. vm_compute. discriminate.
Defined.

Lemma settle_all_witness :
  exists s', run two_in_flight (map (fun id => Settle id (if Nat.eqb id 0 then server_error else ok_response "ok"))
                                    [1; 0]) = Some s' /\ pending s' = [].
Proof. apply settle_all; [exact two_in_flight_reachable | vm_compute; apply perm_swap]. Defined.


Lemma settled_never_resumes_witness :
  in_flight (match run (on_settle two_in_flight 1 (ok_response "new")) [Press; Settle 0 server_error] with
             | Some s'' => s'' | None => initial end) 1 = false /\
  step (match run (on_settle two_in_flight 1 (ok_response "new")) [Press; Settle 0 server_error] with
        | Some s'' => s'' | None => initial end) (Settle 1 (ok_response "again")) = None.
Proof.
  apply (settled_never_resumes two_in_flight 1 (ok_response "new")
           (on_settle two_in_flight 1 (ok_response "new")) [Press; Settle 0 server_error]);
    [exact two_in_flight_reachable | vm_compute; reflexivity | vm_compute; reflexivity].
Defined.

Lemma displayed_error_text_witness :
  isSubmitted (match run initial [Press] with Some s => s | None => initial end) = true /\
  validate_field (values (match run initial [Press] with Some s => s | None => initial end)) f_age <> None /\
  text_numeric = match pattern (rules (field_spec f_age)) with Some _ => text_numeric | None => text_required end.
Proof.
  apply (displayed_error_text (match run initial [Press] with Some s => s | None => initial end) f_age);
    [apply (run_reachable initial [Press]); [constructor | vm_compute; reflexivity] | vm_compute; reflexivity].
Defined.

Lemma edit_during_first_request_unchecked_witness :
  isSubmitted (on_settle (on_change (on_press filled_form) f_age "7a") 0 (ok_response "Low risk")) = true /\
  validate_field (values (on_settle (on_change (on_press filled_form) f_age "7a") 0 (ok_response "Low risk"))) f_age <> None /\
  error_display (errors (on_settle (on_change (on_press filled_form) f_age "7a") 0 (ok_response "Low risk"))) f_age = None.
Proof.
  apply (edit_during_first_request_unchecked filled_form f_age "7a" (ok_response "Low risk")
           (on_press filled_form) (on_change (on_press filled_form) f_age "7a"));
    vm_compute; first [reflexivity | discriminate].
Defined.

