(* ===== verification/ScreenSpec.v ===== *)
(** * The screen against the specification of its controller

    [Screen.v] models what [HomeScreen] ([src/src/app/index.tsx]) and
    react-hook-form keep: the [errors] cache and the [isSubmitted] flag of
    the library, the requests in flight as a list in the order they were
    sent, the log with its texts.  The specification describes the
    controller ([FormController], its sections 4.1 and 5) more abstractly:
    the nine values, the result message, the outstanding requests, and the
    failures logged.

    [Module ScreenSpec] writes that specification as a step relation of
    its own, [a_step] on [AState]:
    - [setField] stores a value the field's widget allows;
    - [submit] sends the [PredictionRequest] of the values, with a fresh
      token, exactly when [validate()] passes, that is when every field is
      valid by the specification ([Form.spec_valid]: required, and a
      decimal number for the five numeric fields); otherwise nothing is
      sent;
    - the arrival of a response removes its request; a 2xx answer with a
      readable message sets the result, any other outcome leaves it and
      logs one failure.
    [abs] maps a screen state to the specification's state.

    The theorems show:
    - refinement: from every reachable state, every run of the screen is a
      run of the specification between the abstractions, and every run of
      the specification from the abstraction is one of the screen
      ([run_refines]);
    - ordering: whatever the order of the presses and of the arrivals, the
      message shown is the one of the last arrival, in arrival order, that
      delivered one ([run_message]). *)

From stdpp Require Import base gmap list.
From Stdlib Require Import String List.
From S2P Require Import Prelude Json JsonCodec Form Request Screen.
Import Form Json Request Screen.

Module ScreenSpec.

(** The controller's state in the spec's terms. *)
Record AState := {
  a_values : FormValues;
  a_result : js_value;
  a_outstanding : gmap nat json;
  a_next : nat;
  a_failures : nat }.

(** [validate()] passes: all nine fields are valid. *)
Definition submittable (v : FormValues) : Prop := forall f, spec_valid v f.

Section Spec.
Context `{JT : JsonText}.

Inductive a_step : AState -> Event -> AState -> Prop :=
| a_set_field a f x :
    widget_allows (widget (field_spec f)) x = true ->
    a_step a (Change f x)
      {| a_values := set_value (a_values a) f x; a_result := a_result a;
         a_outstanding := a_outstanding a; a_next := a_next a; a_failures := a_failures a |}
| a_submit a :
    submittable (a_values a) ->
    a_step a Press
      {| a_values := a_values a; a_result := a_result a;
         a_outstanding := <[a_next a := request_json (build_request (a_values a))]> (a_outstanding a);
         a_next := S (a_next a); a_failures := a_failures a |}
| a_suppress a :
    ~ submittable (a_values a) -> a_step a Press a
| a_arrive a id b o :
    a_outstanding a !! id = Some b ->
    a_step a (Settle id o)
      {| a_values := a_values a;
         a_result := match delivered o with Some m => m | None => a_result a end;
         a_outstanding := delete id (a_outstanding a); a_next := a_next a;
         a_failures := match delivered o with Some _ => a_failures a | None => S (a_failures a) end |}.

Inductive a_steps : AState -> list Event -> AState -> Prop :=
| a_steps_nil a : a_steps a [] a
| a_steps_cons a e es a1 a2 : a_step a e a1 -> a_steps a1 es a2 -> a_steps a (e :: es) a2.

(** The message after an event, by the spec: a settlement that delivers a
    message sets it, nothing else changes it. *)
Definition event_message (m : js_value) (e : Event) : js_value :=
  match e with
  | Settle _ o => match delivered o with Some m' => m' | None => m end
  | _ => m
  end.

End Spec.

(** Two answers arriving in the opposite order of their requests: the
    newer first, the older last. *)
Definition stale_arrivals : list Event :=
  [Settle 1 (ok_response "new"); Settle 0 (ok_response "old")].

Definition abs (s : ScreenState) : AState :=
  {| a_values := values s; a_result := message s; a_outstanding := list_to_map (pending s);
     a_next := next_id s; a_failures := length (logs s) |}.

End ScreenSpec.

Import ScreenSpec.

Section Refinement.
Context `{JT : JsonText}.

(** What a settlement stores and logs, by [delivered]. *)
Lemma handle_outcome_delivered o m :
  fst (handle_outcome o m) = match delivered o with Some m' => m' | None => m end /\
  length (option_list (snd (handle_outcome o m))) = match delivered o with Some _ => 0 | None => 1 end.
Proof.
  unfold handle_outcome, delivered.
  destruct o as [|r]; [|destruct (ok r); [destruct (decode (body r)) as [j|]; [destruct (get_message j)|]|]];
    split; reflexivity.
Qed.

Lemma pending_filter_delete (id : nat) (l : list (nat * json)) :
  list_to_map (filter (fun p => negb (Nat.eqb (fst p) id)) l) =@{gmap nat json} delete id (list_to_map l).
Proof.
  induction l as [|[j b] l IH]; cbn [filter fst]; [symmetry; apply delete_empty|].
  rewrite list_to_map_cons. destruct (Nat.eqb_spec j id) as [->|Hne]; cbn [negb].
  - now rewrite delete_insert_eq.
  - rewrite delete_insert_ne by congruence. rewrite list_to_map_cons. now f_equal.
Qed.

Lemma in_flight_lookup s id :
  in_flight s id = true <-> is_Some ((list_to_map (pending s) : gmap nat json) !! id).
Proof.
  unfold in_flight. induction (pending s) as [|[j b] l IH]; cbn [existsb list_to_map fold_right fst snd].
  { rewrite lookup_empty. split; [discriminate | intros [? ?]; discriminate]. }
  destruct (Nat.eqb_spec j id) as [->|Hne]; cbn [orb].
  - rewrite lookup_insert_eq. split; [intros _; eexists; reflexivity | reflexivity].
  - rewrite lookup_insert_ne by congruence. exact IH.
Qed.

Lemma fresh_not_pending s : inv s -> next_id s ∉ (pending s).*1.
Proof.
  intros Hi Hin. apply list_elem_of_fmap in Hin as (p & Hp & Hin). apply list_elem_of_In in Hin.
  pose proof (inv_ids _ Hi p (inv_pending _ Hi p Hin)). lia.
Qed.

Lemma submittable_validate v : validate_all v = ∅ <-> submittable v.
Proof. exact (proj2 (validate_spec_valid v)). Qed.

(** The abstraction of each handler's result. *)
Lemma abs_press_valid s : inv s -> validate_all (values s) = ∅ ->
  abs (on_press s) =
    {| a_values := values s; a_result := message s;
       a_outstanding := <[next_id s := request_json (build_request (values s))]> (list_to_map (pending s));
       a_next := S (next_id s); a_failures := length (logs s) |}.
Proof.
  intros Hi Hv. unfold on_press, abs. rewrite bool_decide_true by exact Hv. cbn.
  now rewrite list_to_map_snoc by exact (fresh_not_pending s Hi).
Qed.

Lemma abs_press_invalid s : validate_all (values s) <> ∅ -> abs (on_press s) = abs s.
Proof. intros Hv. unfold on_press, abs. now rewrite bool_decide_false by exact Hv. Qed.

Lemma abs_settle s id o :
  abs (on_settle s id o) =
    {| a_values := values s; a_result := match delivered o with Some m => m | None => message s end;
       a_outstanding := delete id (list_to_map (pending s)); a_next := next_id s;
       a_failures := match delivered o with Some _ => length (logs s) | None => S (length (logs s)) end |}.
Proof.
  destruct (handle_outcome_delivered o (message s)) as [Hm Hl].
  unfold on_settle, abs. destruct (handle_outcome o (message s)) as [m entry].
  cbn in Hm, Hl |- *. rewrite pending_filter_delete, length_app, Hl, Hm.
  destruct (delivered o); cbn; f_equal; lia.
Qed.

Lemma step_sim s e s' : inv s -> step s e = Some s' -> a_step (abs s) e (abs s').
Proof.
  intros Hi. destruct e as [f x| |id o]; cbn [step].
  - destruct (widget_allows _ x) eqn:Hw; intros E; inversion E; subst. exact (a_set_field (abs s) f x Hw).
  - intros E. inversion E; subst. destruct (decide (validate_all (values s) = ∅)) as [Hv|Hv].
    + rewrite abs_press_valid by assumption. apply a_submit. now apply submittable_validate.
    + rewrite abs_press_invalid by exact Hv. apply a_suppress. now rewrite <- submittable_validate.
  - destruct (in_flight s id) eqn:Hf; intros E; inversion E; subst.
    apply in_flight_lookup in Hf as [b Hb]. rewrite abs_settle. exact (a_arrive (abs s) id b o Hb).
Qed.

Lemma a_step_deterministic a e a1 a2 : a_step a e a1 -> a_step a e a2 -> a1 = a2.
Proof. intros H1. destruct H1; intros H2; inversion H2; subst; first [reflexivity | tauto]. Qed.

Lemma step_enabled s e a' : a_step (abs s) e a' -> exists s', step s e = Some s'.
Proof.
  intros H. inversion H as [? f x Hw| | |? id b o Hb]; subst; cbn [step]; eauto.
  - rewrite Hw. eauto.
  - assert (Hf : in_flight s id = true) by (apply in_flight_lookup; exists b; exact Hb).
    rewrite Hf. eauto.
Qed.

Lemma run_refines_aux es : forall s, reachable s ->
  (forall s', run s es = Some s' -> a_steps (abs s) es (abs s')) /\
  (forall a', a_steps (abs s) es a' -> exists s', run s es = Some s' /\ abs s' = a').
Proof.
  induction es as [|e es IH]; intros s Hr; cbn [run].
  - split; [intros s' E; injection E as <-; constructor|]. intros a' H. inversion H; subst. eauto.
  - split.
    + intros s' E. destruct (step s e) as [s1|] eqn:Es; [|discriminate].
      econstructor; [exact (step_sim s e s1 (reachable_inv _ Hr) Es)|].
      apply (proj1 (IH s1 (reachable_step _ _ _ Hr Es))), E.
    + intros a' H. inversion H as [|? ? ? a1 ? H1 Hs]; subst.
      destruct (step_enabled s e a1 H1) as [s1 Es]. rewrite Es.
      pose proof (step_sim s e s1 (reachable_inv _ Hr) Es) as H1'.
      rewrite (a_step_deterministic _ _ _ _ H1 H1') in Hs.
      exact (proj2 (IH s1 (reachable_step _ _ _ Hr Es)) a' Hs).
Qed.

Lemma step_message s e s' : step s e = Some s' -> message s' = event_message (message s) e.
Proof.
  destruct e as [f x| |id o]; cbn [step event_message].
  - destruct (widget_allows _ x); intros E; inversion E; reflexivity.
  - intros E. inversion E. unfold on_press. now case_bool_decide.
  - destruct (in_flight s id); intros E; inversion E; subst.
    destruct (handle_outcome_delivered o (message s)) as [Hm _]. unfold on_settle.
    destruct (handle_outcome o (message s)). exact Hm.
Qed.

End Refinement.

Section Claims.
Context `{JT : JsonText}.

(** C25: The screen implements the specification of its controller: from
    every reachable state, every run of the screen's handlers is, between
    the abstractions, a run of the specification (a press sends exactly
    when every field is valid by the spec, the requests in flight behave
    as the outstanding requests by token, the message as the result, one
    log entry per failed request), and every run of the specification
    from the abstraction is possible on the screen and ends in the
    abstraction of the screen's state. *)
Theorem run_refines s es :
  reachable s ->
  (forall s', run s es = Some s' -> a_steps (abs s) es (abs s')) /\
  (forall a', a_steps (abs s) es a' -> exists s', run s es = Some s' /\ abs s' = a').
Proof. intros Hr. exact (run_refines_aux es s Hr). Qed.

(** C26: Last write by arrival order wins: after any interleaving of edits,
    presses and arrivals, the message is the one of the last arrival that
    delivered a message, whatever order the requests were sent in, or the
    message before the run when none did. *)
Theorem run_message s es s' :
  run s es = Some s' -> message s' = fold_left event_message es (message s).
Proof.
  revert s. induction es as [|e es IH]; intros s; cbn [run fold_left]; [congruence|].
  destruct (step s e) as [s1|] eqn:E; [|discriminate].
  intros Hrun. rewrite (IH s1 Hrun), (step_message s e s1 E). reflexivity.
Qed.

End Claims.

(** ** Witnesses, with ECMAScript's JSON *)

Lemma run_refines_witness :
  (forall s', run two_in_flight stale_arrivals = Some s' -> a_steps (abs two_in_flight) stale_arrivals (abs s')) /\
  (forall a', a_steps (abs two_in_flight) stale_arrivals a' ->
     exists s', run two_in_flight stale_arrivals = Some s' /\ abs s' = a').
Proof. apply run_refines. exact two_in_flight_reachable. Defined.

Lemma run_message_witness :
  message (match run two_in_flight stale_arrivals with Some s' => s' | None => initial end)
  = fold_left event_message stale_arrivals (message two_in_flight).
Proof. apply run_message. vm_compute. reflexivity. Defined.
